(** * filebuf: a scratch buffer backed by memory or by a temporary file

    Shallow embedding of [filebuf.go] (package [filebuf]) and the properties
    of its specification.

    Modelling conventions.
    - Go's [int] and [int64] are 64-bit two's complement integers: they are
      values of [Z], and every addition the code performs is wrapped by
      [wrap64].
    - A byte slice is a reference into a heap of backing arrays (address,
      length, capacity); [nil] is [None].  Slicing outside [0 <= low <= high
      <= cap] panics, as in Go.  The heap is unbounded: [make] succeeds for
      every non-negative capacity.
    - [*os.File] values are handles into a table of open files.  A file has
      contents and one offset, shared by all handles duplicated from it.
    - The operating system may fail.  Every call that reaches it consumes the
      next entry of a script of outcomes held by the world; an exhausted
      script means that the remaining calls succeed.
    - A Go method with a pointer receiver is a computation in the monad [M],
      which threads the receiver and the world and may panic. *)

From Stdlib Require Import ZArith List Lia Bool String.
From stdpp Require Import base gmap list.

Local Open Scope Z_scope.

Abbreviation byte := Byte.byte.

(** ** Machine integers *)

Definition wrap64 (z : Z) : Z := (z + 2 ^ 63) mod 2 ^ 64 - 2 ^ 63.
Definition add64 (a b : Z) : Z := wrap64 (a + b).
Definition sub64 (a b : Z) : Z := wrap64 (a - b).
Definition MaxInt : Z := 2 ^ 63 - 1.

(** Go's builtin [len] on the contents of a slice. *)
Definition len {A} (l : list A) : Z := Z.of_nat (length l).

(** ** Errors *)

Inductive error : Type :=
| EOF                                   (* io.EOF *)
| ErrShortWrite                         (* io.ErrShortWrite *)
| ErrInvalid                            (* os.ErrInvalid: method of a nil *os.File *)
| ErrClosed                             (* os.ErrClosed *)
| ErrNegativeOffset                     (* ReadAt or Seek before the start *)
| ErrOS (errno : nat)                   (* an error of the operating system *)
| ErrExt (code : nat)                   (* an error of a caller-supplied stream *)
| ErrInvalidWrite                       (* io: Write returned an impossible count *)
| ErrWrap (msg : string) (e : error).   (* fmt.Errorf("msg: %w", e) *)

(** Results of a computation that may panic; [OutOfFuel] is only produced by
    the loops over caller-supplied streams, which need not terminate. *)
Inductive result (A : Type) : Type :=
| Done (a : A)
| Panics (why : string)
| OutOfFuel.
Arguments Done {A} a.
Arguments Panics {A} why.
Arguments OutOfFuel {A}.

(** ** The world: heap, files, handles *)

Inductive outcome : Type :=
| Succeeds
| Fails (errno : nat)                   (* nothing is transferred *)
| Partial (k : nat) (errno : nat).      (* at most [k] bytes, then the error *)

Record ofile : Type := mkFile {
  f_data : list byte;      (* the contents *)
  f_pos : nat;             (* the offset of the open file description *)
  f_linked : bool          (* still has a name in the directory *)
}.

Record World : Type := mkWorld {
  heap : gmap nat (list byte);
  files : gmap nat ofile;
  handles : gmap nat nat;
  next_id : nat;
  script : list outcome
}.

Definition set_heap (hp : gmap nat (list byte)) (w : World) : World :=
  mkWorld hp (files w) (handles w) (next_id w) (script w).
Definition set_files (fs : gmap nat ofile) (w : World) : World :=
  mkWorld (heap w) fs (handles w) (next_id w) (script w).
Definition set_handles (hs : gmap nat nat) (w : World) : World :=
  mkWorld (heap w) (files w) hs (next_id w) (script w).
Definition set_next_id (n : nat) (w : World) : World :=
  mkWorld (heap w) (files w) (handles w) n (script w).
Definition set_script (s : list outcome) (w : World) : World :=
  mkWorld (heap w) (files w) (handles w) (next_id w) s.

Definition empty_world : World := mkWorld ∅ ∅ ∅ 0%nat [].

Definition next_outcome (w : World) : outcome * World :=
  match script w with
  | [] => (Succeeds, w)
  | o :: s => (o, set_script s w)
  end.

Definition outcome_error (o : outcome) : option error :=
  match o with
  | Succeeds => None
  | Fails e | Partial _ e => Some (ErrOS e)
  end.

(** The bytes an operation asked to move [q] really moves. *)
Definition outcome_take (o : outcome) (q : list byte) : list byte :=
  match o with
  | Succeeds => q
  | Fails _ => []
  | Partial k _ => take k q
  end.

(** [copy(dst, src)] on contents: the first [min (len dst) (len src)] bytes of
    [dst] are replaced. *)
Definition copy_into (dst src : list byte) : list byte :=
  take (length dst) src ++ drop (length src) dst.

(** Writing [q] at index [i] of an array or of a file's contents; a file
    written past its end is padded with zero bytes. *)
Definition splice (data : list byte) (i : nat) (q : list byte) : list byte :=
  take i data ++ replicate (i - length data)%nat Byte.x00 ++ q
    ++ drop (i + length q)%nat data.

Module os.

(** The error numbers the model names. *)
Definition EBADF : nat := 9.
Definition EINVAL : nat := 22.

(** The file a handle gives access to, while the handle is open. *)
Definition lookup_file (h : nat) (w : World) : option (nat * ofile) :=
  match handles w !! h with
  | Some d => match files w !! d with
              | Some fl => Some (d, fl)
              | None => None
              end
  | None => None
  end.

(** [ioutil.TempFile(dir, pattern)]: a new, empty, named file opened for
    reading and writing at offset 0. *)
Definition TempFile (dir pattern : string) (w : World)
  : (option nat * option error) * World :=
  let '(o, w) := next_outcome w in
  match o with
  | Succeeds =>
      let d := next_id w in
      let h := S d in
      ((Some h, None),
       mkWorld (heap w) (<[d := mkFile [] 0 true]> (files w))
               (<[h := d]> (handles w)) (S h) (script w))
  | Fails e | Partial _ e => ((None, Some (ErrOS e)), w)
  end.

(** [os.Remove(file.Name())]: the name goes, the open file stays. *)
Definition Remove (h : nat) (w : World) : option error * World :=
  let '(o, w) := next_outcome w in
  match o with
  | Succeeds =>
      match lookup_file h w with
      | Some (d, fl) =>
          (None, set_files (<[d := mkFile (f_data fl) (f_pos fl) false]> (files w)) w)
      | None => (None, w)
      end
  | Fails e | Partial _ e => (Some (ErrOS e), w)
  end.

(** [File.Write(p)]: at the file's offset, which advances.  The error
    is non-nil whenever fewer than [len(p)] bytes were written. *)
Definition Write (fh : option nat) (p : list byte) (w : World)
  : (Z * option error) * World :=
  match fh with
  | None => ((0, Some ErrInvalid), w)
  | Some h =>
      match lookup_file h w with
      | None => ((0, Some ErrClosed), w)
      | Some (d, fl) =>
          let '(o, w) := next_outcome w in
          let q := outcome_take o p in
          let fl' := mkFile (splice (f_data fl) (f_pos fl) q)
                            (f_pos fl + length q)%nat (f_linked fl) in
          ((len q, outcome_error o), set_files (<[d := fl']> (files w)) w)
      end
  end.

(** [File.ReadAt(p, off)]: a positioned read that leaves the file's
    offset alone.  A negative offset is refused before anything else, and
    with an empty [p] the call returns at once, on a closed file too; the
    system call refuses a range that ends past the largest offset with
    [EINVAL].  Otherwise it fills [p] unless the file ends first, in which
    case it returns what it got together with [io.EOF].  The result carries
    the new contents of [p]. *)
Definition ReadAt (fh : option nat) (p : list byte) (off : Z) (w : World)
  : (Z * list byte * option error) * World :=
  match fh with
  | None => ((0, p, Some ErrInvalid), w)
  | Some h =>
      if off <? 0 then ((0, p, Some ErrNegativeOffset), w)
      else if len p =? 0 then ((0, p, None), w)
      else
        match lookup_file h w with
        | None => ((0, p, Some ErrClosed), w)
        | Some (d, fl) =>
            if MaxInt <? off + len p then ((0, p, Some (ErrOS EINVAL)), w)
            else
              let '(o, w) := next_outcome w in
              let q := outcome_take o
                         (take (length p) (drop (Z.to_nat off) (f_data fl))) in
              let err := match outcome_error o with
                         | Some e => Some e
                         | None => if len q <? len p then Some EOF else None
                         end in
              ((len q, copy_into p q, err), w)
        end
  end.

(** [File.Read(p)]: at the file's offset, which advances; [io.EOF]
    only when nothing could be read. *)
Definition Read (fh : option nat) (n : nat) (w : World)
  : (list byte * option error) * World :=
  match fh with
  | None => (([], Some ErrInvalid), w)
  | Some h =>
      match lookup_file h w with
      | None => (([], Some ErrClosed), w)
      | Some (d, fl) =>
          if (n =? 0)%nat then (([], None), w)
          else
            let '(o, w) := next_outcome w in
            let q := outcome_take o (take n (drop (f_pos fl) (f_data fl))) in
            let err := match outcome_error o with
                       | Some e => Some e
                       | None => if (length q =? 0)%nat then Some EOF else None
                       end in
            let fl' := mkFile (f_data fl) (f_pos fl + length q)%nat (f_linked fl) in
            ((q, err), set_files (<[d := fl']> (files w)) w)
      end
  end.

(** [File.Seek(off, 0)]: from the start of the file. *)
Definition Seek (fh : option nat) (off : Z) (w : World)
  : (Z * option error) * World :=
  match fh with
  | None => ((0, Some ErrInvalid), w)
  | Some h =>
      match lookup_file h w with
      | None => ((0, Some ErrClosed), w)
      | Some (d, fl) =>
          if off <? 0 then ((0, Some ErrNegativeOffset), w)
          else
            let '(o, w) := next_outcome w in
            match outcome_error o with
            | Some e => ((0, Some e), w)
            | None =>
                let fl' := mkFile (f_data fl) (Z.to_nat off) (f_linked fl) in
                ((off, None), set_files (<[d := fl']> (files w)) w)
            end
      end
  end.

(** [syscall.Dup(int(file.Fd()))] followed by [os.NewFile]: a second handle
    on the same open file.  [os.NewFile] returns nil only for an invalid
    descriptor, which a successful [Dup] never yields.  A closed file has
    the descriptor -1, which the system call refuses with [EBADF]. *)
Definition Dup (fh : option nat) (w : World)
  : (option nat * option error) * World :=
  match fh with
  | None => ((None, Some ErrInvalid), w)
  | Some h =>
      match handles w !! h with
      | None => ((None, Some (ErrOS EBADF)), w)
      | Some d =>
          let '(o, w) := next_outcome w in
          match outcome_error o with
          | Some e => ((None, Some e), w)
          | None =>
              let h' := next_id w in
              ((Some h', None),
               set_next_id (S h') (set_handles (<[h' := d]> (handles w)) w))
          end
      end
  end.

(** [File.Close()]: the handle is released even when the operating
    system reports an error. *)
Definition Close (fh : option nat) (w : World) : option error * World :=
  match fh with
  | None => (Some ErrInvalid, w)
  | Some h =>
      match handles w !! h with
      | None => (Some ErrClosed, w)
      | Some d =>
          let '(o, w) := next_outcome w in
          (outcome_error o, set_handles (delete h (handles w)) w)
      end
  end.

End os.

(** ** Byte slices *)

Record slice : Type := mkSlice {
  s_arr : nat;       (* address of the backing array *)
  s_off : nat;       (* index of the first element in the array *)
  s_len : nat;
  s_cap : nat
}.

(** [len(s)] and [cap(s)]; both are 0 for the nil slice. *)
Definition slen (s : option slice) : Z :=
  match s with Some s => Z.of_nat (s_len s) | None => 0 end.
Definition scap (s : option slice) : Z :=
  match s with Some s => Z.of_nat (s_cap s) | None => 0 end.

(** The bytes a slice shows. *)
Definition contents (w : World) (s : option slice) : list byte :=
  match s with
  | Some s => take (s_len s) (drop (s_off s) (default [] (heap w !! s_arr s)))
  | None => []
  end.

(** [s[low:high]], which panics unless [0 <= low <= high <= cap(s)]. *)
Definition subslice (s : option slice) (low high : Z) : result (option slice) :=
  if (0 <=? low) && (low <=? high) && (high <=? scap s) then
    Done (match s with
          | Some s => Some (mkSlice (s_arr s) (s_off s + Z.to_nat low)
                                    (Z.to_nat (high - low)) (s_cap s - Z.to_nat low))
          | None => None
          end)
  else Panics "slice bounds out of range".

(** [copy(dst, src)] into a slice: the backing array changes, the count is
    returned. *)
Definition copy_to (dst : option slice) (src : list byte) (w : World) : Z * World :=
  match dst with
  | Some s =>
      let q := take (s_len s) src in
      let arr := default [] (heap w !! s_arr s) in
      (len q, set_heap (<[s_arr s := splice arr (s_off s) q]> (heap w)) w)
  | None => (0, w)
  end.

(** ** The buffer *)

Record Filebuf : Type := mkFilebuf {
  MaxBufSize : Z;
  IgnoreDeleteErr : bool;
  TempDir : string;
  TempFilePattern : string;
  buf : option slice;
  file : option nat;
  off : Z
}.

Definition set_buf (b : option slice) (f : Filebuf) : Filebuf :=
  mkFilebuf (MaxBufSize f) (IgnoreDeleteErr f) (TempDir f) (TempFilePattern f)
            b (file f) (off f).
Definition set_file (h : option nat) (f : Filebuf) : Filebuf :=
  mkFilebuf (MaxBufSize f) (IgnoreDeleteErr f) (TempDir f) (TempFilePattern f)
            (buf f) h (off f).
Definition set_off (o : Z) (f : Filebuf) : Filebuf :=
  mkFilebuf (MaxBufSize f) (IgnoreDeleteErr f) (TempDir f) (TempFilePattern f)
            (buf f) (file f) o.

Definition New (size : Z) : Filebuf :=
  mkFilebuf size false EmptyString EmptyString None None 0.

(** ** The monad of methods *)

Definition M (A : Type) : Type := Filebuf -> World -> result (A * Filebuf * World).

Definition ret {A} (a : A) : M A := fun f w => Done (a, f, w).

Definition bind {A B} (m : M A) (k : A -> M B) : M B :=
  fun f w =>
    match m f w with
    | Done (a, f', w') => k a f' w'
    | Panics why => Panics why
    | OutOfFuel => OutOfFuel
    end.

Notation "'let*' x ':=' m 'in' k" := (bind m (fun x => k))
  (at level 10, x pattern, m at level 200, k at level 200).

Definition this : M Filebuf := fun f w => Done (f, f, w).
Definition assign (g : Filebuf -> Filebuf) : M unit := fun f w => Done (tt, g f, w).
Definition sys {A} (op : World -> A * World) : M A :=
  fun f w => let '(a, w') := op w in Done (a, f, w').
Definition eval {A} (r : result A) : M A :=
  fun f w =>
    match r with
    | Done a => Done (a, f, w)
    | Panics why => Panics why
    | OutOfFuel => OutOfFuel
    end.

(** [make([]byte, 0, c)] *)
Definition make (c : Z) : M (option slice) :=
  fun f w =>
    if c <? 0 then Panics "makeslice: cap out of range"
    else
      let a := next_id w in
      let arr := replicate (Z.to_nat c) Byte.x00 in
      Done (Some (mkSlice a 0 0 (Z.to_nat c)), f,
            set_next_id (S a) (set_heap (<[a := arr]> (heap w)) w)).

(** ** Caller-supplied streams

    An [io.Reader] is a state machine: offered a window of [n] bytes it
    yields at most [n] bytes and possibly an error.  An [io.Writer] takes
    bytes and answers with a count and possibly an error. *)

Record Reader : Type := mkReader {
  r_state : Type;
  r_cur : r_state;
  r_step : r_state -> nat -> list byte * option error * r_state
}.

Definition reader_Read (r : Reader) (n : nat) : (list byte * option error) * Reader :=
  let '(q, err, st) := r_step r (r_cur r) n in
  ((take n q, err), mkReader (r_state r) st (r_step r)).

Record Writer : Type := mkWriter {
  w_state : Type;
  w_cur : w_state;
  w_step : w_state -> list byte -> Z * option error * w_state
}.

Definition writer_Write (wr : Writer) (q : list byte) : (Z * option error) * Writer :=
  let '(n, err, st) := w_step wr (w_cur wr) q in
  ((n, err), mkWriter (w_state wr) st (w_step wr)).

(** A reader over fixed data that hands out at most [chunk] bytes per call
    and reports [io.EOF] once the data is used up, as [bytes.Reader] does. *)
Definition chunk_reader (data : list byte) (chunk : nat) : Reader :=
  mkReader (list byte) data
    (fun rest n =>
       match rest with
       | [] => ([], Some EOF, [])
       | _ => (take (Nat.min n chunk) rest, None, drop (Nat.min n chunk) rest)
       end).

(** A writer that keeps everything it is given, as [bytes.Buffer] does. *)
Definition collector : Writer :=
  mkWriter (list byte) []
    (fun acc q => (len q, None, acc ++ q)).

(** The collecting writer after it has taken [acc]. *)
Definition sink (acc : list byte) : Writer :=
  mkWriter (list byte) acc (w_step collector).

Module io.

(** The size of the transfer buffer of [io.Copy]. *)
Definition copy_buffer_size : nat := 32768.

Section Copy.
Context {S D : Type}.
Variable src_read : S -> nat -> (list byte * option error) * S.
Variable dst_write : D -> list byte -> (Z * option error) * D.

(** The loop of [io.Copy(dst, src)] for a source and a destination
    without a transfer method of their own. *)
Fixpoint Copy (fuel : nat) (src : S) (dst : D) (written : Z)
  : result ((Z * option error) * S * D) :=
  match fuel with
  | O => OutOfFuel
  | Datatypes.S fuel =>
      let '((q, er), src) := src_read src copy_buffer_size in
      let after_write dst written :=
        match er with
        | Some EOF => Done ((written, None), src, dst)
        | Some e => Done ((written, Some e), src, dst)
        | None => Copy fuel src dst written
        end in
      if 0 <? len q then
        let '((nw, ew), dst) := dst_write dst q in
        let '(nw, ew) := if (nw <? 0) || (len q <? nw)
                         then (0, Some (default ErrInvalidWrite ew))
                         else (nw, ew) in
        let written := add64 written nw in
        match ew with
        | Some e => Done ((written, Some e), src, dst)
        | None =>
            if negb (len q =? nw)
            then Done ((written, Some ErrShortWrite), src, dst)
            else after_write dst written
        end
      else after_write dst written
  end.
End Copy.

End io.

Module bytes.

(** The smallest window [Buffer.ReadFrom] offers to [Read]; the model
    offers exactly that much. *)
Definition MinRead : nat := 512.

(** [io.Copy(b, r)] into a new [bytes.Buffer], which is [b.ReadFrom(r)]:
    everything up to [io.EOF], which is not reported as an error. *)
Fixpoint Buffer_ReadFrom (fuel : nat) (r : Reader) (acc : list byte)
  : result ((Z * option error) * list byte * Reader) :=
  match fuel with
  | O => OutOfFuel
  | S fuel =>
      let '((q, e), r) := reader_Read r MinRead in
      let acc := acc ++ q in
      match e with
      | Some EOF => Done ((len acc, None), acc, r)
      | Some e => Done ((len acc, Some e), acc, r)
      | None => Buffer_ReadFrom fuel r acc
      end
  end.

End bytes.

(** [append(s, data...)].  The result has room for [data] in place when the
    capacity allows; otherwise a new array is allocated.  Go leaves the new
    capacity to the implementation: the model allocates exactly what is
    needed. *)
Definition append (s : option slice) (data : list byte) : M (option slice) :=
  fun f w =>
    if slen s + len data <=? scap s then
      match subslice s 0 (slen s + len data) with
      | Done s' =>
          match subslice s' (slen s) (slen s') with
          | Done dst => let '(_, w) := copy_to dst data w in Done (s', f, w)
          | Panics why => Panics why
          | OutOfFuel => OutOfFuel
          end
      | Panics why => Panics why
      | OutOfFuel => OutOfFuel
      end
    else
      let a := next_id w in
      let arr := contents w s ++ data in
      Done (Some (mkSlice a 0 (length arr) (length arr)), f,
            set_next_id (S a) (set_heap (<[a := arr]> (heap w)) w)).

(** ** The methods of [Filebuf] *)

(** The phases of a promotion, as [moveToFile] names them in its errors. *)
Definition msg_open : string := "cannot open backing temporary file".
Definition msg_delete : string := "cannot delete backing temporary file".
Definition msg_copy : string := "cannot copy to backing temporary file".

Definition moveToFile : M (option error) :=
  let* f := this in
  let* (fh, err) := sys (os.TempFile (TempDir f) (TempFilePattern f)) in
  let* _ := assign (set_file fh) in
  match err with
  | Some e => ret (Some (ErrWrap msg_open e))
  | None =>
      let* err := sys (match fh with
                       | Some h => os.Remove h
                       | None => fun w => (Some ErrInvalid, w)
                       end) in
      match (if IgnoreDeleteErr f then None else err) with
      | Some e => ret (Some (ErrWrap msg_delete e))
      | None =>
          let* (_, err) := sys (fun w => os.Write fh (contents w (buf f)) w) in
          match err with
          | Some e => ret (Some (ErrWrap msg_copy e))
          | None => ret None
          end
      end
  end.

Definition appendBuffer (p : list byte) : M unit :=
  let* f := this in
  let* _ := match buf f with
            | None => let* s := make (MaxBufSize f) in assign (set_buf s)
            | Some _ => ret tt
            end in
  let* f := this in
  let l := slen (buf f) in
  let* s := eval (subslice (buf f) 0 (add64 l (len p))) in
  let* _ := assign (set_buf s) in
  let* dst := eval (subslice s l (slen s)) in
  let* _ := sys (copy_to dst p) in
  ret tt.

Definition copyBuffer (p : list byte) : M (Z * list byte) :=
  let* f := this in
  let e := add64 (off f) (len p) in
  let e := if slen (buf f) <? e then slen (buf f) else e in
  let* src := eval (subslice (buf f) (off f) e) in
  let* q := sys (fun w => (contents w src, w)) in
  ret (sub64 e (off f), copy_into p q).

Definition Write (p : list byte) : M (Z * option error) :=
  let* f := this in
  match file f with
  | Some h => sys (os.Write (Some h) p)
  | None =>
      if (0 <? MaxBufSize f) && (MaxBufSize f <? add64 (slen (buf f)) (len p)) then
        let* err := moveToFile in
        match err with
        | Some e => ret (0, Some e)
        | None =>
            let* _ := assign (set_buf None) in
            let* f := this in
            sys (os.Write (file f) p)
        end
      else
        let* _ := appendBuffer p in
        ret (len p, None)
  end.

(** [Read] returns the count, the new contents of [p] and the error. *)
Definition Read (p : list byte) : M (Z * list byte * option error) :=
  let* f := this in
  match file f with
  | Some h =>
      let* (n, p', err) := sys (os.ReadAt (Some h) p (off f)) in
      let* _ := assign (fun f => set_off (add64 (off f) n) f) in
      ret (n, p', err)
  | None =>
      if slen (buf f) <=? off f then ret (0, p, Some EOF)
      else
        let* (n, p') := copyBuffer p in
        let* _ := assign (fun f => set_off (add64 (off f) n) f) in
        ret (n, p', None)
  end.

Definition ReadAt (p : list byte) (pos : Z) : M (Z * list byte * option error) :=
  let* f := this in
  let off0 := off f in
  let* _ := assign (set_off pos) in
  let* r := Read p in
  let* _ := assign (set_off off0) in
  ret r.

Definition Rewind : M (option error) :=
  let* _ := assign (set_off 0) in
  let* f := this in
  match file f with
  | Some h =>
      let* (_, err) := sys (os.Seek (Some h) 0) in
      match err with
      | Some e => ret (Some e)
      | None => ret None
      end
  | None => ret None
  end.

Definition Clone : M (option Filebuf * option error) :=
  let* f := this in
  let fb := f in
  match file fb with
  | Some h =>
      let* (fd, err) := sys (os.Dup (file f)) in
      match err with
      | Some e => ret (None, Some (ErrWrap "cannot duplicate handle to backing file" e))
      | None =>
          match fd with
          | Some h' => ret (Some (set_file (Some h') fb), None)
          | None => ret (None, Some (ErrWrap "could not create new file from descriptor" ErrInvalid))
          end
      end
  | None => ret (Some fb, None)
  end.

Definition Close : M (option error) :=
  let* f := this in
  match file f with
  | Some h => sys (os.Close (Some h))
  | None =>
      let* _ := assign (set_buf None) in
      ret None
  end.

(** The [for] loop of [ReadFrom]: [Some (tot, err)] when the loop returns
    from the method, [None] when it breaks. *)
Fixpoint fill (fuel : nat) (r : Reader) (tot : Z)
  : M (option (Z * option error) * Reader) :=
  match fuel with
  | O => fun _ _ => OutOfFuel
  | S fuel =>
      let* f := this in
      let* win := eval (subslice (buf f) (slen (buf f))
                                 (sub64 (scap (buf f)) (slen (buf f)))) in
      let '((q, err), r) := reader_Read r (Z.to_nat (slen win)) in
      let* m := sys (copy_to win q) in
      let* s := eval (subslice (buf f) 0 (add64 (slen (buf f)) m)) in
      let* _ := assign (set_buf s) in
      let tot := add64 tot m in
      match err with
      | Some EOF => ret (Some (tot, None), r)
      | Some e => ret (Some (tot, Some e), r)
      | None =>
          let* f := this in
          if slen (buf f) =? scap (buf f) then ret (None, r)
          else fill fuel r tot
      end
  end.

Definition ReadFrom (fuel : nat) (r : Reader) : M ((Z * option error) * Reader) :=
  let* f := this in
  match file f with
  | Some h =>
      fun f w =>
        match io.Copy reader_Read (fun w q => os.Write (Some h) q w) fuel r w 0 with
        | Done (ne, r, w) => Done ((ne, r), f, w)
        | Panics why => Panics why
        | OutOfFuel => OutOfFuel
        end
  | None =>
      if MaxBufSize f =? 0 then
        let* (ne, data, r) := eval (bytes.Buffer_ReadFrom fuel r []) in
        let* s := append (buf f) data in
        let* _ := assign (set_buf s) in
        ret (ne, r)
      else
        let* _ := match buf f with
                  | None => let* s := make (MaxBufSize f) in assign (set_buf s)
                  | Some _ => ret tt
                  end in
        let* (returned, r) := fill fuel r 0 in
        match returned with
        | Some ne => ret (ne, r)
        | None =>
            let* f := this in
            let m := slen (buf f) in
            let* err := moveToFile in
            match err with
            | Some e => ret ((0, Some e), r)
            | None =>
                let* _ := assign (set_buf None) in
                let* f := this in
                fun f w =>
                  match io.Copy reader_Read (fun w q => os.Write (file f) q w) fuel r w 0 with
                  | Done ((n, err), r, w) => Done (((add64 n m, err), r), f, w)
                  | Panics why => Panics why
                  | OutOfFuel => OutOfFuel
                  end
            end
        end
  end.

(** The size of the file behind a handle, which bounds the number of reads
    [io.Copy] needs to drain it. *)
Definition file_size (fh : option nat) (w : World) : nat :=
  match fh with
  | Some h => match os.lookup_file h w with
              | Some (_, fl) => length (f_data fl)
              | None => 0
              end
  | None => 0
  end.

Definition WriteTo (wr : Writer) : M ((Z * option error) * Writer) :=
  let* f := this in
  match file f with
  | Some h =>
      let* (_, err) := sys (os.Seek (Some h) (off f)) in
      match err with
      | Some e => ret ((0, Some (ErrWrap "cannot seek in backing file" e)), wr)
      | None =>
          fun f w =>
            match io.Copy (fun w n => os.Read (Some h) n w) writer_Write
                          (S (file_size (Some h) w)) w wr 0 with
            | Done (ne, w, wr) => Done ((ne, wr), f, w)
            | Panics why => Panics why
            | OutOfFuel => OutOfFuel
            end
      end
  | None =>
      let* src := eval (subslice (buf f) (off f) (slen (buf f))) in
      let* q := sys (fun w => (contents w src, w)) in
      let '(me, wr) := writer_Write wr q in
      ret (me, wr)
  end.

(** ** Callers

    The loops a caller runs: writing a sequence of chunks, and reading until
    end of stream into a scratch slice of [size] bytes, keeping [p[:n]] of
    every call as [io.Copy] and [io.ReadAll] do. *)

Fixpoint write_chunks (ps : list (list byte)) : M (Z * option error) :=
  match ps with
  | [] => ret (0, None)
  | p :: ps =>
      let* (n, err) := Write p in
      match err with
      | Some e => ret (n, Some e)
      | None =>
          let* (m, err) := write_chunks ps in
          ret (n + m, err)
      end
  end.

Fixpoint read_all (fuel : nat) (size : nat) (acc : list byte)
  : M (list byte * option error) :=
  match fuel with
  | O => fun _ _ => OutOfFuel
  | S fuel =>
      let* (n, p, err) := Read (replicate size Byte.x00) in
      let acc := acc ++ take (Z.to_nat n) p in
      match err with
      | Some EOF => ret (acc, None)
      | Some e => ret (acc, Some e)
      | None => read_all fuel size acc
      end
  end.

(** Write the chunks, rewind, read everything back. *)
Definition roundtrip (ps : list (list byte)) (fuel size : nat)
  : M (Z * list byte * option error) :=
  let* (n, werr) := write_chunks ps in
  match werr with
  | Some e => ret (n, [], Some e)
  | None =>
      let* rerr := Rewind in
      match rerr with
      | Some e => ret (n, [], Some e)
      | None =>
          let* (data, err) := read_all fuel size [] in
          ret (n, data, err)
      end
  end.

(** What a computation returned, without the states. *)
Definition value {A} (r : result (A * Filebuf * World)) : result A :=
  match r with
  | Done (a, _, _) => Done a
  | Panics why => Panics why
  | OutOfFuel => OutOfFuel
  end.

(** ** Representations

    [in_memory T f w data]: the buffer is memory-backed with threshold [T] and
    shows [data]; its array, once allocated, has capacity [T].
    [on_file f w data]: the buffer is file-backed, its memory region is nil,
    the file holds [data] and its offset is at the end. *)

Definition in_memory (T : Z) (f : Filebuf) (w : World) (data : list byte) : Prop :=
  file f = None /\ MaxBufSize f = T /\
  match buf f with
  | None => data = []
  | Some s =>
      s_off s = 0%nat /\ s_len s = length data /\ s_cap s = Z.to_nat T /\
      exists arr, heap w !! s_arr s = Some arr /\ length arr = Z.to_nat T /\
                  take (length data) arr = data
  end.

Definition on_file (f : Filebuf) (w : World) (data : list byte) : Prop :=
  buf f = None /\
  exists h d fl, file f = Some h /\ handles w !! h = Some d /\
                 files w !! d = Some fl /\ f_data fl = data /\
                 f_pos fl = length data.

(** A slice as Go keeps it: within its array, length within capacity. *)
Definition valid_slice (w : World) (s : option slice) : Prop :=
  match s with
  | Some s => exists arr, heap w !! s_arr s = Some arr /\
                          (s_off s + s_cap s <= length arr)%nat /\
                          (s_len s <= s_cap s)%nat
  | None => True
  end.

(** [backing f w data]: whichever representation is active shows [data]. *)
Definition backing (f : Filebuf) (w : World) (data : list byte) : Prop :=
  match file f with
  | None => valid_slice w (buf f) /\ contents w (buf f) = data
  | Some h => exists d fl, handles w !! h = Some d /\ files w !! d = Some fl /\
                           f_data fl = data
  end.

(** The contents of the file behind an open handle. *)
Definition file_data (h : nat) (w : World) : option (list byte) :=
  match os.lookup_file h w with
  | Some (_, fl) => Some (f_data fl)
  | None => None
  end.

(** Rewind, then read until end of stream. *)
Definition read_from_start (fuel size : nat) : M (list byte * option error) :=
  let* err := Rewind in
  match err with
  | Some e => ret ([], Some e)
  | None => read_all fuel size []
  end.

(** ** Histories

    The calls a caller can make on a buffer, each reduced to the error it
    returns, and the buffers a history of calls can produce.  [Clone] hands
    out a second buffer, which has a history of its own from then on.  With
    [clean] set, a history contains no promotion that failed after its
    temporary file was created. *)

Inductive call : Type :=
| CallWrite (p : list byte)
| CallRead (p : list byte)
| CallReadAt (p : list byte) (pos : Z)
| CallReadFrom (fuel : nat) (r : Reader)
| CallWriteTo (wr : Writer)
| CallRewind
| CallClose.

Definition run (c : call) : M (option error) :=
  match c with
  | CallWrite p => let* (_, err) := Write p in ret err
  | CallRead p => let* (_, err) := Read p in ret err
  | CallReadAt p pos => let* (_, err) := ReadAt p pos in ret err
  | CallReadFrom fuel r => let* (ne, _) := ReadFrom fuel r in ret (snd ne)
  | CallWriteTo wr => let* (ne, _) := WriteTo wr in ret (snd ne)
  | CallRewind => Rewind
  | CallClose => Close
  end.

Fixpoint run_all (cs : list call) : M (list (option error)) :=
  match cs with
  | [] => ret []
  | c :: cs =>
      let* err := run c in
      let* errs := run_all cs in
      ret (err :: errs)
  end.

(** The calls that only read: they move cursors and offsets, or close. *)
Definition reading (c : call) : bool :=
  match c with
  | CallRead _ | CallReadAt _ _ | CallRewind | CallClose => true
  | CallWrite _ | CallReadFrom _ _ | CallWriteTo _ => false
  end.

(** ** Failing promotions

    The three calls of [moveToFile] to the operating system, in the order it
    makes them, and the behaviours of the operating system under which a
    promotion fails in each: the creation of the temporary file fails; it
    succeeds and the unlinking fails, which counts unless [IgnoreDeleteErr]
    is set; or the file is created, the unlinking succeeds or its failure is
    ignored, and the copy fails, with or without bytes written. *)

Inductive phase : Type := Creating | Unlinking | Copying.

Definition phase_msg (ph : phase) : string :=
  match ph with
  | Creating => msg_open
  | Unlinking => msg_delete
  | Copying => msg_copy
  end.

Inductive promotion_fails (f : Filebuf) (w : World) : phase -> nat -> Prop :=
| fails_creating o rest e :
    script w = o :: rest -> outcome_error o = Some (ErrOS e) ->
    promotion_fails f w Creating e
| fails_unlinking o rest e :
    script w = Succeeds :: o :: rest -> outcome_error o = Some (ErrOS e) ->
    IgnoreDeleteErr f = false ->
    promotion_fails f w Unlinking e
| fails_copying o1 o2 rest e :
    script w = Succeeds :: o1 :: o2 :: rest ->
    outcome_error o1 = None \/ IgnoreDeleteErr f = true ->
    outcome_error o2 = Some (ErrOS e) ->
    promotion_fails f w Copying e.

Definition half_promoted (err : option error) : Prop :=
  exists e, err = Some (ErrWrap msg_delete e) \/ err = Some (ErrWrap msg_copy e).

Inductive reachable (clean : bool) : Filebuf -> World -> Prop :=
| reach_new size ign dir pat w :
    reachable clean (mkFilebuf size ign dir pat None None 0) w
| reach_call f w c err f' w' :
    reachable clean f w ->
    run c f w = Done (err, f', w') ->
    (clean = true -> ~ half_promoted err) ->
    reachable clean f' w'
| reach_clone f w c f' w' :
    reachable clean f w ->
    Clone f w = Done ((Some c, None), f', w') ->
    reachable clean c w'.

(** * Properties *)

(** ** Arithmetic and list facts *)

Lemma wrap64_small z : - 2 ^ 63 <= z < 2 ^ 63 -> wrap64 z = z.
Proof.
  intros Hz. unfold wrap64. rewrite Z.mod_small; lia.
Qed.

Lemma add64_small a b : - 2 ^ 63 <= a + b <= MaxInt -> add64 a b = a + b.
Proof.
  intros H. unfold add64. apply wrap64_small. unfold MaxInt in H. lia.
Qed.

Lemma sub64_small a b : - 2 ^ 63 <= a - b <= MaxInt -> sub64 a b = a - b.
Proof.
  intros H. unfold sub64. apply wrap64_small. unfold MaxInt in H. lia.
Qed.

Lemma len_nonneg {A} (l : list A) : 0 <= len l.
Proof. unfold len. lia. Qed.

Lemma len_app {A} (l k : list A) : len (l ++ k) = len l + len k.
Proof. unfold len. rewrite length_app. lia. Qed.

Lemma len_nil_iff {A} (l : list A) : len l = 0 <-> l = [].
Proof.
  unfold len. split; intros H.
  - destruct l; [done | rewrite length_cons in H; lia].
  - by subst.
Qed.

Lemma next_outcome_quiet w : script w = [] -> next_outcome w = (Succeeds, w).
Proof. intros H. unfold next_outcome. by rewrite H. Qed.

Lemma next_outcome_cons w o s :
  script w = o :: s -> next_outcome w = (o, set_script s w).
Proof. intros H. unfold next_outcome. by rewrite H. Qed.

Lemma splice_end (data q : list byte) : splice data (length data) q = data ++ q.
Proof.
  unfold splice. rewrite firstn_all, Nat.sub_diag. simpl.
  rewrite drop_ge by lia. by rewrite app_nil_r.
Qed.

Lemma splice_length (arr : list byte) (i : nat) (q : list byte) :
  (i + length q <= length arr)%nat -> length (splice arr i q) = length arr.
Proof.
  intros H. unfold splice.
  rewrite !length_app, length_take, length_replicate, length_drop. lia.
Qed.

Lemma splice_take (arr : list byte) (i : nat) (q : list byte) :
  (i + length q <= length arr)%nat ->
  take (i + length q) (splice arr i q) = take i arr ++ q.
Proof.
  intros H. unfold splice.
  replace (i - length arr)%nat with 0%nat by lia. simpl.
  rewrite take_app_ge by (rewrite length_take; lia).
  rewrite length_take. replace (i + length q - i `min` length arr)%nat with (length q) by lia.
  by rewrite take_app_length.
Qed.

Lemma copy_into_take (p q : list byte) :
  (length q <= length p)%nat -> take (length q) (copy_into p q) = q.
Proof.
  intros H. unfold copy_into. rewrite (take_ge q) by lia.
  by rewrite take_app_length.
Qed.

(** ** Stepping through the monad *)

Lemma bind_Done {A B} (m : M A) (k : A -> M B) f w a f' w' :
  m f w = Done (a, f', w') -> bind m k f w = k a f' w'.
Proof. intros H. unfold bind. by rewrite H. Qed.

Lemma bind_Panics {A B} (m : M A) (k : A -> M B) f w why :
  m f w = Panics why -> bind m k f w = Panics why.
Proof. intros H. unfold bind. by rewrite H. Qed.

Lemma bind_inv {A B} (m : M A) (k : A -> M B) f w r :
  bind m k f w = Done r ->
  exists a f' w', m f w = Done (a, f', w') /\ k a f' w' = Done r.
Proof.
  unfold bind. destruct (m f w) as [[[a f'] w']| |]; [|done..].
  intros H. by exists a, f', w'.
Qed.

(** Unfolds the plumbing of [M], leaving the operations on the state. *)
Ltac mrun := unfold bind, this, assign, sys, ret, eval; cbn beta iota.

(** Decides the integer tests of the goal from the hypotheses. *)
Ltac ztest :=
  repeat match goal with
    | |- context [?a <=? ?b] =>
        first [ rewrite (proj2 (Z.leb_le a b)) by lia
              | rewrite (proj2 (Z.leb_gt a b)) by lia ]
    | |- context [?a <? ?b] =>
        first [ rewrite (proj2 (Z.ltb_lt a b)) by lia
              | rewrite (proj2 (Z.ltb_ge a b)) by lia ]
    | |- context [?a =? ?b] =>
        first [ rewrite (proj2 (Z.eqb_eq a b)) by lia
              | rewrite (proj2 (Z.eqb_neq a b)) by lia ]
    end.

(** ** Zero threshold *)

Lemma Write_zero_threshold_nonempty (p : list byte) (w : World) :
  p <> [] -> len p <= MaxInt ->
  Write p (New 0) w = Panics "slice bounds out of range".
Proof.
  intros Hp Hlen.
  assert (0 < len p) as Hpos.
  { pose proof (len_nonneg p). destruct (decide (len p = 0)) as [E|]; [|lia].
    apply len_nil_iff in E. done. }
  unfold Write, appendBuffer, bind, this, make, assign, eval, subslice. simpl.
  rewrite add64_small by (unfold MaxInt in *; lia).
  change (Z.of_nat 0) with 0. change (Z.to_nat 0) with 0%nat. rewrite Z.add_0_l.
  change (Z.of_nat 0) with 0.
  destruct (Z.leb_spec 0 (len p)); [|lia].
  destruct (Z.leb_spec (len p) 0); [lia|]. done.
Qed.

(** ** Writing *)

Lemma in_memory_New T w : in_memory T (New T) w [].
Proof. by unfold in_memory, New. Qed.

Lemma in_memory_contents T f w data :
  in_memory T f w data -> contents w (buf f) = data.
Proof.
  intros (_ & _ & Hb). unfold contents. destruct (buf f) as [s|]; [|done].
  destruct Hb as (Ho & Hl & _ & arr & Ha & _ & Ht).
  by rewrite Ha, Ho, Hl.
Qed.

Lemma in_memory_slen T f w data : in_memory T f w data -> slen (buf f) = len data.
Proof.
  intros (_ & _ & Hb). unfold slen, len. destruct (buf f) as [s|].
  - destruct Hb as (_ & -> & _). done.
  - by subst.
Qed.

Lemma in_memory_bound T f w data : 0 <= T -> in_memory T f w data -> len data <= T.
Proof.
  intros HT (_ & _ & Hb). unfold len. destruct (buf f) as [s|].
  - destruct Hb as (_ & _ & _ & arr & _ & Hl & Ht).
    apply (f_equal length) in Ht. rewrite length_take in Ht. lia.
  - subst. simpl. lia.
Qed.

Lemma appendBuffer_nil f w p :
  buf f = None -> 0 <= MaxBufSize f ->
  appendBuffer p f w =
  appendBuffer p
    (set_buf (Some (mkSlice (next_id w) 0 0 (Z.to_nat (MaxBufSize f)))) f)
    (set_next_id (S (next_id w))
       (set_heap (<[next_id w := replicate (Z.to_nat (MaxBufSize f)) Byte.x00]> (heap w)) w)).
Proof.
  intros Hb HT. unfold appendBuffer. mrun. rewrite Hb. unfold make. ztest.
  reflexivity.
Qed.

Lemma appendBuffer_in_memory T f w data p :
  0 <= T <= MaxInt -> in_memory T f w data -> len data + len p <= T ->
  exists f' w',
    appendBuffer p f w = Done (tt, f', w') /\
    in_memory T f' w' (data ++ p) /\
    off f' = off f /\ files w' = files w /\ handles w' = handles w /\
    script w' = script w.
Proof.
  revert f w.
  assert (forall f w s, 0 <= T <= MaxInt -> in_memory T f w data -> buf f = Some s ->
            len data + len p <= T ->
            exists f' w',
              appendBuffer p f w = Done (tt, f', w') /\
              in_memory T f' w' (data ++ p) /\
              off f' = off f /\ files w' = files w /\ handles w' = handles w /\
              script w' = script w) as Hsome.
  { intros f w s HT (Hfile & HMax & Hb) Hs Hfit.
    destruct f as [mx ign dir pat b fl o]. simpl in *. subst mx fl b.
    destruct s as [a so sl sc].
    destruct Hb as (Ho & Hsl & Hsc & arr & Ha & Hl & Ht). simpl in *. subst so sl sc.
    unfold appendBuffer. mrun. unfold subslice, slen, scap, set_buf. simpl.
    unfold len, MaxInt in *.
    rewrite add64_small by (unfold MaxInt; lia). ztest. simpl.
    unfold slen, scap. simpl. ztest. simpl.
    eexists _, _. split; [reflexivity|].
    unfold copy_to, in_memory. simpl. rewrite Ha. simpl.
    rewrite lookup_insert_eq.
    replace (Z.to_nat (Z.of_nat (Z.to_nat
       (Z.of_nat (length data) + Z.of_nat (length p) - 0)) - Z.of_nat (length data)))
      with (length p) by lia.
    rewrite Nat2Z.id, firstn_all, length_app.
    repeat split; try done; try lia.
    exists (splice arr (length data) p). split; [done|].
    split; [rewrite splice_length; lia|].
    rewrite splice_take by lia. by rewrite Ht. }
  intros f w HT Hm Hfit.
  destruct (buf f) as [s|] eqn:Hb; [by eapply Hsome|].
  destruct Hm as (Hfile & HMax & Hd). rewrite Hb in Hd. subst data.
  rewrite appendBuffer_nil by (done || lia). rewrite HMax.
  match goal with
  | |- exists f' w', appendBuffer p ?f0 ?w0 = _ /\ _ =>
      destruct (Hsome f0 w0 (mkSlice (next_id w) 0 0 (Z.to_nat T)))
        as (f' & w' & Hrun & Hres); [done | | done | done |]
  end.
  2:{ exists f', w'. split; [exact Hrun|]. exact Hres. }
  unfold in_memory. simpl. rewrite lookup_insert_eq.
  repeat split; try done.
  eexists. split; [done|]. rewrite length_replicate. done.
Qed.

(** Below the threshold [Write] appends in place and reaches no file. *)
Lemma Write_in_memory T f w data p :
  0 < T <= MaxInt -> in_memory T f w data -> len data + len p <= T ->
  exists f' w',
    Write p f w = Done ((len p, None), f', w') /\
    in_memory T f' w' (data ++ p) /\
    off f' = off f /\ files w' = files w /\ handles w' = handles w /\
    script w' = script w.
Proof.
  intros HT Hm Hfit.
  pose proof (in_memory_slen _ _ _ _ Hm) as Hslen.
  destruct (appendBuffer_in_memory T f w data p) as (f' & w' & Happ & Hres);
    [lia | done | done |].
  destruct Hm as (Hfile & HMax & Hb).
  pose proof (len_nonneg data) as Hd. pose proof (len_nonneg p) as Hp.
  unfold Write. rewrite (bind_Done _ _ f w f f w) by done.
  rewrite Hfile, HMax, Hslen.
  rewrite add64_small by lia. ztest. cbn [andb].
  rewrite (bind_Done _ _ _ _ _ _ _ Happ).
  by exists f', w'.
Qed.

(** ** The operating system when nothing fails *)

Lemma lookup_file_Some h d fl w :
  handles w !! h = Some d -> files w !! d = Some fl ->
  os.lookup_file h w = Some (d, fl).
Proof. intros Hh Hd. unfold os.lookup_file. by rewrite Hh, Hd. Qed.

Lemma os_Write_quiet h d fl p w :
  handles w !! h = Some d -> files w !! d = Some fl -> script w = [] ->
  os.Write (Some h) p w =
  ((len p, None),
   set_files (<[d := mkFile (splice (f_data fl) (f_pos fl) p)
                            (f_pos fl + length p) (f_linked fl)]> (files w)) w).
Proof.
  intros Hh Hd Hs. unfold os.Write.
  rewrite (lookup_file_Some _ _ _ _ Hh Hd), (next_outcome_quiet _ Hs). done.
Qed.

Lemma os_ReadAt_quiet h d fl p o w :
  handles w !! h = Some d -> files w !! d = Some fl -> script w = [] ->
  0 <= o -> p <> [] -> o + len p <= MaxInt ->
  os.ReadAt (Some h) p o w =
  let q := take (length p) (drop (Z.to_nat o) (f_data fl)) in
  ((len q, copy_into p q, if len q <? len p then Some EOF else None), w).
Proof.
  intros Hh Hd Hs Ho Hp Hfit. unfold os.ReadAt.
  rewrite (lookup_file_Some _ _ _ _ Hh Hd), (next_outcome_quiet _ Hs).
  assert (len p <> 0) by (rewrite len_nil_iff; done).
  pose proof (len_nonneg p). ztest. done.
Qed.

(** A promotion that meets no failure: a new unlinked file holds what the
    memory region showed, and the memory region is still there. *)
Lemma moveToFile_quiet f w :
  script w = [] ->
  exists h d w',
    moveToFile f w = Done (None, set_file (Some h) f, w') /\
    heap w' = heap w /\ script w' = [] /\
    handles w' !! h = Some d /\
    files w' !! d = Some (mkFile (contents w (buf f))
                                 (length (contents w (buf f))) false).
Proof.
  intros Hs. exists (S (next_id w)), (next_id w).
  unfold moveToFile. mrun.
  unfold os.TempFile. rewrite (next_outcome_quiet _ Hs). cbn beta iota.
  unfold os.Remove. cbn beta iota.
  set (w1 := mkWorld _ _ _ _ _).
  assert (script w1 = []) as Hs1 by done.
  rewrite (next_outcome_quiet _ Hs1).
  rewrite (lookup_file_Some (S (next_id w)) (next_id w) (mkFile [] 0 true) w1);
    [| apply lookup_insert_eq | apply lookup_insert_eq ].
  set (w2 := set_files _ w1).
  assert ((if IgnoreDeleteErr f then None else None) = (None : option error)) as ->
    by (by destruct (IgnoreDeleteErr f)).
  erewrite os_Write_quiet;
    [| apply lookup_insert_eq | apply lookup_insert_eq | done].
  eexists. split; [reflexivity|]. simpl.
  rewrite lookup_insert_eq. repeat split; try done.
  rewrite lookup_insert_eq. simpl.
  change (contents w2 (buf f)) with (contents w (buf f)).
  by rewrite (splice_end []).
Qed.

Lemma next_outcome_frame w o w' :
  next_outcome w = (o, w') ->
  heap w' = heap w /\ files w' = files w /\ handles w' = handles w /\
  next_id w' = next_id w.
Proof.
  unfold next_outcome. destruct (script w); intros [= <- <-]; done.
Qed.

Lemma os_Write_frame fh p w n err w' :
  os.Write fh p w = ((n, err), w') ->
  heap w' = heap w /\ handles w' = handles w.
Proof.
  unfold os.Write. destruct fh as [h|]; [|by intros [= <- <- <-]].
  destruct (os.lookup_file h w) as [[d fl]|]; [|by intros [= <- <- <-]].
  destruct (next_outcome w) as [o w0] eqn:Ho.
  apply next_outcome_frame in Ho as (Hh & _ & Hha & _).
  intros [= <- <- <-]. done.
Qed.

(** Every way [moveToFile] can end.  It always returns; the memory region,
    the cursor and the heap are as before.  When the temporary file cannot be
    created the handle stays nil and no file appears; once it was created the
    handle is set, whether the unlinking and the copy then succeed or not. *)
Lemma moveToFile_outcomes f w :
  file f = None ->
  exists err f' w',
    moveToFile f w = Done (err, f', w') /\
    buf f' = buf f /\ off f' = off f /\ MaxBufSize f' = MaxBufSize f /\
    heap w' = heap w /\
    ((exists e, err = Some (ErrWrap msg_open e) /\ f' = f /\
                files w' = files w /\ handles w' = handles w) \/
     (is_Some (file f') /\
      (err = None \/
       exists e, err = Some (ErrWrap msg_delete e) \/ err = Some (ErrWrap msg_copy e)))).
Proof.
  intros Hnil.
  unfold moveToFile. mrun. unfold os.TempFile.
  destruct (next_outcome w) as [o w0] eqn:Ho.
  apply next_outcome_frame in Ho as (Hh0 & Hf0 & Hha0 & _).
  assert (set_file None f = f) as Hsame by (destruct f; simpl in *; by subst).
  destruct o as [|e|k e]; cbn beta iota.
  2,3: eexists _, _, _; (split; [reflexivity|]); rewrite Hsame;
       repeat split; try done; left; by exists (ErrOS e).
  set (w1 := mkWorld _ _ _ _ _).
  assert (heap w1 = heap w) as Hh1 by done.
  clearbody w1.
  set (h := S (next_id w0)). clearbody h.
  destruct (os.Remove h w1) as [rerr w2] eqn:Hrem.
  assert (heap w2 = heap w) as Hh2.
  { unfold os.Remove in Hrem.
    destruct (next_outcome w1) as [o1 w1'] eqn:Ho1.
    apply next_outcome_frame in Ho1 as (Hh1' & _).
    destruct o1; [destruct (os.lookup_file h w1') as [[d fl]|] |..];
      simplify_eq; simpl; congruence. }
  clear Hrem. cbn beta iota.
  destruct (if IgnoreDeleteErr f then None else rerr) as [e|];
    cbn beta iota.
  - eexists _, _, _. split; [reflexivity|].
    repeat split; try done. right. split; [by eexists|]. eauto.
  - destruct (os.Write (Some h) (contents w2 (buf f)) w2) as [[n werr] w3] eqn:Hwr.
    apply os_Write_frame in Hwr as (Hh3 & _).
    destruct werr as [e|]; eexists _, _, _; (split; [reflexivity|]);
      (repeat split; try done; try congruence); right; (split; [by eexists|]); eauto.
Qed.

(** Above the threshold [Write] promotes: the file receives the memory
    region and then [p]; the memory region is dropped. *)
Lemma Write_promotes T f w data p :
  0 < T <= MaxInt -> in_memory T f w data ->
  T < len data + len p <= MaxInt -> script w = [] ->
  exists f' w',
    Write p f w = Done ((len p, None), f', w') /\
    on_file f' w' (data ++ p) /\
    off f' = off f /\ script w' = [].
Proof.
  intros HT Hm Hover Hs.
  pose proof (in_memory_slen _ _ _ _ Hm) as Hslen.
  pose proof (in_memory_contents _ _ _ _ Hm) as Hcont.
  destruct (moveToFile_quiet f w Hs) as (h & d & w1 & Hmove & Hheap & Hs1 & Hh & Hd).
  destruct Hm as (Hfile & HMax & Hb).
  unfold Write. rewrite (bind_Done _ _ f w f f w) by done.
  rewrite Hfile, HMax, Hslen.
  rewrite add64_small by lia. ztest. cbn [andb].
  rewrite (bind_Done _ _ _ _ _ _ _ Hmove). mrun. cbn [file set_buf set_file].
  rewrite (os_Write_quiet h d _ p w1 Hh Hd Hs1). simpl.
  eexists _, _. split; [reflexivity|].
  split; [|done].
  split; [done|]. exists h, d. eexists. simpl.
  rewrite lookup_insert_eq, Hcont, splice_end, length_app. done.
Qed.

(** Once on file, [Write] appends to the file. *)
Lemma Write_on_file f w data p :
  on_file f w data -> script w = [] ->
  exists w',
    Write p f w = Done ((len p, None), f, w') /\
    on_file f w' (data ++ p) /\ script w' = [].
Proof.
  intros (Hb & h & d & fl & Hf & Hh & Hd & Hdata & Hpos) Hs.
  unfold Write. rewrite (bind_Done _ _ f w f f w) by done.
  rewrite Hf. mrun.
  rewrite (os_Write_quiet h d fl p w Hh Hd Hs).
  eexists. split; [reflexivity|]. split; [|done].
  split; [done|]. exists h, d. eexists. simpl.
  rewrite lookup_insert_eq, Hpos, <- Hdata, splice_end, length_app. done.
Qed.

(** The total a sequence of chunks holds. *)
Lemma write_chunks_in_memory T ps : forall f w data,
  0 < T <= MaxInt -> in_memory T f w data -> len data + len (concat ps) <= T ->
  exists f' w',
    write_chunks ps f w = Done ((len (concat ps), None), f', w') /\
    in_memory T f' w' (data ++ concat ps) /\
    off f' = off f /\ files w' = files w /\ handles w' = handles w /\
    script w' = script w.
Proof.
  induction ps as [|p ps IH]; intros f w data HT Hm Hfit; simpl in *.
  - exists f, w. rewrite app_nil_r. done.
  - rewrite len_app in Hfit.
    pose proof (len_nonneg p). pose proof (len_nonneg (concat ps)).
    destruct (Write_in_memory T f w data p) as (f1 & w1 & Hw & Hm1 & Ho1 & Hf1 & Hh1 & Hs1);
      [done | done | lia |].
    destruct (IH f1 w1 (data ++ p)) as (f2 & w2 & Hw2 & Hm2 & Ho2 & Hf2 & Hh2 & Hs2);
      [done | done | rewrite len_app; lia |].
    exists f2, w2. rewrite (bind_Done _ _ _ _ _ _ _ Hw). cbn beta iota.
    rewrite (bind_Done _ _ _ _ _ _ _ Hw2). unfold ret.
    rewrite len_app. rewrite <- app_assoc in Hm2.
    split; [done|]. split; [exact Hm2|]. repeat split; congruence.
Qed.

Lemma write_chunks_on_file ps : forall f w data,
  on_file f w data -> script w = [] ->
  exists w',
    write_chunks ps f w = Done ((len (concat ps), None), f, w') /\
    on_file f w' (data ++ concat ps) /\ script w' = [].
Proof.
  induction ps as [|p ps IH]; intros f w data Hm Hs; simpl.
  - exists w. rewrite app_nil_r. done.
  - destruct (Write_on_file f w data p Hm Hs) as (w1 & Hw & Hm1 & Hs1).
    destruct (IH f w1 (data ++ p) Hm1 Hs1) as (w2 & Hw2 & Hm2 & Hs2).
    exists w2. rewrite (bind_Done _ _ _ _ _ _ _ Hw). cbn beta iota.
    rewrite (bind_Done _ _ _ _ _ _ _ Hw2). unfold ret.
    rewrite len_app. rewrite <- app_assoc in Hm2. done.
Qed.

Lemma write_chunks_promotes T ps : forall f w data,
  0 < T <= MaxInt -> in_memory T f w data ->
  T < len data + len (concat ps) <= MaxInt -> script w = [] ->
  exists f' w',
    write_chunks ps f w = Done ((len (concat ps), None), f', w') /\
    on_file f' w' (data ++ concat ps) /\
    off f' = off f /\ script w' = [].
Proof.
  induction ps as [|p ps IH]; intros f w data HT Hm Hover Hs; simpl in *.
  - pose proof (in_memory_bound T f w data ltac:(lia) Hm). unfold len in *. simpl in *. lia.
  - rewrite len_app in Hover.
    pose proof (len_nonneg p). pose proof (len_nonneg (concat ps)).
    destruct (Z_le_gt_dec (len data + len p) T) as [Hfit|Hnow].
    + destruct (Write_in_memory T f w data p) as (f1 & w1 & Hw & Hm1 & Ho1 & Hf1 & Hh1 & Hs1);
        [done | done | lia |].
      destruct (IH f1 w1 (data ++ p)) as (f2 & w2 & Hw2 & Hm2 & Ho2 & Hs2);
        [done | done | rewrite len_app; lia | congruence |].
      exists f2, w2. rewrite (bind_Done _ _ _ _ _ _ _ Hw). cbn beta iota.
      rewrite (bind_Done _ _ _ _ _ _ _ Hw2). unfold ret.
      rewrite len_app. rewrite <- app_assoc in Hm2.
      split; [done|]. split; [exact Hm2|]. repeat split; congruence.
    + destruct (Write_promotes T f w data p) as (f1 & w1 & Hw & Hm1 & Ho1 & Hs1);
        [done | done | lia | done |].
      destruct (write_chunks_on_file ps f1 w1 (data ++ p) Hm1 Hs1) as (w2 & Hw2 & Hm2 & Hs2).
      exists f1, w2. rewrite (bind_Done _ _ _ _ _ _ _ Hw). cbn beta iota.
      rewrite (bind_Done _ _ _ _ _ _ _ Hw2). unfold ret.
      rewrite len_app. rewrite <- app_assoc in Hm2. done.
Qed.

(** A [Write] that crosses the threshold and reports no error has promoted,
    whatever the operating system did. *)
Lemma Write_crossing T f w data p n f' w' :
  in_memory T f w data -> 0 < T <= MaxInt -> T < len data + len p <= MaxInt ->
  Write p f w = Done ((n, None), f', w') ->
  is_Some (file f') /\ buf f' = None.
Proof.
  intros Hm HT Hover Hrun.
  pose proof (in_memory_slen _ _ _ _ Hm) as Hslen.
  destruct Hm as (Hnil & HMax & _).
  unfold Write in Hrun. rewrite (bind_Done _ _ f w f f w) in Hrun by done.
  rewrite Hnil, HMax, Hslen in Hrun.
  rewrite add64_small in Hrun by lia. revert Hrun. ztest. cbn [andb]. intros Hrun.
  destruct (moveToFile_outcomes f w Hnil)
    as (e & f1 & w1 & Hmove & Hb & Ho & _ & Hh & Hcases).
  rewrite (bind_Done _ _ _ _ _ _ _ Hmove) in Hrun.
  destruct Hcases as [(e0 & -> & -> & Hf & Hha)|(Hsome & [->|(e0 & [->| ->])])];
    try (unfold ret in Hrun; by simplify_eq).
  revert Hrun. mrun.
  destruct (os.Write _ p w1) as [[n1 e1] w2]. intros [= _ _ <- _]. done.
Qed.

Lemma write_chunks_file_backed ps : forall f w r f' w',
  is_Some (file f) -> write_chunks ps f w = Done (r, f', w') -> f' = f.
Proof.
  induction ps as [|p ps IH]; intros f w r f' w' Hsome Hrun; cbn [write_chunks] in Hrun.
  - unfold ret in Hrun. by simplify_eq.
  - apply bind_inv in Hrun as ([n e] & f1 & w1 & Hw & Hrun).
    assert (f1 = f) as ->.
    { destruct Hsome as [h Hf]. revert Hw. unfold Write. mrun. rewrite Hf. mrun.
      destruct (os.Write _ _ _) as [[n0 e0] w0]. by intros [= <- <- <- <-]. }
    destruct e as [e|]; [unfold ret in Hrun; by simplify_eq|].
    apply bind_inv in Hrun as ([m e'] & f2 & w2 & Hrest & Hret).
    unfold ret in Hret. simplify_eq. by eapply IH.
Qed.

Lemma write_chunks_forced T ps : forall f w data n f' w',
  0 < T <= MaxInt -> in_memory T f w data ->
  T < len data + len (concat ps) <= MaxInt ->
  write_chunks ps f w = Done ((n, None), f', w') ->
  is_Some (file f') /\ buf f' = None.
Proof.
  induction ps as [|p ps IH]; intros f w data n f' w' HT Hm Hover Hrun; simpl in *.
  - pose proof (in_memory_bound T f w data ltac:(lia) Hm).
    change (len []) with 0 in Hover. lia.
  - rewrite len_app in Hover.
    pose proof (len_nonneg p). pose proof (len_nonneg (concat ps)).
    destruct (Z_le_gt_dec (len data + len p) T) as [Hfit|Hnow].
    + destruct (Write_in_memory T f w data p) as (f1 & w1 & Hw & Hm1 & _);
        [done | done | lia |].
      rewrite (bind_Done _ _ _ _ _ _ _ Hw) in Hrun. cbn beta iota in Hrun.
      apply bind_inv in Hrun as ([m e'] & f2 & w2 & Hrest & Hret).
      unfold ret in Hret. simplify_eq.
      eapply (IH f1 w1 (data ++ p)); [done | done | rewrite len_app; lia | exact Hrest].
    + apply bind_inv in Hrun as ([n1 e1] & f1 & w1 & Hw & Hrun).
      destruct e1 as [e1|]; [unfold ret in Hrun; by simplify_eq|].
      apply bind_inv in Hrun as ([m e'] & f2 & w2 & Hrest & Hret).
      unfold ret in Hret. simplify_eq.
      destruct (Write_crossing T f w data p n1 f1 w1 Hm HT ltac:(lia) Hw) as [Hsome Hnil].
      pose proof (write_chunks_file_backed _ _ _ _ _ _ Hsome Hrest) as ->. done.
Qed.

(** C2. Threshold boundary: with a positive threshold [T], chunks that add up
    to exactly [T] bytes stay in memory and touch no file or handle, whatever
    the operating system would answer; chunks that add up to [T + 1] bytes
    end on a temporary file, the memory region dropped, when the operating
    system does not fail; and however it behaves, if those writes report no
    error the buffer is file-backed. *)
Theorem Write_threshold_boundary T ps qs w1 w2 :
  0 < T < MaxInt ->
  len (concat ps) = T -> len (concat qs) = T + 1 -> script w2 = [] ->
  (exists f' w',
     write_chunks ps (New T) w1 = Done ((T, None), f', w') /\
     in_memory T f' w' (concat ps) /\
     files w' = files w1 /\ handles w' = handles w1) /\
  (exists f' w',
     write_chunks qs (New T) w2 = Done ((T + 1, None), f', w') /\
     on_file f' w' (concat qs)) /\
  (forall w n f' w',
     write_chunks qs (New T) w = Done ((n, None), f', w') ->
     is_Some (file f') /\ buf f' = None).
Proof.
  intros HT Hps Hqs Hs. split; [|split].
  - destruct (write_chunks_in_memory T ps (New T) w1 [] ltac:(lia) (in_memory_New T w1))
      as (f' & w' & Hrun & Hm & _ & Hf & Hh & _); [change (len []) with 0; lia|].
    exists f', w'. rewrite Hps in Hrun. done.
  - destruct (write_chunks_promotes T qs (New T) w2 [] ltac:(lia) (in_memory_New T w2))
      as (f' & w' & Hrun & Hm & _); [change (len []) with 0; unfold MaxInt in *; lia | done |].
    exists f', w'. rewrite Hqs in Hrun. done.
  - intros w n f' w' Hrun.
    eapply (write_chunks_forced T qs (New T) w []);
      [lia | apply in_memory_New | change (len []) with 0; unfold MaxInt in *; lia
      | exact Hrun].
Qed.

Lemma Write_threshold_boundary_witness :
  (exists f' w',
     write_chunks [[Byte.x01]; [Byte.x02]] (New 2) empty_world = Done ((2, None), f', w') /\
     in_memory 2 f' w' [Byte.x01; Byte.x02] /\
     files w' = files empty_world /\ handles w' = handles empty_world) /\
  (exists f' w',
     write_chunks [[Byte.x01]; [Byte.x02; Byte.x03]] (New 2) empty_world
     = Done ((2 + 1, None), f', w') /\
     on_file f' w' [Byte.x01; Byte.x02; Byte.x03]) /\
  (forall w n f' w',
     write_chunks [[Byte.x01]; [Byte.x02; Byte.x03]] (New 2) w
     = Done ((n, None), f', w') ->
     is_Some (file f') /\ buf f' = None).
Proof.
  apply (Write_threshold_boundary 2 [[Byte.x01]; [Byte.x02]]
           [[Byte.x01]; [Byte.x02; Byte.x03]] empty_world empty_world);
    [unfold MaxInt; lia | reflexivity | reflexivity | reflexivity].
Defined.

(** ** Reading *)

Lemma valid_slice_length w s :
  valid_slice w s -> len (contents w s) = slen s.
Proof.
  unfold valid_slice, contents, slen, len. destruct s as [s|]; [|done].
  intros (arr & -> & Hc & Hl). simpl. rewrite length_take, length_drop. lia.
Qed.

Lemma in_memory_backing T f w data :
  0 <= T -> in_memory T f w data -> backing f w data.
Proof.
  intros HT Hm. pose proof (in_memory_contents _ _ _ _ Hm) as Hc.
  pose proof (in_memory_bound _ _ _ _ HT Hm) as Hle.
  destruct Hm as (Hfile & _ & Hb). unfold backing. rewrite Hfile.
  split; [|done]. unfold valid_slice. destruct (buf f) as [s|]; [|done].
  destruct Hb as (Ho & Hl & Hcap & arr & Ha & Hlen & _).
  exists arr. unfold len in Hle. split; [done|]. lia.
Qed.

Lemma on_file_backing f w data : on_file f w data -> backing f w data.
Proof.
  intros (_ & h & d & fl & Hf & Hh & Hd & Hdata & _).
  unfold backing. rewrite Hf. by exists d, fl.
Qed.

(** [Read] at or past the end of a memory-backed buffer. *)
Lemma Read_memory_end f w p :
  file f = None -> slen (buf f) <= off f ->
  Read p f w = Done ((0, p, Some EOF), f, w).
Proof.
  intros Hf Hend. unfold Read. rewrite (bind_Done _ _ f w f f w) by done.
  rewrite Hf. ztest. done.
Qed.

(** [Read] before the end of a memory-backed buffer. *)
Lemma Read_memory f w p :
  file f = None -> valid_slice w (buf f) ->
  0 <= off f < slen (buf f) -> off f + len p <= MaxInt ->
  let q := take (length p) (drop (Z.to_nat (off f)) (contents w (buf f))) in
  Read p f w = Done ((len q, copy_into p q, None), set_off (off f + len q) f, w).
Proof.
  intros Hf Hv Hoff Hfit q.
  unfold Read. rewrite (bind_Done _ _ f w f f w) by done.
  rewrite Hf. ztest.
  destruct (buf f) as [s|] eqn:Hb; [|simpl in Hoff; lia].
  pose proof (valid_slice_length w (Some s) Hv) as Hcl.
  destruct Hv as (arr & Ha & Hcap & Hlen).
  simpl in Hoff. change (slen (Some s)) with (Z.of_nat (s_len s)) in Hcl.
  assert (len q = Z.min (len p) (Z.of_nat (s_len s) - off f)) as Hq.
  { subst q. unfold len in *. rewrite length_take, length_drop. lia. }
  unfold copyBuffer. mrun. rewrite Hb.
  pose proof (len_nonneg p) as Hp.
  rewrite add64_small by (unfold MaxInt in *; lia).
  set (e := if slen (Some s) <? off f + len p then slen (Some s) else off f + len p).
  assert (e = off f + len q) as He.
  { subst e. rewrite Hq. simpl.
    destruct (Z.ltb_spec (Z.of_nat (s_len s)) (off f + len p)); lia. }
  rewrite He. unfold subslice. simpl scap.
  assert (0 <= len q) by apply len_nonneg.
  ztest. cbn [andb]. cbn beta iota.
  rewrite sub64_small by (unfold MaxInt in *; lia).
  replace (off f + len q - off f) with (len q) by lia.
  rewrite add64_small by (unfold MaxInt in *; lia).
  do 4 f_equal.
  assert (Z.to_nat (len q) = (length p `min` (s_len s - Z.to_nat (off f)))%nat) as Hn
    by (unfold len in *; lia).
  unfold contents in *. simpl. rewrite Ha in *. simpl in *. rewrite Hn. subst q.
  rewrite skipn_firstn_comm, take_take, drop_drop. by rewrite Ha.
Qed.

(** [Read] from a file-backed buffer, when the file can be read. *)
Lemma Read_file f w p h d fl :
  file f = Some h -> handles w !! h = Some d -> files w !! d = Some fl ->
  script w = [] -> 0 <= off f -> p <> [] ->
  off f + len p <= MaxInt ->
  let q := take (length p) (drop (Z.to_nat (off f)) (f_data fl)) in
  Read p f w =
  Done ((len q, copy_into p q, if len q <? len p then Some EOF else None),
        set_off (off f + len q) f, w).
Proof.
  intros Hf Hh Hd Hs Hoff Hp Hfit q.
  unfold Read. rewrite (bind_Done _ _ f w f f w) by done.
  rewrite Hf. mrun.
  rewrite (os_ReadAt_quiet h d fl p (off f) w) by done.
  cbn zeta. fold q. cbn beta iota.
  assert (0 <= len q <= len p).
  { subst q. unfold len. rewrite length_take. lia. }
  rewrite add64_small by (unfold MaxInt in *; lia). done.
Qed.

Lemma take_drop_length (n : nat) (X : list byte) :
  take n X ++ drop (length (take n X)) X = X.
Proof.
  rewrite length_take. destruct (le_lt_dec n (length X)).
  - replace (n `min` length X)%nat with n by lia. apply take_drop.
  - replace (n `min` length X)%nat with (length X) by lia.
    rewrite take_ge by lia. rewrite drop_all. apply app_nil_r.
Qed.

(** [Rewind] only moves the cursor and the file's offset. *)
Lemma Rewind_quiet f w data :
  backing f w data -> script w = [] ->
  exists w',
    Rewind f w = Done (None, set_off 0 f, w') /\
    backing (set_off 0 f) w' data /\ script w' = [].
Proof.
  intros Hb Hs. unfold Rewind. mrun. unfold backing in *. cbn [file set_off].
  destruct (file f) as [h|] eqn:Hf.
  - destruct Hb as (d & fl & Hh & Hd & Hdata). unfold os.Seek.
    rewrite (lookup_file_Some _ _ _ _ Hh Hd). ztest.
    rewrite (next_outcome_quiet _ Hs). cbn.
    eexists. split; [reflexivity|]. split; [|done].
    exists d. eexists. cbn. rewrite lookup_insert_eq. done.
  - exists w. done.
Qed.

(** Reading until end of stream collects everything from the cursor on. *)
Lemma read_all_drains (size : nat) (data : list byte) :
  (0 < size)%nat -> len data + Z.of_nat size <= MaxInt ->
  forall fuel f w acc,
    backing f w data -> script w = [] -> 0 <= off f <= len data ->
    (length data - Z.to_nat (off f) < fuel)%nat ->
    exists f',
      read_all fuel size acc f w =
      Done ((acc ++ drop (Z.to_nat (off f)) data, None), f', w).
Proof.
  intros Hsize Hfit. induction fuel as [|fuel IH]; intros f w acc Hb Hs Hoff Hfuel; [lia|].
  set (p := replicate size Byte.x00).
  assert (length p = size) as Hlp by apply length_replicate.
  assert (len p = Z.of_nat size) as Hlenp by (unfold len; by rewrite Hlp).
  assert (p <> []) as Hpne by (intros E; rewrite E in Hlp; simpl in Hlp; lia).
  set (q := take (length p) (drop (Z.to_nat (off f)) data)).
  assert (length q = (size `min` (length data - Z.to_nat (off f)))%nat) as Hlq.
  { subst q. rewrite length_take, length_drop. lia. }
  assert (take (Z.to_nat (len q)) (copy_into p q) = q) as Htake.
  { unfold len. rewrite Nat2Z.id. apply copy_into_take. lia. }
  assert (q ++ drop (Z.to_nat (off f + len q)) data = drop (Z.to_nat (off f)) data) as Hsplit.
  { replace (Z.to_nat (off f + len q)) with (Z.to_nat (off f) + length q)%nat
      by (unfold len; lia).
    rewrite <- drop_drop. subst q. rewrite Hlp. apply take_drop_length. }
  cbn [read_all]. fold p. unfold backing in Hb. unfold len in Hoff, Hfit.
  destruct (file f) as [h|] eqn:Hf.
  - destruct Hb as (d & fl & Hh & Hd & Hdata).
    rewrite (bind_Done _ _ _ _ _ _ _
      (Read_file f w p h d fl Hf Hh Hd Hs ltac:(lia) Hpne ltac:(lia))).
    rewrite Hdata. fold q. cbn beta iota. rewrite Htake.
    destruct (Z.ltb_spec (len q) (len p)) as [Hshort|Hfull].
    + eexists. unfold ret. do 3 f_equal.
      subst q. rewrite take_ge; [done|]. rewrite length_drop.
      unfold len in Hshort. rewrite Hlq, Hlp in Hshort. lia.
    + destruct (IH (set_off (off f + len q) f) w (acc ++ q)) as (f' & Hrun).
      * unfold backing. cbn [file set_off]. rewrite Hf. by exists d, fl.
      * done.
      * cbn [off set_off]. unfold len in *. lia.
      * cbn [off set_off]. unfold len in *. lia.
      * exists f'. rewrite Hrun. cbn [off set_off].
        by rewrite <- app_assoc, Hsplit.
  - destruct Hb as (Hv & Hdata).
    pose proof (valid_slice_length _ _ Hv) as Hsl. rewrite Hdata in Hsl.
    unfold len in Hsl.
    destruct (Z_lt_ge_dec (off f) (slen (buf f))) as [Hin|Hend].
    + rewrite (bind_Done _ _ _ _ _ _ _
        (Read_memory f w p Hf Hv ltac:(lia) ltac:(lia))).
      rewrite Hdata. fold q. cbn beta iota. rewrite Htake.
      destruct (IH (set_off (off f + len q) f) w (acc ++ q)) as (f' & Hrun).
      * unfold backing. cbn [file set_off buf]. rewrite Hf. done.
      * done.
      * cbn [off set_off]. unfold len in *. lia.
      * cbn [off set_off]. unfold len in *. lia.
      * exists f'. rewrite Hrun. cbn [off set_off].
        by rewrite <- app_assoc, Hsplit.
    + rewrite (bind_Done _ _ _ _ _ _ _ (Read_memory_end f w p Hf ltac:(lia))).
      cbn beta iota. exists f. unfold ret. do 3 f_equal.
      rewrite drop_ge by lia. simpl. by rewrite take_0.
Qed.

(** ** Round trip *)

(** What the chunks leave behind, whichever side of the threshold. *)
Lemma write_chunks_backing T ps w :
  0 < T <= MaxInt -> len (concat ps) <= MaxInt -> script w = [] ->
  exists f' w',
    write_chunks ps (New T) w = Done ((len (concat ps), None), f', w') /\
    backing f' w' (concat ps) /\ off f' = 0 /\ script w' = [].
Proof.
  intros HT Hlen Hs.
  destruct (Z_le_gt_dec (len (concat ps)) T) as [Hfit|Hover].
  - destruct (write_chunks_in_memory T ps (New T) w [] HT (in_memory_New T w))
      as (f' & w' & Hrun & Hm & Ho & _ & _ & Hs'); [change (len []) with 0; lia|].
    exists f', w'. split; [done|]. split; [|split; [done | congruence]].
    apply (in_memory_backing T); [lia | done].
  - destruct (write_chunks_promotes T ps (New T) w [] HT (in_memory_New T w))
      as (f' & w' & Hrun & Hm & Ho & Hs'); [change (len []) with 0; lia | done |].
    exists f', w'. split; [done|]. split; [|done].
    by apply on_file_backing.
Qed.

(** Round trip for a positive threshold: what was written in chunks is read
    back after [Rewind], byte for byte, with the same count. *)
Theorem roundtrip_positive_threshold T ps fuel size w :
  0 < T <= MaxInt -> script w = [] -> (0 < size)%nat ->
  len (concat ps) + Z.of_nat size <= MaxInt ->
  (length (concat ps) < fuel)%nat ->
  value (roundtrip ps fuel size (New T) w)
  = Done (len (concat ps), concat ps, None).
Proof.
  intros HT Hs Hsize Hfit Hfuel.
  destruct (write_chunks_backing T ps w HT ltac:(lia) Hs)
    as (f1 & w1 & Hw & Hb1 & Ho1 & Hs1).
  destruct (Rewind_quiet f1 w1 _ Hb1 Hs1) as (w2 & Hr & Hb2 & Hs2).
  destruct (read_all_drains size (concat ps) Hsize Hfit fuel (set_off 0 f1) w2 [] Hb2 Hs2)
    as (f3 & Hread).
  { cbn [off set_off]. pose proof (len_nonneg (concat ps)). lia. }
  { cbn [off set_off]. simpl. lia. }
  unfold roundtrip.
  rewrite (bind_Done _ _ _ _ _ _ _ Hw). cbn beta iota.
  rewrite (bind_Done _ _ _ _ _ _ _ Hr). cbn beta iota.
  rewrite (bind_Done _ _ _ _ _ _ _ Hread). done.
Qed.

Lemma roundtrip_positive_threshold_witness :
  value (roundtrip [[Byte.x01; Byte.x02]; [Byte.x03]; [Byte.x04; Byte.x05]]
                   6 2 (New 4) empty_world)
  = Done (5, [Byte.x01; Byte.x02; Byte.x03; Byte.x04; Byte.x05], None).
Proof.
  refine (roundtrip_positive_threshold 4
            [[Byte.x01; Byte.x02]; [Byte.x03]; [Byte.x04; Byte.x05]]
            6 2 empty_world _ _ _ _ _);
    [unfold MaxInt; lia | reflexivity | lia | unfold len, MaxInt; simpl; lia | simpl; lia].
Defined.

(** C1. Round trip.  With threshold zero, which the package documents as
    memory only, the first non-empty [Write] of a new buffer panics: nothing
    is stored and nothing can be read back.  (For every positive threshold
    the round trip holds: [roundtrip_positive_threshold].) *)
Theorem roundtrip_zero_threshold p ps fuel size w :
  p <> [] -> len p <= MaxInt ->
  roundtrip (p :: ps) fuel size (New 0) w = Panics "slice bounds out of range".
Proof.
  intros Hp Hlen. unfold roundtrip. apply bind_Panics.
  cbn [write_chunks]. apply bind_Panics.
  by apply Write_zero_threshold_nonempty.
Qed.

Lemma roundtrip_zero_threshold_witness :
  roundtrip [[Byte.x01]] 2 1 (New 0) empty_world = Panics "slice bounds out of range".
Proof.
  apply (roundtrip_zero_threshold [Byte.x01] [] 2 1 empty_world);
    [discriminate | unfold len, MaxInt; simpl; lia].
Defined.

(** C3. Zero threshold.  On a new buffer with threshold zero, [Write] of any
    non-empty input does not append and does not return: [appendBuffer]
    allocates a region of capacity zero and reslices it past that capacity,
    which panics. *)
Theorem Write_zero_threshold p w :
  p <> [] -> len p <= MaxInt ->
  Write p (New 0) w = Panics "slice bounds out of range" /\
  (forall r, Write p (New 0) w <> Done r).
Proof.
  intros Hp Hlen. rewrite (Write_zero_threshold_nonempty p w Hp Hlen).
  split; [done | discriminate].
Qed.

Lemma Write_zero_threshold_witness :
  Write [Byte.x01] (New 0) empty_world = Panics "slice bounds out of range" /\
  (forall r, Write [Byte.x01] (New 0) empty_world <> Done r).
Proof.
  apply (Write_zero_threshold [Byte.x01] empty_world);
    [discriminate | unfold len, MaxInt; simpl; lia].
Defined.

(** ** The cursor *)

Lemma set_off_same f : set_off (off f) f = f.
Proof. by destruct f. Qed.

Lemma set_off_set_off a b f : set_off a (set_off b f) = set_off a f.
Proof. done. Qed.

(** [Read] changes nothing of the buffer but the cursor. *)
Lemma Read_moves_cursor_only p f w r f' w' :
  Read p f w = Done (r, f', w') -> f' = set_off (off f') f.
Proof.
  unfold Read. mrun. destruct (file f) as [h|].
  - destruct (os.ReadAt (Some h) p (off f) w) as [[[n p'] err] w1].
    intros [= <- <- <-]. done.
  - destruct (slen (buf f) <=? off f).
    + intros [= <- <- <-]. by destruct f.
    + unfold copyBuffer. mrun.
      destruct (subslice _ _ _) as [src| |]; [|done..].
      intros [= <- <- <-]. done.
Qed.

(** [ReadAt] is [Read] with the cursor moved to [pos] and put back. *)
Lemma ReadAt_unfold p pos f w :
  ReadAt p pos f w =
    match Read p (set_off pos f) w with
    | Done (r, _, w') => Done (r, f, w')
    | Panics why => Panics why
    | OutOfFuel => OutOfFuel
    end.
Proof.
  unfold ReadAt. mrun. cbn [off set_off].
  destruct (Read p (set_off pos f) w) as [[[r f'] w']| |] eqn:E; [|done..].
  apply Read_moves_cursor_only in E. rewrite E.
  rewrite !set_off_set_off. by rewrite set_off_same.
Qed.

(** C7. [ReadAt] returns what [Read] returns with the cursor at [pos], and
    leaves the buffer, the cursor included, as it was before the call. *)
Theorem ReadAt_frame p pos f w :
  ReadAt p pos f w =
    match Read p (set_off pos f) w with
    | Done (r, _, w') => Done (r, f, w')
    | Panics why => Panics why
    | OutOfFuel => OutOfFuel
    end
  /\ (forall r f' w', ReadAt p pos f w = Done (r, f', w') -> off f' = off f).
Proof.
  assert (ReadAt p pos f w =
    match Read p (set_off pos f) w with
    | Done (r, _, w') => Done (r, f, w')
    | Panics why => Panics why
    | OutOfFuel => OutOfFuel
    end) as Heq.
  { unfold ReadAt. mrun. cbn [off set_off].
    destruct (Read p (set_off pos f) w) as [[[r f'] w']| |] eqn:E; [|done..].
    apply Read_moves_cursor_only in E. rewrite E.
    rewrite !set_off_set_off. by rewrite set_off_same. }
  split; [exact Heq|].
  intros r f' w'. rewrite Heq.
  destruct (Read p (set_off pos f) w) as [[[r0 f0] w0]| |]; [|done..].
  by intros [= _ <- _].
Qed.

(** ** End of stream *)

Lemma copy_into_nil (p : list byte) : copy_into p [] = p.
Proof. unfold copy_into. by rewrite take_nil. Qed.

(** C6, as the code has it.  [Read] returns the bytes between the cursor and
    the end that fit in [p] and advances the cursor by their number.  A
    memory-backed buffer reports end of stream exactly when the cursor is at
    or beyond the end, and then copies nothing; with at least one byte copied
    it reports neither end of stream nor an error.  A file-backed buffer
    passes on the answer of the positioned read: end of stream exactly when
    fewer bytes were left than [p] can take, also when some were copied. *)
Theorem Read_end_of_stream f w p data :
  backing f w data -> script w = [] -> 0 <= off f -> off f + len p <= MaxInt ->
  let q := take (length p) (drop (Z.to_nat (off f)) data) in
  let err := match file f with
             | None => if len data <=? off f then Some EOF else None
             | Some _ => if len q <? len p then Some EOF else None
             end in
  Read p f w = Done ((len q, copy_into p q, err), set_off (off f + len q) f, w)
  /\ (file f = None ->
      (err = Some EOF <-> len data <= off f) /\
      (err = Some EOF -> len q = 0) /\
      (0 < len q -> err = None))
  /\ (is_Some (file f) ->
      (err = Some EOF <-> Z.max 0 (len data - off f) < len p)).
Proof.
  intros Hb Hs Hoff Hfit q err.
  assert (len q = Z.min (len p) (Z.max 0 (len data - off f))) as Hq.
  { subst q. unfold len. rewrite length_take, length_drop. lia. }
  pose proof (len_nonneg p) as Hp. pose proof (len_nonneg data) as Hd.
  pose proof (len_nonneg q) as Hq0.
  assert (len q <= len p /\ (len q < len p <-> Z.max 0 (len data - off f) < len p)
          /\ (len data <= off f -> len q = 0) /\ (0 < len q -> off f < len data))
    as (Hq1 & Hq2 & Hq3 & Hq4).
  { clearbody q. remember (off f) as o. clear -Hq Hoff Hp Hd Hq0.
    generalize dependent (len q). generalize dependent (len p).
    generalize dependent (len data). intros. lia. }
  unfold backing in Hb. subst err.
  destruct (file f) as [h|] eqn:Hf.
  - destruct Hb as (d & fl & Hh & Hd' & Hdata).
    split; [|split; [done|]].
    + destruct (decide (p = [])) as [->|Hne].
      * unfold Read. mrun. rewrite Hf. unfold os.ReadAt.
        rewrite (lookup_file_Some _ _ _ _ Hh Hd'). ztest.
        change (len []) with 0. simpl. subst q. simpl.
        change (len []) with 0. rewrite add64_small by (unfold MaxInt in *; lia).
        done.
      * rewrite (Read_file f w p h d fl Hf Hh Hd' Hs Hoff Hne Hfit).
        rewrite Hdata. done.
    + intros _. clearbody q.
      destruct (Z.ltb_spec (len q) (len p)); split; intros; try done; try lia; exfalso; lia.
  - destruct Hb as (Hv & Hdata).
    pose proof (valid_slice_length _ _ Hv) as Hsl. rewrite Hdata in Hsl.
    split; [|split; [|intros [? [=]]]].
    + destruct (Z.leb_spec (len data) (off f)) as [Hend|Hin].
      * rewrite (Read_memory_end f w p Hf) by lia.
        assert (q = []) as -> by (apply len_nil_iff; lia).
        rewrite copy_into_nil. change (len []) with 0.
        by rewrite Z.add_0_r, set_off_same.
      * rewrite (Read_memory f w p Hf Hv) by lia. by rewrite Hdata.
    + intros _. clearbody q.
      destruct (Z.leb_spec (len data) (off f)); repeat split; intros; try done; try lia; exfalso; lia.
Qed.

Lemma Read_end_of_stream_witness :
  Read [Byte.x00; Byte.x00] (set_off 1 (New 4)) empty_world
  = Done ((0, [Byte.x00; Byte.x00], Some EOF), set_off 1 (New 4), empty_world).
Proof.
  apply (Read_end_of_stream (set_off 1 (New 4)) empty_world [Byte.x00; Byte.x00] []);
    [unfold backing; simpl; auto | reflexivity | simpl; lia
    | unfold len, MaxInt; simpl; lia].
Defined.

(** C6 as stated fails on a file-backed buffer: two bytes are on file, [Read]
    into four bytes copies both and reports end of stream with them. *)
Lemma Read_eof_with_data :
  value ((let* _ := Write [Byte.x01; Byte.x02] in
          Read [Byte.x00; Byte.x00; Byte.x00; Byte.x00]) (New 1) empty_world)
  = Done (2, [Byte.x01; Byte.x02; Byte.x00; Byte.x00], Some EOF).
Proof. reflexivity. Qed.

(** ** Promotion, failures included *)

Lemma os_Write_error fh p w n e w' :
  os.Write fh p w = ((n, Some e), w') -> forall msg e', e <> ErrWrap msg e'.
Proof.
  unfold os.Write. destruct fh as [h|]; [|by intros [= <- <- <-]].
  destruct (os.lookup_file h w) as [[d fl]|]; [|by intros [= <- <- <-]].
  destruct (next_outcome w) as [o w0]. destruct o; by intros [= <- <- <-].
Qed.

Lemma in_memory_heap T f w w' data :
  heap w' = heap w -> in_memory T f w data -> in_memory T f w' data.
Proof. unfold in_memory. by intros ->. Qed.

Lemma contents_heap w w' s : heap w' = heap w -> contents w' s = contents w s.
Proof. unfold contents. by intros ->. Qed.

Lemma appendBuffer_file p f w r :
  appendBuffer p f w = Done r -> file (snd (fst r)) = file f.
Proof.
  unfold appendBuffer, make. mrun. intros H.
  repeat (case_match; simplify_eq; try done).
Qed.

(** Whenever a [Write] on a memory-backed buffer returns an error of the
    promotion, the count is 0 and the memory region, its contents and the
    cursor are as they were.  If the temporary file could not be created, the
    whole buffer and the files are unchanged; if unlinking or copying failed,
    the file handle is already set. *)
Lemma Write_promotion_error T f w data p n msg e f' w' :
  in_memory T f w data ->
  Write p f w = Done ((n, Some (ErrWrap msg e)), f', w') ->
  n = 0 /\ buf f' = buf f /\ off f' = off f /\ contents w' (buf f') = data /\
  ((msg = msg_open /\ f' = f /\ in_memory T f' w' data /\
    files w' = files w /\ handles w' = handles w) \/
   ((msg = msg_delete \/ msg = msg_copy) /\ is_Some (file f'))).
Proof.
  intros Hm Hrun.
  pose proof (in_memory_contents _ _ _ _ Hm) as Hc.
  assert (file f = None) as Hnil by apply Hm.
  unfold Write in Hrun. rewrite (bind_Done _ _ f w f f w) in Hrun by done.
  rewrite Hnil in Hrun.
  destruct ((0 <? MaxBufSize f) && _).
  - destruct (moveToFile_outcomes f w Hnil)
      as (err & f1 & w1 & Hmove & Hb & Ho & _ & Hh & Hcases).
    rewrite (bind_Done _ _ _ _ _ _ _ Hmove) in Hrun.
    destruct Hcases as [(e0 & -> & -> & Hf & Hha)|(Hsome & [->|(e0 & [->| ->])])].
    + unfold ret in Hrun. injection Hrun as <- <- <- <- <-.
      rewrite (contents_heap _ _ _ Hh).
      split; [done|]. split; [done|]. split; [done|]. split; [done|].
      left. split; [done|]. split; [done|].
      split; [by apply (in_memory_heap T f w)|done].
    + mrun. revert Hrun. mrun.
      destruct (os.Write _ p w1) as [[n1 [e1|]] w2] eqn:Hwr; intros Hrun; [|done].
      simplify_eq. by destruct (os_Write_error _ _ _ _ _ _ Hwr msg e).
    + unfold ret in Hrun. injection Hrun as <- <- <- <- <-.
      rewrite Hb, (contents_heap _ _ _ Hh). repeat split; eauto.
    + unfold ret in Hrun. injection Hrun as <- <- <- <- <-.
      rewrite Hb, (contents_heap _ _ _ Hh). repeat split; eauto.
  - revert Hrun. mrun. destruct (appendBuffer p f w) as [[[u f1] w1]| |]; done.
Qed.

(** A [Write] that has to promote, under an operating system that makes the
    promotion fail, returns count 0 and the error of the failing call wrapped
    under the name of its phase. *)
Lemma Write_promotion_fails T f w data p ph e :
  0 < T <= MaxInt -> in_memory T f w data -> T < len data + len p <= MaxInt ->
  promotion_fails f w ph e ->
  exists f' w',
    Write p f w = Done ((0, Some (ErrWrap (phase_msg ph) (ErrOS e))), f', w').
Proof.
  intros HT Hm Hover Hfail.
  pose proof (in_memory_slen _ _ _ _ Hm) as Hslen.
  destruct Hm as (Hfile & HMax & Hb).
  unfold Write. mrun. rewrite Hfile, HMax, Hslen.
  rewrite add64_small by lia. ztest. cbn [andb].
  unfold moveToFile. mrun. unfold os.TempFile.
  destruct Hfail as [o rest e Hs Ho | o rest e Hs Ho Hign | o1 o2 rest e Hs H1 Ho].
  - rewrite (next_outcome_cons w o rest Hs).
    destruct o as [|e0|k e0]; cbn in Ho; simplify_eq; cbn beta iota;
      eexists _, _; reflexivity.
  - rewrite (next_outcome_cons w Succeeds (o :: rest) Hs). cbn beta iota.
    unfold os.Remove.
    match goal with
    | |- context [next_outcome ?w1] =>
        rewrite (next_outcome_cons w1 o rest) by reflexivity
    end.
    destruct o as [|e0|k e0]; cbn in Ho; simplify_eq; cbn beta iota;
      rewrite Hign; cbn beta iota; eexists _, _; reflexivity.
  - rewrite (next_outcome_cons w Succeeds (o1 :: o2 :: rest) Hs). cbn beta iota.
    unfold os.Remove.
    match goal with
    | |- context [next_outcome ?w1] =>
        rewrite (next_outcome_cons w1 o1 (o2 :: rest)) by reflexivity
    end.
    destruct o1 as [|e1|k1 e1].
    + cbn beta iota.
      erewrite lookup_file_Some; [| cbn; apply lookup_insert_eq | cbn; apply lookup_insert_eq].
      cbn beta iota.
      assert ((if IgnoreDeleteErr f then None else None) = (None : option error)) as ->
        by (by destruct (IgnoreDeleteErr f)).
      cbn beta iota. unfold os.Write.
      erewrite lookup_file_Some; [| cbn; apply lookup_insert_eq | cbn; apply lookup_insert_eq].
      match goal with
      | |- context [next_outcome ?w1] =>
          rewrite (next_outcome_cons w1 o2 rest) by reflexivity
      end.
      destruct o2 as [|e0|k e0]; cbn in Ho; simplify_eq; cbn beta iota;
        eexists _, _; reflexivity.
    + destruct H1 as [H1|Hign]; [done|]. cbn beta iota. rewrite Hign. cbn beta iota.
      unfold os.Write.
      erewrite lookup_file_Some; [| cbn; apply lookup_insert_eq | cbn; apply lookup_insert_eq].
      match goal with
      | |- context [next_outcome ?w1] =>
          rewrite (next_outcome_cons w1 o2 rest) by reflexivity
      end.
      destruct o2 as [|e0|k e0]; cbn in Ho; simplify_eq; cbn beta iota;
        eexists _, _; reflexivity.
    + destruct H1 as [H1|Hign]; [done|]. cbn beta iota. rewrite Hign. cbn beta iota.
      unfold os.Write.
      erewrite lookup_file_Some; [| cbn; apply lookup_insert_eq | cbn; apply lookup_insert_eq].
      match goal with
      | |- context [next_outcome ?w1] =>
          rewrite (next_outcome_cons w1 o2 rest) by reflexivity
      end.
      destruct o2 as [|e0|k e0]; cbn in Ho; simplify_eq; cbn beta iota;
        eexists _, _; reflexivity.
Qed.

(** C4, as the code has it.  When the promotion that a [Write] on a
    memory-backed buffer triggers fails, in the creation of the temporary
    file, in its unlinking or in the copy, the [Write] returns count 0 and
    the error of the failing call wrapped under the name of the phase, and
    the memory region, its contents and the cursor are as they were.  If the
    temporary file could not be created, the whole buffer is unchanged, still
    memory-backed, and so are the files and handles; if the unlinking or the
    copy failed, the file handle is already set, with the data still in the
    memory region. *)
Theorem Write_failed_promotion T f w data p ph e :
  0 < T <= MaxInt -> in_memory T f w data -> T < len data + len p <= MaxInt ->
  promotion_fails f w ph e ->
  exists f' w',
    Write p f w = Done ((0, Some (ErrWrap (phase_msg ph) (ErrOS e))), f', w') /\
    buf f' = buf f /\ off f' = off f /\ contents w' (buf f') = data /\
    match ph with
    | Creating => f' = f /\ in_memory T f' w' data /\
                  files w' = files w /\ handles w' = handles w
    | Unlinking | Copying => is_Some (file f')
    end.
Proof.
  intros HT Hm Hover Hfail.
  destruct (Write_promotion_fails T f w data p ph e HT Hm Hover Hfail)
    as (f' & w' & Hrun).
  exists f', w'. split; [exact Hrun|].
  destruct (Write_promotion_error T f w data p 0 _ _ f' w' Hm Hrun)
    as (_ & Hb & Ho & Hc & Hcases).
  do 3 (split; [done|]).
  destruct ph; destruct Hcases as [(Hmsg & Hrest)|([Hmsg|Hmsg] & Hsome)];
    try done; try discriminate Hmsg.
Qed.

Lemma Write_failed_promotion_witness :
  let f0 := mkFilebuf 2 false EmptyString EmptyString
                      (Some (mkSlice 5 0 2 2)) None 1 in
  let w0 := mkWorld {[ 5%nat := [Byte.x01; Byte.x02] ]} ∅ ∅ 6
                    [Succeeds; Succeeds; Partial 1 5] in
  exists f' w',
    Write [Byte.x03] f0 w0 = Done ((0, Some (ErrWrap msg_copy (ErrOS 5))), f', w') /\
    buf f' = buf f0 /\ off f' = off f0 /\
    contents w' (buf f') = [Byte.x01; Byte.x02] /\
    is_Some (file f').
Proof.
  intros f0 w0.
  apply (Write_failed_promotion 2 f0 w0 [Byte.x01; Byte.x02] [Byte.x03] Copying 5).
  - unfold MaxInt. lia.
  - split; [reflexivity|]. split; [reflexivity|]. cbn.
    repeat split; try reflexivity. eexists. repeat split; vm_compute; reflexivity.
  - unfold len, MaxInt. simpl. lia.
  - apply (fails_copying f0 w0 Succeeds (Partial 1 5) []);
      [reflexivity | by left | reflexivity].
Defined.

(** C4 as stated fails: the temporary file is created, its unlinking fails,
    [Write] returns the error, and the buffer comes back file-backed.  Its two
    bytes are still in the memory region, but [Read] now looks at the empty
    file and reports end of stream. *)
Lemma promotion_not_atomic :
  value
    ((let* _ := Write [Byte.x01; Byte.x02] in
      let* before := this in
      let* r := Write [Byte.x03] in
      let* after := this in
      let* rd := Read [Byte.x00; Byte.x00] in
      ret (file before, r, file after, slen (buf after), rd))
       (New 2) (set_script [Succeeds; Fails 13] empty_world))
  = Done (None, (0, Some (ErrWrap msg_delete (ErrOS 13))), Some 2%nat, 2,
          (0, [Byte.x00; Byte.x00], Some EOF)).
Proof. reflexivity. Qed.

(** ** One representation at a time *)

Lemma append_frame s data f w s' f' w' :
  append s data f w = Done (s', f', w') -> f' = f.
Proof.
  unfold append. intros H. repeat (case_match; simplify_eq; try done).
Qed.

Lemma fill_file fuel : forall r tot f w res f' w',
  fill fuel r tot f w = Done (res, f', w') -> file f' = file f.
Proof.
  induction fuel as [|fuel IH]; intros r tot f w res f' w' H; [done|].
  cbn [fill] in H. revert H. mrun.
  destruct (subslice (buf f) _ _) as [win| |]; [|done..]. cbn beta iota.
  destruct (reader_Read r _) as [[q err] r1]. mrun.
  destruct (copy_to win q w) as [m w1]. cbn beta iota.
  destruct (subslice (buf f) 0 _) as [s| |]; [|done..]. cbn beta iota.
  destruct err as [e|].
  - destruct e; intros [= <- <- <-]; done.
  - cbn [buf set_buf]. destruct (slen s =? scap s).
    + intros [= <- <- <-]. done.
    + intros H. apply IH in H. done.
Qed.

(** Once the file handle is set, no call changes it or the memory region. *)
Lemma run_file_backed c f w err f' w' h :
  file f = Some h -> run c f w = Done (err, f', w') ->
  file f' = Some h /\ buf f' = buf f.
Proof.
  intros Hf. destruct c; unfold run.
  - unfold Write. mrun. rewrite Hf. mrun.
    destruct (os.Write _ _ _) as [[n e] w1]. by intros [= <- <- <-].
  - unfold Read. mrun. rewrite Hf. mrun.
    destruct (os.ReadAt _ _ _ _) as [[[n p'] e] w1]. by intros [= <- <- <-].
  - intros H. apply bind_inv in H as ([[n p'] e] & f1 & w1 & H & Hret).
    unfold ret in Hret. simplify_eq.
    rewrite ReadAt_unfold in H.
    destruct (Read p (set_off pos f) w) as [[[r0 f0] w0]| |]; by simplify_eq.
  - unfold ReadFrom. mrun. rewrite Hf.
    destruct (io.Copy _ _ _ _ _ _) as [[[ne r1] w1]| |]; [|done..].
    destruct ne. by intros [= <- <- <-].
  - unfold WriteTo. mrun. rewrite Hf. mrun.
    destruct (os.Seek _ _ _) as [[n [e|]] w1]; cbn beta iota.
    + by intros [= <- <- <-].
    + destruct (io.Copy _ _ _ _ _ _) as [[[ne w2] wr1]| |]; [|done..].
      destruct ne. by intros [= <- <- <-].
  - unfold Rewind. mrun. cbn [file set_off]. rewrite Hf. mrun.
    destruct (os.Seek _ _ _) as [[n [e|]] w1]; by intros [= <- <- <-].
  - unfold Close. mrun. rewrite Hf. mrun.
    destruct (os.Close _ _) as [e w1]. by intros [= <- <- <-].
Qed.

Lemma Write_memory_clean p f w n err f' w' :
  file f = None -> Write p f w = Done ((n, err), f', w') ->
  ~ half_promoted err -> is_Some (file f') -> buf f' = None.
Proof.
  intros Hnil Hrun Hclean Hsome.
  unfold Write in Hrun. rewrite (bind_Done _ _ f w f f w) in Hrun by done.
  rewrite Hnil in Hrun.
  destruct ((0 <? MaxBufSize f) && _).
  - destruct (moveToFile_outcomes f w Hnil)
      as (e & f1 & w1 & Hmove & Hb & Ho & _ & Hh & Hcases).
    rewrite (bind_Done _ _ _ _ _ _ _ Hmove) in Hrun.
    destruct Hcases as [(e0 & -> & -> & Hf & Hha)|(_ & [->|(e0 & He)])].
    + unfold ret in Hrun. simplify_eq. rewrite Hnil in Hsome. by destruct Hsome.
    + revert Hrun. mrun.
      destruct (os.Write _ p w1) as [[n1 e1] w2]. by intros [= <- <- <- <-].
    + assert (exists e1, e = Some e1) as [e1 ->] by (destruct He as [->| ->]; eauto).
      unfold ret in Hrun. simplify_eq. destruct Hclean. by exists e0.
  - apply bind_inv in Hrun as (u & f1 & w1 & Happ & Hret).
    apply appendBuffer_file in Happ. unfold ret in Hret. simplify_eq.
    simpl in Happ. rewrite Happ, Hnil in Hsome. by destruct Hsome.
Qed.

Lemma ReadFrom_memory_clean fuel r f w ne r' f' w' :
  file f = None -> ReadFrom fuel r f w = Done ((ne, r'), f', w') ->
  ~ half_promoted (snd ne) -> is_Some (file f') -> buf f' = None.
Proof.
  intros Hnil Hrun Hclean Hsome.
  unfold ReadFrom in Hrun. rewrite (bind_Done _ _ f w f f w) in Hrun by done.
  rewrite Hnil in Hrun.
  destruct (MaxBufSize f =? 0).
  - revert Hrun. mrun.
    destruct (bytes.Buffer_ReadFrom fuel r []) as [[[ne1 data] r1]| |]; [|done..].
    cbn beta iota.
    destruct (append (buf f) data f w) as [[[s f1] w1]| |] eqn:Happ; [|done..].
    apply append_frame in Happ as ->. intros [= <- <- <- <-].
    cbn in Hsome. rewrite Hnil in Hsome. by destruct Hsome.
  - apply bind_inv in Hrun as (u & f1 & w1 & Hinit & Hrun).
    assert (file f1 = None) as Hnil1.
    { revert Hinit. unfold make. mrun.
      repeat (case_match; simplify_eq; try done); by intros [= <- <- <-]. }
    apply bind_inv in Hrun as ([res r1] & f2 & w2 & Hfill & Hrun).
    apply fill_file in Hfill. rewrite Hnil1 in Hfill.
    destruct res as [ne1|].
    + unfold ret in Hrun. simplify_eq. rewrite Hfill in Hsome. by destruct Hsome.
    + rewrite (bind_Done _ _ f2 w2 f2 f2 w2) in Hrun by done.
      destruct (moveToFile_outcomes f2 w2 Hfill)
        as (e & f3 & w3 & Hmove & Hb & Ho & _ & Hh & Hcases).
      rewrite (bind_Done _ _ _ _ _ _ _ Hmove) in Hrun.
      destruct Hcases as [(e0 & -> & -> & Hf & Hha)|(_ & [->|(e0 & He)])].
      * unfold ret in Hrun. simplify_eq. rewrite Hfill in Hsome. by destruct Hsome.
      * revert Hrun. mrun.
        destruct (io.Copy _ _ _ _ _ _) as [[[[n1 e1] r2] w4]| |]; [|done..].
        by intros [= <- <- <- <-].
      * assert (exists e1, e = Some e1) as [e1 ->] by (destruct He as [->| ->]; eauto).
        unfold ret in Hrun. simplify_eq. destruct Hclean. by exists e0.
Qed.

Lemma WriteTo_frame wr f w r f' w' : WriteTo wr f w = Done (r, f', w') -> f' = f.
Proof.
  unfold WriteTo. mrun. destruct (file f) as [h|]; mrun.
  - destruct (os.Seek _ _ _) as [[n [e|]] w1]; cbn beta iota.
    + by intros [= <- <- <-].
    + destruct (io.Copy _ _ _ _ _ _) as [[[ne w2] wr1]| |]; [|done..].
      by intros [= <- <- <-].
  - destruct (subslice _ _ _) as [src| |]; [|done..]. cbn beta iota.
    destruct (writer_Write _ _). by intros [= <- <- <-].
Qed.

Lemma run_memory_clean c f w err f' w' :
  file f = None -> run c f w = Done (err, f', w') ->
  ~ half_promoted err -> is_Some (file f') -> buf f' = None.
Proof.
  intros Hnil Hrun Hclean Hsome.
  assert (file f' = None -> buf f' = None) as Hstill.
  { intros E. rewrite E in Hsome. by destruct Hsome. }
  destruct c; unfold run in Hrun.
  - apply bind_inv in Hrun as ([n e] & f1 & w1 & H & Hret).
    unfold ret in Hret. simplify_eq. by eapply Write_memory_clean.
  - apply bind_inv in Hrun as ([[n p'] e] & f1 & w1 & H & Hret).
    unfold ret in Hret. simplify_eq. apply Read_moves_cursor_only in H.
    apply Hstill. rewrite H. done.
  - apply bind_inv in Hrun as ([[n p'] e] & f1 & w1 & H & Hret).
    unfold ret in Hret. simplify_eq.
    rewrite ReadAt_unfold in H.
    destruct (Read p (set_off pos f) w) as [[[r0 f0] w0]| |]; simplify_eq.
    by apply Hstill.
  - apply bind_inv in Hrun as ([ne r1] & f1 & w1 & H & Hret).
    unfold ret in Hret. simplify_eq. by eapply ReadFrom_memory_clean.
  - apply bind_inv in Hrun as ([ne wr1] & f1 & w1 & H & Hret).
    unfold ret in Hret. simplify_eq. apply WriteTo_frame in H as ->.
    by apply Hstill.
  - revert Hrun. unfold Rewind. mrun. cbn [file set_off]. rewrite Hnil.
    intros [= <- <- <-]. by apply Hstill.
  - revert Hrun. unfold Close. mrun. rewrite Hnil. mrun.
    by intros [= <- <- <-].
Qed.

Lemma Clone_frame f w c f' w' :
  Clone f w = Done ((Some c, None), f', w') ->
  f' = f /\ buf c = buf f /\ off c = off f /\ MaxBufSize c = MaxBufSize f /\
  (file f = None -> c = f /\ w' = w) /\
  (forall h, file f = Some h ->
     exists d, handles w !! h = Some d /\ file c = Some (next_id w) /\
               handles w' = <[next_id w := d]> (handles w) /\
               files w' = files w /\ heap w' = heap w).
Proof.
  unfold Clone. mrun. destruct (file f) as [h|] eqn:Hf.
  - mrun. unfold os.Dup. destruct (handles w !! h) as [d|] eqn:Hh; [|done].
    destruct (next_outcome w) as [o w0] eqn:Ho.
    apply next_outcome_frame in Ho as (Hheap & Hfiles & Hha & Hn).
    destruct o; cbn; [|done..]. intros [= <- <- <-].
    repeat split; try done. intros h0 [= <-]. exists d.
    rewrite Hn, Hha. done.
  - intros [= <- <- <-]. repeat split; done.
Qed.

(** C5, as the code has it.  In every state a history reaches without a
    promotion that failed after its temporary file was created, a set file
    handle comes with a nil memory region.  And in every state whatsoever,
    once the file handle is set no call resets it or touches the memory
    region. *)
Theorem representation_invariant :
  (forall f w, reachable true f w -> is_Some (file f) -> buf f = None) /\
  (forall c f w err f' w' h,
     file f = Some h -> run c f w = Done (err, f', w') ->
     file f' = Some h /\ buf f' = buf f).
Proof.
  split; [|intros; by eapply run_file_backed].
  intros f w Hreach. induction Hreach as [| f w c err f' w' _ IH Hrun Hclean
                                           | f w c f' w' _ IH Hclone].
  - simpl. by intros [? [=]].
  - destruct (file f) as [h|] eqn:Hf.
    + destruct (run_file_backed _ _ _ _ _ _ _ Hf Hrun) as [_ ->]. intros _. by apply IH.
    + intros Hsome. eapply run_memory_clean; eauto.
  - apply Clone_frame in Hclone as (_ & Hb & _ & _ & Hmem & Hfile).
    rewrite Hb. destruct (file f) as [h|] eqn:Hf.
    + intros _. by apply IH.
    + destruct (Hmem eq_refl) as [-> _]. rewrite Hf. by intros [? [=]].
Qed.

(** C5 as stated fails where a promotion breaks while copying: the call
    returns the error, the memory region still shows both bytes, and the
    file, whose handle is set, holds the first of them. *)
Lemma both_representations_hold_data :
  exists f w,
    reachable false f w /\
    contents w (buf f) = [Byte.x01; Byte.x02] /\
    exists h d fl,
      file f = Some h /\ handles w !! h = Some d /\ files w !! d = Some fl /\
      f_data fl = [Byte.x01].
Proof.
  eexists _, _. split.
  - eapply (reach_call false _ _ (CallWrite [Byte.x03])).
    + eapply (reach_call false _ _ (CallWrite [Byte.x01; Byte.x02])).
      * apply (reach_new false 2 false EmptyString EmptyString
                 (set_script [Succeeds; Succeeds; Partial 1 5] empty_world)).
      * vm_compute. reflexivity.
      * discriminate.
    + vm_compute. reflexivity.
    + discriminate.
  - split; [vm_compute; reflexivity|].
    eexists _, _, _. repeat split; vm_compute; reflexivity.
Qed.

(** ** Clones *)

Lemma backing_file_data f w data h :
  file f = Some h -> (backing f w data <-> file_data h w = Some data).
Proof.
  intros Hf. unfold backing, file_data, os.lookup_file. rewrite Hf. split.
  - intros (d & fl & -> & -> & <-). done.
  - destruct (handles w !! h) as [d|] eqn:Hh; [|done].
    destruct (files w !! d) as [fl|] eqn:Hd; [|done].
    intros [= <-]. by exists d, fl.
Qed.

Lemma lookup_file_inv h w d fl :
  os.lookup_file h w = Some (d, fl) ->
  handles w !! h = Some d /\ files w !! d = Some fl.
Proof.
  unfold os.lookup_file. destruct (handles w !! h) as [d'|]; [|done].
  destruct (files w !! d') as [fl'|] eqn:E; [|done].
  by intros [= <- <-].
Qed.

Lemma backing_memory f w w' data :
  file f = None -> heap w' = heap w -> backing f w data -> backing f w' data.
Proof.
  intros Hf Hh. unfold backing, valid_slice, contents. rewrite Hf, Hh. done.
Qed.

Lemma Read_quiet_world p f w r f' w' :
  script w = [] -> Read p f w = Done (r, f', w') -> w' = w.
Proof.
  intros Hs. unfold Read. mrun. destruct (file f) as [h|].
  - mrun. unfold os.ReadAt. rewrite (next_outcome_quiet _ Hs).
    repeat (case_match; simplify_eq; try done); by intros [= <- <- <-].
  - destruct (slen (buf f) <=? off f); [by intros [= <- <- <-]|].
    unfold copyBuffer. mrun.
    destruct (subslice _ _ _) as [src| |]; [|done..]. by intros [= <- <- <-].
Qed.

(** What a reading call on one buffer leaves alone: the heap, and the
    contents reachable through every other handle. *)
Lemma reading_frame c f w err f' w' :
  reading c = true -> script w = [] ->
  run c f w = Done (err, f', w') ->
  script w' = [] /\ heap w' = heap w /\ file f' = file f /\
  (forall h, file f <> Some h -> file_data h w' = file_data h w).
Proof.
  intros Hc Hs Hrun. destruct c; try done; unfold run in Hrun.
  - apply bind_inv in Hrun as ([[n p'] e] & f1 & w1 & H & Hret).
    unfold ret in Hret. simplify_eq.
    pose proof (Read_quiet_world _ _ _ _ _ _ Hs H) as ->.
    apply Read_moves_cursor_only in H. rewrite H. done.
  - apply bind_inv in Hrun as ([[n p'] e] & f1 & w1 & H & Hret).
    unfold ret in Hret. simplify_eq.
    rewrite ReadAt_unfold in H.
    destruct (Read p (set_off pos f) w) as [[[r0 f0] w0]| |] eqn:E; simplify_eq.
    by pose proof (Read_quiet_world _ _ _ _ _ _ Hs E) as ->.
  - revert Hrun. unfold Rewind. mrun. cbn [file set_off].
    destruct (file f) as [h|] eqn:Hf; [|by intros [= <- <- <-]].
    mrun. unfold os.Seek.
    destruct (os.lookup_file h w) as [[d fl]|] eqn:Hl; [|by intros [= <- <- <-]].
    ztest. rewrite (next_outcome_quiet _ Hs). cbn.
    intros [= <- <- <-]. repeat split; try done.
    intros h' _. unfold file_data, os.lookup_file. cbn.
    destruct (handles w !! h') as [d'|]; [|done].
    destruct (decide (d = d')) as [<-|Hne].
    + rewrite lookup_insert_eq.
      apply lookup_file_inv in Hl as [_ ->]. done.
    + by rewrite lookup_insert_ne.
  - revert Hrun. unfold Close. mrun.
    destruct (file f) as [h|] eqn:Hf; [|by intros [= <- <- <-]].
    mrun. unfold os.Close.
    destruct (handles w !! h) as [d|] eqn:Hl; [|by intros [= <- <- <-]].
    rewrite (next_outcome_quiet _ Hs). cbn.
    intros [= <- <- <-]. repeat split; try done.
    intros h' Hne. unfold file_data, os.lookup_file. cbn.
    rewrite lookup_delete_ne; [done|]. congruence.
Qed.

Lemma run_all_reading cs : forall f w errs f' w',
  forallb reading cs = true -> script w = [] ->
  run_all cs f w = Done (errs, f', w') ->
  script w' = [] /\ heap w' = heap w /\ file f' = file f /\
  (forall h, file f <> Some h -> file_data h w' = file_data h w).
Proof.
  induction cs as [|c cs IH]; intros f w errs f' w' Hcs Hs Hrun.
  - cbn in Hrun. unfold ret in Hrun. by simplify_eq.
  - cbn in Hcs. apply andb_prop in Hcs as [Hc Hcs]. cbn [run_all] in Hrun.
    apply bind_inv in Hrun as (err & f1 & w1 & Hone & Hrun).
    apply bind_inv in Hrun as (errs1 & f2 & w2 & Hrest & Hret).
    unfold ret in Hret. simplify_eq.
    destruct (reading_frame _ _ _ _ _ _ Hc Hs Hone) as (Hs1 & Hh1 & Hf1 & Hd1).
    destruct (IH _ _ _ _ _ Hcs Hs1 Hrest) as (Hs2 & Hh2 & Hf2 & Hd2).
    repeat split; try congruence.
    intros h Hne. rewrite Hd2 by congruence. by apply Hd1.
Qed.

(** A clone made while nothing fails: it shows the same data from the same
    cursor, through a handle of its own when there is a file. *)
Lemma Clone_quiet f w data c f1 w1 :
  backing f w data -> script w = [] ->
  (forall h, file f = Some h -> (h < next_id w)%nat) ->
  Clone f w = Done ((Some c, None), f1, w1) ->
  f1 = f /\ off c = off f /\ script w1 = [] /\
  backing c w1 data /\ backing f w1 data /\
  (file c = None \/ file c <> file f).
Proof.
  intros Hb Hs Hfresh. unfold Clone. mrun. destruct (file f) as [h|] eqn:Hf.
  - mrun. unfold os.Dup.
    pose proof Hb as Hb'. unfold backing in Hb'. rewrite Hf in Hb'.
    destruct Hb' as (d & fl & Hh & Hd & Hdata). rewrite Hh.
    rewrite (next_outcome_quiet _ Hs). cbn. intros [= <- <- <-].
    specialize (Hfresh h eq_refl).
    assert (handles (set_next_id (S (next_id w))
              (set_handles (<[next_id w:=d]> (handles w)) w)) !! h = Some d) as Hh'.
    { cbn. rewrite lookup_insert_ne by lia. done. }
    repeat split; try done.
    + unfold backing. cbn. exists d, fl. by rewrite lookup_insert_eq.
    + unfold backing. rewrite Hf. by exists d, fl.
    + right. cbn. intros [= E]. lia.
  - intros [= <- <- <-]. repeat split; try done. by left.
Qed.

(** C8. Clone independence.  After [Clone], whatever reading calls the
    original receives (reads that drain it, positioned reads, rewinds, its
    closing), the clone reads from its own cursor exactly what it would have
    read right after the cloning; and read from the start, the original and
    the clone both give the full contents. *)
Theorem Clone_independence f w data c f1 w1 cs errs f2 w2 fuel size :
  backing f w data -> script w = [] ->
  (forall h, file f = Some h -> (h < next_id w)%nat) ->
  0 <= off f <= len data ->
  (0 < size)%nat -> len data + Z.of_nat size <= MaxInt ->
  (length data < fuel)%nat ->
  Clone f w = Done ((Some c, None), f1, w1) ->
  forallb reading cs = true ->
  run_all cs f1 w1 = Done (errs, f2, w2) ->
  value (read_all fuel size [] c w1) = Done (drop (Z.to_nat (off f)) data, None) /\
  value (read_all fuel size [] c w2) = Done (drop (Z.to_nat (off f)) data, None) /\
  value (read_from_start fuel size f1 w1) = Done (data, None) /\
  value (read_from_start fuel size c w2) = Done (data, None).
Proof.
  intros Hb Hs Hfresh Hoff Hsize Hfit Hfuel Hclone Hcs Hrun.
  destruct (Clone_quiet _ _ _ _ _ _ Hb Hs Hfresh Hclone)
    as (-> & Hoc & Hs1 & Hbc & Hbf & Hdistinct).
  destruct (run_all_reading _ _ _ _ _ _ Hcs Hs1 Hrun) as (Hs2 & Hh2 & Hf2 & Hd2).
  assert (backing c w2 data) as Hbc2.
  { destruct (file c) as [h'|] eqn:Hfc.
    - apply (backing_file_data c w2 data h' Hfc).
      rewrite Hd2; [by apply (backing_file_data c w1 data h' Hfc)|].
      destruct Hdistinct as [?|Hne]; [done | congruence].
    - by apply (backing_memory c w1). }
  assert (forall g v, backing g v data -> script v = [] -> off g = off f ->
            value (read_all fuel size [] g v) = Done (drop (Z.to_nat (off f)) data, None))
    as Hread.
  { intros g v Hg Hv Hog.
    destruct (read_all_drains size data Hsize Hfit fuel g v [] Hg Hv) as (g' & Hrd);
      [rewrite Hog; lia | rewrite Hog; lia |].
    rewrite Hrd, Hog. done. }
  assert (forall g v, backing g v data -> script v = [] ->
            value (read_from_start fuel size g v) = Done (data, None)) as Hstart.
  { intros g v Hg Hv.
    destruct (Rewind_quiet g v data Hg Hv) as (v' & Hrew & Hg' & Hv').
    destruct (read_all_drains size data Hsize Hfit fuel (set_off 0 g) v' [] Hg' Hv')
      as (g' & Hrd); [cbn; unfold len in *; lia | cbn; lia |].
    unfold read_from_start. rewrite (bind_Done _ _ _ _ _ _ _ Hrew).
    rewrite Hrd. done. }
  repeat split; auto.
Qed.

Lemma Clone_independence_witness :
  let f0 := mkFilebuf 2 false EmptyString EmptyString None (Some 1%nat) 1 in
  let w0 := mkWorld ∅ {[ 0%nat := mkFile [Byte.x01; Byte.x02; Byte.x03] 3 false ]}
                    {[ 1%nat := 0%nat ]} 2 [] in
  let cs := [CallRead [Byte.x00; Byte.x00]; CallRead [Byte.x00; Byte.x00];
             CallRewind; CallClose] in
  exists c w1 w2,
    Clone f0 w0 = Done ((Some c, None), f0, w1) /\
    (exists errs f2, run_all cs f0 w1 = Done (errs, f2, w2)) /\
    value (read_all 4 2 [] c w1) = Done ([Byte.x02; Byte.x03], None) /\
    value (read_all 4 2 [] c w2) = Done ([Byte.x02; Byte.x03], None) /\
    value (read_from_start 4 2 f0 w1) = Done ([Byte.x01; Byte.x02; Byte.x03], None) /\
    value (read_from_start 4 2 c w2) = Done ([Byte.x01; Byte.x02; Byte.x03], None).
Proof.
  intros f0 w0 cs.
  eexists _, _, _. split; [vm_compute; reflexivity|].
  split; [eexists _, _; vm_compute; reflexivity|].
  eapply (Clone_independence f0 w0 [Byte.x01; Byte.x02; Byte.x03] _ f0 _ cs _ _ _ 4 2).
  - unfold backing. cbn. eexists _, _. repeat split; vm_compute; reflexivity.
  - reflexivity.
  - intros h [= <-]. simpl. lia.
  - unfold len. simpl. lia.
  - lia.
  - unfold len, MaxInt. simpl. lia.
  - simpl. lia.
  - vm_compute. reflexivity.
  - reflexivity.
  - vm_compute. reflexivity.
Defined.

(** ** The fill loop of [ReadFrom] *)

Lemma bind_OutOfFuel {A B} (m : M A) (k : A -> M B) f w :
  m f w = OutOfFuel -> bind m k f w = OutOfFuel.
Proof. intros H. unfold bind. by rewrite H. Qed.

(** [ReadFrom] on a new buffer up to the end of a first read that leaves the
    region short of its capacity: the loop goes on with [len q] bytes in. *)
Lemma ReadFrom_first_read T fuel r w q r' :
  0 < T <= MaxInt ->
  reader_Read r (Z.to_nat T) = ((q, None), r') ->
  len q < T ->
  exists k f1 w1,
    ReadFrom (S fuel) r (New T) w = bind (fill fuel r' (len q)) k f1 w1 /\
    buf f1 = Some (mkSlice (next_id w) 0 (length q) (Z.to_nat T)).
Proof.
  intros HT Hread Hq.
  pose proof (len_nonneg q) as Hq0.
  unfold ReadFrom. mrun. cbn [file MaxBufSize buf New]. ztest.
  unfold make. ztest. cbn beta iota.
  cbn [fill]. mrun.
  cbn [buf set_buf New slen scap s_len s_cap]. unfold subslice at 1.
  cbn [scap s_cap].
  rewrite sub64_small by (unfold MaxInt in *; lia).
  change (Z.of_nat 0) with 0. rewrite Z.sub_0_r, Z2Nat.id by lia. ztest.
  cbn [andb]. cbn beta iota. cbn [slen s_len].
  rewrite Z.sub_0_r, Z2Nat.id by lia. rewrite Hread. mrun.
  unfold copy_to. cbn [s_len s_arr s_off heap set_heap set_next_id].
  assert (take (Z.to_nat T) q = q) as -> by (apply take_ge; unfold len in *; lia).
  cbn beta iota. unfold subslice at 1. cbn [scap s_cap].
  rewrite add64_small by (unfold MaxInt in *; lia). ztest. cbn [andb].
  cbn beta iota. cbn [buf set_buf slen scap s_len s_cap]. ztest.
  rewrite Z.add_0_l.
  eexists _, _, _. split; [unfold bind; reflexivity|].
  cbn. do 2 f_equal; unfold len; lia.
Qed.

(** The window of the loop, [f.buf[len(f.buf) : cap(f.buf)-len(f.buf)]], is
    out of bounds as soon as the region is more than half full. *)
Lemma fill_window_faults fuel r tot f w :
  slen (buf f) <= MaxInt -> scap (buf f) < 2 * slen (buf f) ->
  fill (S fuel) r tot f w = Panics "slice bounds out of range".
Proof.
  intros Hl Hhalf.
  assert (0 <= scap (buf f)) by (unfold scap; destruct (buf f); lia).
  cbn [fill]. mrun. unfold subslice.
  rewrite sub64_small by (unfold MaxInt in *; lia). ztest.
  rewrite andb_false_r. done.
Qed.

Lemma ReadFrom_short_read_faults T fuel r w q r' :
  0 < T <= MaxInt ->
  reader_Read r (Z.to_nat T) = ((q, None), r') ->
  len q < T < 2 * len q ->
  ReadFrom (S (S fuel)) r (New T) w = Panics "slice bounds out of range".
Proof.
  intros HT Hread Hhalf.
  destruct (ReadFrom_first_read T (S fuel) r w q r' HT Hread)
    as (k & f1 & w1 & -> & Hb); [lia|].
  apply bind_Panics. apply fill_window_faults; rewrite Hb; cbn [slen scap s_len s_cap];
    unfold len, MaxInt in *; lia.
Qed.

(** C10. The window of the fill loop.  On a new buffer with threshold [T],
    a source whose first read returns less than the window but more than
    half of it makes the next window run from [len] to [cap - len < len]:
    [ReadFrom] panics with a slice out of bounds and does not return. *)
Theorem ReadFrom_fill_window_out_of_bounds T fuel r w q r' :
  0 < T <= MaxInt ->
  reader_Read r (Z.to_nat T) = ((q, None), r') ->
  len q < T < 2 * len q ->
  ReadFrom (S (S fuel)) r (New T) w = Panics "slice bounds out of range" /\
  (forall res, ReadFrom (S (S fuel)) r (New T) w <> Done res).
Proof.
  intros HT Hread Hq.
  rewrite (ReadFrom_short_read_faults T fuel r w q r' HT Hread Hq).
  split; [done | discriminate].
Qed.

Lemma ReadFrom_fill_window_out_of_bounds_witness :
  ReadFrom 2 (chunk_reader [Byte.x01; Byte.x02; Byte.x03] 8) (New 4) empty_world
  = Panics "slice bounds out of range" /\
  (forall res,
     ReadFrom 2 (chunk_reader [Byte.x01; Byte.x02; Byte.x03] 8) (New 4) empty_world
     <> Done res).
Proof.
  apply (ReadFrom_fill_window_out_of_bounds 4 0
           (chunk_reader [Byte.x01; Byte.x02; Byte.x03] 8) empty_world
           [Byte.x01; Byte.x02; Byte.x03]
           (mkReader (list byte) [] (r_step (chunk_reader [Byte.x01; Byte.x02; Byte.x03] 8))));
    [unfold MaxInt; lia | reflexivity | unfold len; simpl; lia].
Defined.

(** The same window is empty when the region is exactly half full: a source
    that answers an empty window with no bytes and no error, as a reader over
    a byte string does while it has data left, keeps the loop going for
    ever. *)
Lemma fill_spins fuel : forall rest chunk tot f w s,
  buf f = Some s -> rest <> [] -> s_off s = 0%nat ->
  (0 < s_len s)%nat -> (s_cap s = 2 * s_len s)%nat -> Z.of_nat (s_cap s) <= MaxInt ->
  fill fuel (mkReader (list byte) rest (r_step (chunk_reader [] chunk))) tot f w
  = OutOfFuel.
Proof.
  induction fuel as [|fuel IH]; intros rest chunk tot f w s Hb Hrest Hso Hlen Hcap Hmax;
    [done|].
  cbn [fill]. mrun. rewrite Hb. unfold subslice at 1. cbn [slen scap].
  rewrite sub64_small by (unfold MaxInt in *; lia). ztest. cbn [andb]. cbn beta iota.
  cbn [slen s_len].
  replace (Z.to_nat (Z.of_nat (s_cap s) - Z.of_nat (s_len s) - Z.of_nat (s_len s)))
    with 0%nat by lia.
  unfold reader_Read. cbn [r_step r_cur r_state chunk_reader].
  destruct rest as [|b rest]; [done|]. cbn [Nat.min take drop].
  mrun. unfold copy_to. cbn [s_len]. rewrite take_0. change (len []) with 0.
  unfold subslice at 1. cbn [scap].
  rewrite add64_small by (unfold MaxInt in *; lia). ztest. cbn [andb]. cbn beta iota.
  cbn [buf set_buf slen scap s_len s_cap]. ztest.
  eapply IH; [reflexivity | done | ..]; simpl; lia.
Qed.

Lemma ReadFrom_half_full_spins fuel w :
  ReadFrom fuel (chunk_reader [Byte.x01; Byte.x02; Byte.x03] 2) (New 4) w = OutOfFuel.
Proof.
  destruct fuel as [|fuel]; [reflexivity|].
  destruct (ReadFrom_first_read 4 fuel
              (chunk_reader [Byte.x01; Byte.x02; Byte.x03] 2) w
              [Byte.x01; Byte.x02]
              (mkReader (list byte) [Byte.x03] (r_step (chunk_reader [] 2))))
    as (k & f1 & w1 & -> & Hb); [unfold MaxInt; lia | reflexivity | unfold len; simpl; lia |].
  apply bind_OutOfFuel.
  eapply fill_spins; [exact Hb | done | reflexivity | simpl; lia | reflexivity
                     | unfold MaxInt; simpl; lia].
Qed.

(** C9. Fill, then promote.  Threshold 4; the source holds six bytes and
    hands out three per read.  The first read leaves the region short of its
    capacity with the source not exhausted; the loop then asks for the window
    [f.buf[3:1]] and panics.  Nothing is promoted and no count is returned. *)
Theorem ReadFrom_partial_source_faults fuel w :
  ReadFrom (S (S fuel))
    (chunk_reader [Byte.x01; Byte.x02; Byte.x03; Byte.x04; Byte.x05; Byte.x06] 3)
    (New 4) w
  = Panics "slice bounds out of range".
Proof.
  apply (ReadFrom_short_read_faults 4 fuel _ w [Byte.x01; Byte.x02; Byte.x03]
           (mkReader (list byte) [Byte.x04; Byte.x05; Byte.x06]
                     (r_step (chunk_reader [] 3))));
    [unfold MaxInt; lia | reflexivity | unfold len; simpl; lia].
Qed.

(** When the first read fills the whole window, [ReadFrom] does what C9
    describes: the region is promoted to a file that holds those [T] bytes,
    the rest of the source is streamed into the file, and the count is [T]
    plus what was streamed. *)
Lemma ReadFrom_full_window T fuel r w q r1 :
  0 < T <= MaxInt -> script w = [] ->
  reader_Read r (Z.to_nat T) = ((q, None), r1) -> len q = T ->
  exists f1 w1,
    on_file f1 w1 q /\ script w1 = [] /\ off f1 = 0 /\ MaxBufSize f1 = T /\
    ReadFrom (S fuel) r (New T) w =
    match io.Copy reader_Read (fun w q => os.Write (file f1) q w) (S fuel) r1 w1 0 with
    | Done ((n, err), r2, w2) => Done (((add64 n T, err), r2), f1, w2)
    | Panics why => Panics why
    | OutOfFuel => OutOfFuel
    end.
Proof.
  intros HT Hs Hread Hq.
  unfold ReadFrom. mrun. cbn [file MaxBufSize buf New]. ztest.
  unfold make. ztest. cbn beta iota.
  cbn [fill]. mrun.
  cbn [buf set_buf New slen scap s_len s_cap]. unfold subslice at 1.
  cbn [scap s_cap].
  rewrite sub64_small by (unfold MaxInt in *; lia).
  change (Z.of_nat 0) with 0. rewrite Z.sub_0_r, Z2Nat.id by lia. ztest.
  cbn [andb]. cbn beta iota. cbn [slen s_len].
  rewrite Z.sub_0_r, Z2Nat.id by lia. rewrite Hread. mrun.
  unfold copy_to. cbn [s_len s_arr s_off heap set_heap set_next_id].
  assert (take (Z.to_nat T) q = q) as -> by (apply take_ge; unfold len in *; lia).
  cbn beta iota. unfold subslice at 1. cbn [scap s_cap].
  rewrite add64_small by (unfold MaxInt in *; lia). ztest. cbn [andb].
  cbn beta iota. cbn [buf set_buf slen scap s_len s_cap]. ztest.
  cbn beta iota.
  match goal with
  | |- context [moveToFile ?f0 ?w0] =>
      destruct (moveToFile_quiet f0 w0) as (h & d & w1 & Hmove & Hheap & Hs1 & Hh & Hd);
        [done | rewrite Hmove; set (g := f0) in *; set (v := w0) in * ]
  end.
  cbn beta iota. cbn [file set_buf set_file].
  assert (contents v (buf g) = q) as Hc.
  { subst g v. unfold contents.
    cbn [buf set_buf s_arr s_off s_len heap set_heap set_next_id].
    rewrite !lookup_insert_eq. cbn [default]. unfold id.
    change (0 + Z.to_nat 0)%nat with 0%nat. rewrite drop_0.
    replace (Z.to_nat (0 + len q - 0)) with (0 + length q)%nat by (unfold len; lia).
    rewrite splice_take by (rewrite length_replicate; unfold len in *; lia).
    done. }
  rewrite Hc in Hd.
  exists (set_buf None (set_file (Some h) g)), w1.
  split; [|split; [done|split; [by subst g|split; [by subst g|]]]].
  - split; [done|]. exists h, d. eexists. repeat split; try done.
  - cbn [file set_buf set_file].
    assert (slen (buf g) = T) as ->; [|reflexivity].
    subst g. cbn [buf set_buf slen s_len]. unfold len in *. lia.
Qed.

(** ** The bulk path, on the scenario of the package's test

    A source of eight bytes is ingested with [ReadFrom] and emitted with
    [WriteTo] into a collecting sink: for a threshold below the total (the
    first read fills the region, which is promoted) and for a threshold above
    it, count and bytes come back. *)

Lemma ReadFrom_WriteTo_file_backed :
  let data := [Byte.x01; Byte.x02; Byte.x03; Byte.x04;
               Byte.x05; Byte.x06; Byte.x07; Byte.x08] in
  value ((let* (ne, _) := ReadFrom 4 (chunk_reader data 64) in
          let* f := this in
          let* (me, sink) := WriteTo collector in
          ret (ne, file f, me, sink)) (New 4) empty_world)
  = Done ((8, None), Some 2%nat, (8, None),
          mkWriter (list byte) data (w_step collector)).
Proof. vm_compute. reflexivity. Qed.

Lemma ReadFrom_WriteTo_in_memory :
  let data := [Byte.x01; Byte.x02; Byte.x03; Byte.x04;
               Byte.x05; Byte.x06; Byte.x07; Byte.x08] in
  value ((let* (ne, _) := ReadFrom 4 (chunk_reader data 64) in
          let* f := this in
          let* (me, sink) := WriteTo collector in
          ret (ne, file f, me, sink)) (New 32) empty_world)
  = Done ((8, None), None, (8, None),
          mkWriter (list byte) data (w_step collector)).
Proof. vm_compute. reflexivity. Qed.

(** The threshold is not the same boundary on the bulk path: a source whose
    first read delivers exactly [T] bytes fills the region, and [ReadFrom]
    promotes it although nothing follows. *)
Lemma ReadFrom_exact_threshold_promotes :
  value ((let* (ne, _) := ReadFrom 2 (chunk_reader [Byte.x01; Byte.x02; Byte.x03; Byte.x04] 64) in
          let* f := this in
          ret (ne, file f, buf f)) (New 4) empty_world)
  = Done ((4, None), Some 2%nat, None).
Proof. vm_compute. reflexivity. Qed.

(** * Further properties *)

(** ** Positioned reads *)

(** What [Read] returns in terms of the data the buffer holds, for either
    representation. *)
Lemma Read_backing f w p data :
  backing f w data -> script w = [] -> 0 <= off f -> off f + len p <= MaxInt ->
  let q := take (length p) (drop (Z.to_nat (off f)) data) in
  Read p f w =
  Done ((len q, copy_into p q,
         match file f with
         | None => if len data <=? off f then Some EOF else None
         | Some _ => if len q <? len p then Some EOF else None
         end),
        set_off (off f + len q) f, w).
Proof.
  intros Hb Hs Hoff Hfit q.
  pose proof (len_nonneg p) as Hp. pose proof (len_nonneg data) as Hd.
  unfold backing in Hb.
  destruct (file f) as [h|] eqn:Hf.
  - destruct Hb as (d & fl & Hh & Hd' & Hdata).
    destruct (decide (p = [])) as [->|Hne].
    + unfold Read. mrun. rewrite Hf. unfold os.ReadAt.
      rewrite (lookup_file_Some _ _ _ _ Hh Hd'). ztest.
      change (len []) with 0. simpl. subst q. simpl.
      change (len []) with 0. rewrite add64_small by (unfold MaxInt in *; lia).
      done.
    + rewrite (Read_file f w p h d fl Hf Hh Hd' Hs Hoff Hne Hfit).
      rewrite Hdata. done.
  - destruct Hb as (Hv & Hdata).
    pose proof (valid_slice_length _ _ Hv) as Hsl. rewrite Hdata in Hsl.
    destruct (Z.leb_spec (len data) (off f)) as [Hend|Hin].
    + rewrite (Read_memory_end f w p Hf) by lia.
      assert (q = []) as ->.
      { apply len_nil_iff. subst q. unfold len in *.
        rewrite length_take, length_drop. lia. }
      rewrite copy_into_nil. change (len []) with 0.
      by rewrite Z.add_0_r, set_off_same.
    + rewrite (Read_memory f w p Hf Hv) by lia. by rewrite Hdata.
Qed.

(** [ReadAt] is random access: whatever the cursor, it returns the bytes of
    the data from [pos] on that fit in [p], reports end of stream as [Read]
    does there, and leaves buffer and world as they were. *)
Theorem ReadAt_random_access f w p pos data :
  backing f w data -> script w = [] -> 0 <= pos -> pos + len p <= MaxInt ->
  let q := take (length p) (drop (Z.to_nat pos) data) in
  ReadAt p pos f w =
  Done ((len q, copy_into p q,
         match file f with
         | None => if len data <=? pos then Some EOF else None
         | Some _ => if len q <? len p then Some EOF else None
         end), f, w).
Proof.
  intros Hb Hs Hpos Hfit q. rewrite ReadAt_unfold.
  rewrite (Read_backing (set_off pos f) w p data); done.
Qed.

Lemma ReadAt_random_access_witness :
  ReadAt [Byte.x00; Byte.x00] 1
    (mkFilebuf 2 false EmptyString EmptyString None (Some 1%nat) 3)
    (mkWorld ∅ {[ 0%nat := mkFile [Byte.x01; Byte.x02; Byte.x03; Byte.x04] 4 false ]}
             {[ 1%nat := 0%nat ]} 2 [])
  = Done ((2, [Byte.x02; Byte.x03], None),
          mkFilebuf 2 false EmptyString EmptyString None (Some 1%nat) 3,
          mkWorld ∅ {[ 0%nat := mkFile [Byte.x01; Byte.x02; Byte.x03; Byte.x04] 4 false ]}
                  {[ 1%nat := 0%nat ]} 2 []).
Proof.
  apply (ReadAt_random_access
           (mkFilebuf 2 false EmptyString EmptyString None (Some 1%nat) 3)
           (mkWorld ∅ {[ 0%nat := mkFile [Byte.x01; Byte.x02; Byte.x03; Byte.x04] 4 false ]}
                    {[ 1%nat := 0%nat ]} 2 [])
           [Byte.x00; Byte.x00] 1 [Byte.x01; Byte.x02; Byte.x03; Byte.x04]).
  - unfold backing. cbn. eexists _, _. repeat split; vm_compute; reflexivity.
  - reflexivity.
  - lia.
  - unfold len, MaxInt. simpl. lia.
Defined.

(** A negative position is treated differently by the two representations:
    the file refuses it with an error, the memory region is sliced with it
    and the call panics. *)
Theorem ReadAt_negative_position f w p pos :
  - 2 ^ 63 <= pos < 0 -> len p <= MaxInt ->
  (file f = None ->
   ReadAt p pos f w = Panics "slice bounds out of range") /\
  (forall h, file f = Some h -> is_Some (os.lookup_file h w) ->
   ReadAt p pos f w = Done ((0, p, Some ErrNegativeOffset), f, w)).
Proof.
  intros Hpos Hp. pose proof (len_nonneg p) as Hp0. split.
  - intros Hf. rewrite ReadAt_unfold. unfold Read. mrun. cbn [file off buf set_off].
    rewrite Hf.
    assert (0 <= slen (buf f)) by (unfold slen; destruct (buf f); lia).
    ztest. unfold copyBuffer. mrun. cbn [file off buf set_off].
    unfold subslice. ztest. done.
  - intros h Hf [[d fl] Hl]. rewrite ReadAt_unfold. unfold Read. mrun.
    cbn [file off buf set_off]. rewrite Hf. mrun. unfold os.ReadAt. rewrite Hl.
    ztest. cbn beta iota. cbn [off set_off].
    done.
Qed.

Lemma ReadAt_negative_position_witness :
  (file (New 4) = None ->
   ReadAt [Byte.x00] (-1) (New 4) empty_world = Panics "slice bounds out of range") /\
  (forall h, file (New 4) = Some h -> is_Some (os.lookup_file h empty_world) ->
   ReadAt [Byte.x00] (-1) (New 4) empty_world
   = Done ((0, [Byte.x00], Some ErrNegativeOffset), New 4, empty_world)).
Proof.
  apply (ReadAt_negative_position (New 4) empty_world [Byte.x00] (-1));
    [lia | unfold len, MaxInt; simpl; lia].
Defined.

(** ** Reading again *)

Lemma read_all_state fuel size : forall acc f w r f' w',
  read_all fuel size acc f w = Done (r, f', w') -> f' = set_off (off f') f.
Proof.
  induction fuel as [|fuel IH]; intros acc f w r f' w' H; [done|].
  cbn [read_all] in H.
  apply bind_inv in H as ([[n p'] err] & f1 & w1 & Hread & H).
  apply Read_moves_cursor_only in Hread.
  destruct err as [e|].
  - assert (f' = f1) as -> by (destruct e; unfold ret in H; by simplify_eq).
    done.
  - apply IH in H. rewrite H, Hread. done.
Qed.

(** A second [Rewind] right after the first changes nothing. *)
Lemma Rewind_twice f w data :
  backing f w data -> script w = [] ->
  exists w',
    Rewind f w = Done (None, set_off 0 f, w') /\
    Rewind (set_off 0 f) w' = Done (None, set_off 0 f, w').
Proof.
  intros Hb Hs. unfold Rewind. mrun. unfold backing in *. cbn [file set_off].
  destruct (file f) as [h|] eqn:Hf.
  - destruct Hb as (d & fl & Hh & Hd & Hdata). unfold os.Seek.
    rewrite (lookup_file_Some _ _ _ _ Hh Hd). ztest.
    rewrite (next_outcome_quiet _ Hs). cbn.
    eexists. split; [reflexivity|].
    erewrite lookup_file_Some; [| exact Hh | cbn; apply lookup_insert_eq].
    rewrite next_outcome_quiet by done. cbn.
    unfold set_files. cbn. rewrite insert_insert_eq. done.
  - exists w. done.
Qed.

(** Rewind idempotence.  Rewinding and reading to the end, twice in a row,
    gives the full data both times, for either representation; and a second
    [Rewind] right after the first leaves buffer and world as they are. *)
Theorem read_from_start_twice f w data fuel size :
  backing f w data -> script w = [] ->
  (0 < size)%nat -> len data + Z.of_nat size <= MaxInt ->
  (length data < fuel)%nat ->
  value ((let* a := read_from_start fuel size in
          let* b := read_from_start fuel size in
          ret (a, b)) f w)
  = Done ((data, None), (data, None)) /\
  exists w',
    Rewind f w = Done (None, set_off 0 f, w') /\
    Rewind (set_off 0 f) w' = Done (None, set_off 0 f, w').
Proof.
  intros Hb Hs Hsize Hfit Hfuel. split; [|by eapply Rewind_twice].
  assert (forall g v, backing g v data -> script v = [] ->
            exists g' v',
              read_from_start fuel size g v = Done ((data, None), g', v') /\
              backing g' v' data /\ script v' = []) as Hstart.
  { intros g v Hg Hv.
    destruct (Rewind_quiet g v data Hg Hv) as (v' & Hrew & Hg' & Hv').
    destruct (read_all_drains size data Hsize Hfit fuel (set_off 0 g) v' [] Hg' Hv')
      as (g' & Hrd); [cbn; unfold len in *; lia | cbn; lia |].
    exists g', v'. unfold read_from_start. rewrite (bind_Done _ _ _ _ _ _ _ Hrew).
    cbn beta iota. split; [exact Hrd|]. split; [|done].
    apply read_all_state in Hrd. rewrite Hrd. exact Hg'. }
  destruct (Hstart f w Hb Hs) as (f1 & w1 & H1 & Hb1 & Hs1).
  destruct (Hstart f1 w1 Hb1 Hs1) as (f2 & w2 & H2 & _).
  rewrite (bind_Done _ _ _ _ _ _ _ H1). cbn beta iota.
  rewrite (bind_Done _ _ _ _ _ _ _ H2). done.
Qed.

Lemma read_from_start_twice_witness :
  let f0 := mkFilebuf 2 false EmptyString EmptyString None (Some 1%nat) 2 in
  let w0 := mkWorld ∅ {[ 0%nat := mkFile [Byte.x01; Byte.x02; Byte.x03] 3 false ]}
                    {[ 1%nat := 0%nat ]} 2 [] in
  value ((let* a := read_from_start 4 2 in
          let* b := read_from_start 4 2 in
          ret (a, b)) f0 w0)
  = Done (([Byte.x01; Byte.x02; Byte.x03], None), ([Byte.x01; Byte.x02; Byte.x03], None)) /\
  exists w',
    Rewind f0 w0 = Done (None, set_off 0 f0, w') /\
    Rewind (set_off 0 f0) w' = Done (None, set_off 0 f0, w').
Proof.
  intros f0 w0.
  apply (read_from_start_twice f0 w0 [Byte.x01; Byte.x02; Byte.x03] 4 2).
  - unfold backing. cbn. eexists _, _. repeat split; vm_compute; reflexivity.
  - reflexivity.
  - lia.
  - unfold len, MaxInt. simpl. lia.
  - simpl. lia.
Defined.

(** ** Closing *)

(** Use after [Close].  Closing a file-backed buffer releases its handle,
    whatever the operating system answers; every later [Write], [Rewind]
    and [Close] on it, and every later [Read] into a non-empty slice from a
    cursor that is not negative, returns [os.ErrClosed] and moves no data.
    Closing a memory-backed buffer drops the region and keeps the cursor:
    [Read] then reports end of stream, and [WriteTo] slices the nil region
    from the old cursor and panics if that cursor is past zero. *)
Theorem use_after_Close f w :
  - 2 ^ 63 <= off f <= MaxInt ->
  (forall h d, file f = Some h -> handles w !! h = Some d ->
     exists err w',
       Close f w = Done (err, f, w') /\
       (0 <= off f -> forall p, p <> [] ->
          Read p f w' = Done ((0, p, Some ErrClosed), f, w')) /\
       (forall p, Write p f w' = Done ((0, Some ErrClosed), f, w')) /\
       Rewind f w' = Done (Some ErrClosed, set_off 0 f, w') /\
       Close f w' = Done (Some ErrClosed, f, w')) /\
  (file f = None ->
     Close f w = Done (None, set_buf None f, w) /\
     (0 <= off f ->
      forall p, Read p (set_buf None f) w = Done ((0, p, Some EOF), set_buf None f, w)) /\
     (0 < off f ->
      forall wr, WriteTo wr (set_buf None f) w = Panics "slice bounds out of range")).
Proof.
  intros Hoff. split.
  - intros h d Hf Hh. unfold Close at 1. mrun. rewrite Hf. mrun. unfold os.Close at 1.
    rewrite Hh. destruct (next_outcome w) as [o w0] eqn:Ho.
    apply next_outcome_frame in Ho as (_ & _ & Hha & _).
    eexists _, _. split; [reflexivity|].
    set (w' := set_handles _ w0).
    assert (handles w' !! h = None) as Hgone by (cbn; apply lookup_delete_eq).
    assert (os.lookup_file h w' = None) as Hl
      by (unfold os.lookup_file; by rewrite Hgone).
    repeat split.
    + intros H0 p Hp. unfold Read. mrun. rewrite Hf. mrun. unfold os.ReadAt.
      assert (len p <> 0) by (by rewrite len_nil_iff).
      ztest. rewrite Hl.
      cbn beta iota. rewrite add64_small by (unfold MaxInt in *; lia).
      by rewrite Z.add_0_r, set_off_same.
    + intros p. unfold Write. mrun. rewrite Hf. mrun. unfold os.Write. by rewrite Hl.
    + unfold Rewind. mrun. cbn [file set_off]. rewrite Hf. mrun.
      unfold os.Seek. by rewrite Hl.
    + unfold Close. mrun. rewrite Hf. mrun. unfold os.Close. by rewrite Hgone.
  - intros Hf. split; [|split].
    + unfold Close. mrun. by rewrite Hf.
    + intros H0 p. apply Read_memory_end; [done|]. cbn. lia.
    + intros H0 wr. unfold WriteTo. mrun. cbn [file set_buf]. rewrite Hf.
      cbn [buf set_buf off]. unfold subslice. cbn [slen scap]. ztest.
      rewrite andb_false_r. done.
Qed.

Lemma use_after_Close_witness :
  let f0 := mkFilebuf 2 false EmptyString EmptyString None (Some 1%nat) 0 in
  let w0 := mkWorld ∅ {[ 0%nat := mkFile [Byte.x01; Byte.x02; Byte.x03] 3 false ]}
                    {[ 1%nat := 0%nat ]} 2 [] in
  exists err w',
    Close f0 w0 = Done (err, f0, w') /\
    (0 <= off f0 -> forall p, p <> [] ->
       Read p f0 w' = Done ((0, p, Some ErrClosed), f0, w')) /\
    (forall p, Write p f0 w' = Done ((0, Some ErrClosed), f0, w')) /\
    Rewind f0 w' = Done (Some ErrClosed, set_off 0 f0, w') /\
    Close f0 w' = Done (Some ErrClosed, f0, w').
Proof.
  intros f0 w0.
  destruct (use_after_Close f0 w0) as [Hfile _]; [unfold MaxInt; simpl; lia|].
  apply (Hfile 1%nat 0%nat); reflexivity.
Defined.

(** ** Cloning, failures included *)

(** [Clone] always returns and never changes its receiver, the heap or the
    files.  It gives either a clone and no error, or no clone and the wrapped
    error of the duplication; in that case the handles are unchanged too.
    A clone has the memory region, cursor and settings of the original; it
    is the same value when there is no file, and has a file when the
    original has one. *)
Theorem Clone_outcomes f w :
  exists r w',
    Clone f w = Done (r, f, w') /\ heap w' = heap w /\ files w' = files w /\
    match r with
    | (Some c, None) =>
        buf c = buf f /\ off c = off f /\ MaxBufSize c = MaxBufSize f /\
        IgnoreDeleteErr c = IgnoreDeleteErr f /\
        (file f = None -> c = f /\ w' = w) /\
        (is_Some (file f) -> is_Some (file c))
    | (None, Some (ErrWrap _ _)) => is_Some (file f) /\ handles w' = handles w
    | _ => False
    end.
Proof.
  unfold Clone. mrun. destruct (file f) as [h|] eqn:Hf.
  - mrun. unfold os.Dup. destruct (handles w !! h) as [d|] eqn:Hh.
    + destruct (next_outcome w) as [o w0] eqn:Ho.
      apply next_outcome_frame in Ho as (Hheap & Hfiles & Hha & Hn).
      destruct o; cbn; eexists _, _; (split; [reflexivity|]); cbn;
        repeat split; try done; try congruence; eauto.
    + cbn. eexists _, _. split; [reflexivity|]. repeat split; eauto.
  - eexists _, _. split; [reflexivity|]. repeat split; try done;
      by intros [? [=]].
Qed.

(** ** The unlink policy *)

(** A promotion whose temporary file is created but cannot be unlinked.
    Without [IgnoreDeleteErr] the [Write] fails with the wrapped error and
    count 0, and the new, empty file is left behind under its name.  With
    [IgnoreDeleteErr] the promotion goes on: the [Write] succeeds, the file
    holds the old data and the new, and it still has its name. *)
Theorem unlink_failure_policy T f w data p e :
  in_memory T f w data -> 0 < T <= MaxInt ->
  T < len data + len p <= MaxInt ->
  script w = [Succeeds; Fails e] ->
  exists f' w',
    (if IgnoreDeleteErr f
     then Write p f w = Done ((len p, None), f', w') /\ buf f' = None
     else Write p f w = Done ((0, Some (ErrWrap msg_delete (ErrOS e))), f', w') /\
          buf f' = buf f) /\
    exists h d fl,
      file f' = Some h /\ handles w' !! h = Some d /\ files w' !! d = Some fl /\
      f_linked fl = true /\
      f_data fl = if IgnoreDeleteErr f then data ++ p else [].
Proof.
  intros Hm HT Hover Hs.
  pose proof (in_memory_slen _ _ _ _ Hm) as Hslen.
  pose proof (in_memory_contents _ _ _ _ Hm) as Hcont.
  destruct Hm as (Hfile & HMax & Hb).
  unfold Write. mrun. rewrite Hfile, HMax, Hslen.
  rewrite add64_small by lia. ztest. cbn [andb].
  unfold moveToFile. mrun. unfold os.TempFile.
  rewrite (next_outcome_cons w Succeeds [Fails e] Hs). cbn beta iota.
  unfold os.Remove.
  match goal with
  | |- context [next_outcome ?w1] =>
      rewrite (next_outcome_cons w1 (Fails e) []) by reflexivity
  end.
  cbn beta iota.
  destruct (IgnoreDeleteErr f) eqn:Hign.
  - cbn beta iota. cbn [file set_file set_buf].
    erewrite os_Write_quiet;
      [| cbn; apply lookup_insert_eq | cbn; apply lookup_insert_eq | done].
    cbn beta iota. cbn [file set_file set_buf].
    erewrite os_Write_quiet;
      [| cbn; apply lookup_insert_eq | cbn; apply lookup_insert_eq | done].
    eexists _, _. split; [split; reflexivity|].
    eexists _, _, _. split; [reflexivity|].
    split; [cbn; apply lookup_insert_eq|].
    split; [cbn; apply lookup_insert_eq|].
    split; [reflexivity|].
    cbn. change (contents _ (buf f)) with (contents w (buf f)).
    rewrite Hcont. rewrite drop_nil, app_nil_r, firstn_all, Nat.sub_diag.
    rewrite drop_ge by lia. cbn. by rewrite app_nil_r.
  - cbn beta iota.
    eexists _, _. split; [split; reflexivity|].
    eexists _, _, _. split; [reflexivity|].
    split; [cbn; apply lookup_insert_eq|].
    split; [cbn; apply lookup_insert_eq|].
    split; reflexivity.
Qed.

Lemma unlink_failure_policy_witness :
  let f0 := mkFilebuf 1 true EmptyString EmptyString None None 0 in
  let w0 := set_script [Succeeds; Fails 13] empty_world in
  exists f' w',
    (Write [Byte.x01; Byte.x02] f0 w0 = Done ((2, None), f', w') /\ buf f' = None) /\
    exists h d fl,
      file f' = Some h /\ handles w' !! h = Some d /\ files w' !! d = Some fl /\
      f_linked fl = true /\ f_data fl = [] ++ [Byte.x01; Byte.x02].
Proof.
  intros f0 w0.
  apply (unlink_failure_policy 1 f0 w0 [] [Byte.x01; Byte.x02] 13);
    [unfold in_memory; simpl; auto | unfold MaxInt; lia
    | unfold len, MaxInt; simpl; lia | reflexivity].
Defined.

(** ** A negative threshold *)

(** With a negative threshold nothing can be stored: on a new buffer every
    [Write], even of no bytes, and every [ReadFrom] asks [make] for a region
    of negative capacity and panics. *)
Theorem negative_threshold_panics T :
  T < 0 ->
  (forall p w, Write p (New T) w = Panics "makeslice: cap out of range") /\
  (forall fuel r w, ReadFrom fuel r (New T) w = Panics "makeslice: cap out of range").
Proof.
  intros HT. split.
  - intros p w. unfold Write. mrun. cbn [file MaxBufSize New]. ztest. cbn [andb].
    unfold appendBuffer. mrun. cbn [buf MaxBufSize New]. unfold make. ztest. done.
  - intros fuel r w. unfold ReadFrom. mrun. cbn [file buf MaxBufSize New]. ztest.
    unfold make. ztest. done.
Qed.

Lemma negative_threshold_panics_witness :
  (forall p w, Write p (New (-1)) w = Panics "makeslice: cap out of range") /\
  (forall fuel r w, ReadFrom fuel r (New (-1)) w = Panics "makeslice: cap out of range").
Proof. apply (negative_threshold_panics (-1)). lia. Defined.


(** ** Emitting with [WriteTo] *)

Lemma copy_buffer_size_pos : (0 < io.copy_buffer_size)%nat.
Proof. apply Nat.ltb_lt. vm_compute. reflexivity. Qed.

Lemma os_Read_quiet h d fl n w :
  handles w !! h = Some d -> files w !! d = Some fl -> script w = [] ->
  (0 < n)%nat ->
  os.Read (Some h) n w =
  let q := take n (drop (f_pos fl) (f_data fl)) in
  ((q, if (length q =? 0)%nat then Some EOF else None),
   set_files (<[d := mkFile (f_data fl) (f_pos fl + length q) (f_linked fl)]> (files w)) w).
Proof.
  intros Hh Hd Hs Hn. unfold os.Read.
  rewrite (lookup_file_Some _ _ _ _ Hh Hd), (next_outcome_quiet _ Hs).
  destruct (Nat.eqb_spec n 0); [lia|]. done.
Qed.

(** [io.Copy] from a file into the collecting writer drains the file from its
    offset to its end. *)
Lemma io_Copy_drains h d data lk fuel : forall w acc written pos,
  handles w !! h = Some d -> files w !! d = Some (mkFile data pos lk) ->
  script w = [] -> (pos <= length data)%nat ->
  0 <= written -> written + (len data - Z.of_nat pos) <= MaxInt ->
  (length data - pos < fuel)%nat ->
  exists w',
    io.Copy (fun w n => os.Read (Some h) n w) writer_Write fuel w (sink acc) written
    = Done ((written + len (drop pos data), None), w', sink (acc ++ drop pos data)) /\
    handles w' = handles w /\ heap w' = heap w /\ script w' = [] /\
    exists pos', files w' = <[d := mkFile data pos' lk]> (files w).
Proof.
  induction fuel as [|fuel IH]; intros w acc written pos Hh Hd Hs Hpos Hw Hfit Hfuel;
    [lia|].
  cbn [io.Copy].
  rewrite (os_Read_quiet h d _ _ w Hh Hd Hs copy_buffer_size_pos).
  cbn [f_data f_pos f_linked]. cbn zeta.
  pose proof copy_buffer_size_pos as HN.
  generalize dependent io.copy_buffer_size. intros N HN.
  set (q := take N (drop pos data)).
  assert (length q = (N `min` (length data - pos))%nat) as Hlq.
  { subst q. rewrite length_take, length_drop. done. }
  destruct (Nat.eqb_spec (length q) 0) as [Hz|Hnz].
  - assert (drop pos data = []) as Hrest.
    { apply length_zero_iff_nil. rewrite length_drop. lia. }
    assert (len q = 0) as Hq0 by (unfold len; lia).
    rewrite Hq0. cbn. rewrite Hrest, app_nil_r. change (len []) with 0.
    rewrite Z.add_0_r. eexists. split; [reflexivity|]. cbn.
    repeat split; try done. by eexists.
  - assert (0 < len q) as Hqpos by (unfold len; lia).
    destruct (Z.ltb_spec 0 (len q)) as [_|]; [|lia].
    change (writer_Write (sink acc) q) with ((len q, @None error), sink (acc ++ q)).
    cbn beta iota.
    destruct (Z.ltb_spec (len q) 0) as [|_]; [lia|].
    rewrite Z.ltb_irrefl. cbn [orb]. cbn beta iota.
    rewrite Z.eqb_refl. cbn [negb]. cbn beta iota.
    assert (len q <= len data - Z.of_nat pos) by (unfold len; lia).
    rewrite add64_small by (unfold MaxInt in *; lia).
    set (w1 := set_files _ w).
    destruct (IH w1 (acc ++ q) (written + len q) (pos + length q)%nat)
      as (w' & Hrun & Hha & Hhe & Hsc & pos' & Hfl).
    + done.
    + subst w1. cbn. apply lookup_insert_eq.
    + done.
    + lia.
    + lia.
    + unfold len in *. lia.
    + lia.
    + exists w'. rewrite Hrun.
      assert (q ++ drop (pos + length q) data = drop pos data) as Hsplit.
      { rewrite <- drop_drop. subst q. apply take_drop_length. }
      rewrite <- app_assoc, Hsplit.
      replace (written + len q + len (drop (pos + length q) data))
        with (written + len (drop pos data)).
      2:{ rewrite <- Hsplit at 1. rewrite len_app. lia. }
      split; [done|]. repeat split; try done.
      exists pos'. rewrite Hfl. subst w1. cbn. by rewrite insert_insert_eq.
Qed.

Lemma WriteTo_memory_collects f w acc :
  file f = None -> valid_slice w (buf f) -> 0 <= off f <= slen (buf f) ->
  WriteTo (sink acc) f w =
  Done (((len (drop (Z.to_nat (off f)) (contents w (buf f))), None),
         sink (acc ++ drop (Z.to_nat (off f)) (contents w (buf f)))), f, w).
Proof.
  intros Hf Hv Hoff. unfold WriteTo. mrun. rewrite Hf.
  assert (slen (buf f) <= scap (buf f)) as Hcap.
  { unfold slen, scap, valid_slice in *. destruct (buf f) as [s|]; [|lia].
    destruct Hv as (arr & _ & _ & Hl). lia. }
  unfold subslice. ztest. cbn [andb]. cbn beta iota.
  assert (contents w
            match buf f with
            | Some s => Some (mkSlice (s_arr s) (s_off s + Z.to_nat (off f))
                                (Z.to_nat (slen (buf f) - off f))
                                (s_cap s - Z.to_nat (off f)))
            | None => None
            end = drop (Z.to_nat (off f)) (contents w (buf f))) as ->.
  { unfold contents. destruct (buf f) as [s|]; [|by rewrite drop_nil].
    cbn [s_arr s_off s_len slen]. rewrite skipn_firstn_comm, drop_drop.
    f_equal. lia. }
  reflexivity.
Qed.

Lemma WriteTo_file_collects f w acc h d fl :
  file f = Some h -> handles w !! h = Some d -> files w !! d = Some fl ->
  script w = [] -> 0 <= off f <= len (f_data fl) -> len (f_data fl) <= MaxInt ->
  exists w',
    WriteTo (sink acc) f w =
    Done (((len (drop (Z.to_nat (off f)) (f_data fl)), None),
           sink (acc ++ drop (Z.to_nat (off f)) (f_data fl))), f, w') /\
    handles w' = handles w /\ heap w' = heap w /\ script w' = [] /\
    exists pos', files w' = <[d := mkFile (f_data fl) pos' (f_linked fl)]> (files w).
Proof.
  intros Hf Hh Hd Hs Hoff Hmax. unfold WriteTo. mrun. rewrite Hf. mrun.
  unfold os.Seek. rewrite (lookup_file_Some _ _ _ _ Hh Hd). ztest.
  rewrite (next_outcome_quiet _ Hs). cbn [outcome_error]. cbn beta iota.
  set (w1 := set_files _ w).
  assert (file_size (Some h) w1 = length (f_data fl)) as Hsize.
  { unfold file_size, os.lookup_file. subst w1. cbn. rewrite Hh.
    by rewrite lookup_insert_eq. }
  rewrite Hsize.
  destruct (io_Copy_drains h d (f_data fl) (f_linked fl) (S (length (f_data fl)))
              w1 acc 0 (Z.to_nat (off f)))
    as (w' & Hrun & Hha & Hhe & Hsc & pos' & Hfl).
  - done.
  - subst w1. cbn. apply lookup_insert_eq.
  - done.
  - unfold len in *. lia.
  - lia.
  - unfold len in *. lia.
  - lia.
  - exists w'. rewrite Hrun. rewrite Z.add_0_l. split; [done|].
    repeat split; try done. exists pos'. rewrite Hfl. subst w1. cbn.
    by rewrite insert_insert_eq.
Qed.

(** [WriteTo] on either representation, in terms of the data the buffer
    holds. *)
Lemma WriteTo_backing f w data acc :
  backing f w data -> script w = [] ->
  0 <= off f <= len data -> len data <= MaxInt ->
  exists w',
    WriteTo (sink acc) f w =
    Done (((len (drop (Z.to_nat (off f)) data), None),
           sink (acc ++ drop (Z.to_nat (off f)) data)), f, w') /\
    backing f w' data /\ script w' = [].
Proof.
  intros Hb Hs Hoff Hmax. pose proof Hb as Hb'. unfold backing in Hb'.
  destruct (file f) as [h|] eqn:Hf.
  - destruct Hb' as (d & fl & Hh & Hd & <-).
    destruct (WriteTo_file_collects f w acc h d fl Hf Hh Hd Hs Hoff Hmax)
      as (w' & Hrun & Hha & _ & Hsc & pos' & Hfl).
    exists w'. split; [done|]. split; [|done].
    unfold backing. rewrite Hf. exists d. eexists.
    rewrite Hha, Hfl, lookup_insert_eq. done.
  - destruct Hb' as (Hv & <-).
    pose proof (valid_slice_length _ _ Hv) as Hl.
    exists w. rewrite (WriteTo_memory_collects f w acc Hf Hv) by lia. done.
Qed.

(** [WriteTo] hands the collecting sink exactly the bytes from the cursor to
    the end and returns their number, for either representation.  Unlike
    [Read] it consumes nothing: the buffer is as it was, the cursor included,
    and a second [WriteTo] emits the same bytes again. *)
Theorem WriteTo_emits_unread f w data acc :
  backing f w data -> script w = [] ->
  0 <= off f <= len data -> len data <= MaxInt ->
  let rest := drop (Z.to_nat (off f)) data in
  exists w1 w2,
    WriteTo (sink acc) f w = Done (((len rest, None), sink (acc ++ rest)), f, w1) /\
    WriteTo (sink (acc ++ rest)) f w1
    = Done (((len rest, None), sink ((acc ++ rest) ++ rest)), f, w2) /\
    backing f w2 data /\ script w2 = [].
Proof.
  intros Hb Hs Hoff Hmax rest.
  destruct (WriteTo_backing f w data acc Hb Hs Hoff Hmax) as (w1 & Hrun1 & Hb1 & Hs1).
  destruct (WriteTo_backing f w1 data (acc ++ rest) Hb1 Hs1 Hoff Hmax)
    as (w2 & Hrun2 & Hb2 & Hs2).
  by exists w1, w2.
Qed.

Lemma WriteTo_emits_unread_witness :
  let f0 := mkFilebuf 2 false EmptyString EmptyString None (Some 1%nat) 1 in
  let w0 := mkWorld ∅ {[ 0%nat := mkFile [Byte.x01; Byte.x02; Byte.x03] 3 false ]}
                    {[ 1%nat := 0%nat ]} 2 [] in
  exists w1 w2,
    WriteTo (sink [Byte.x09]) f0 w0
    = Done (((2, None), sink [Byte.x09; Byte.x02; Byte.x03]), f0, w1) /\
    WriteTo (sink [Byte.x09; Byte.x02; Byte.x03]) f0 w1
    = Done (((2, None), sink [Byte.x09; Byte.x02; Byte.x03; Byte.x02; Byte.x03]), f0, w2) /\
    backing f0 w2 [Byte.x01; Byte.x02; Byte.x03] /\ script w2 = [].
Proof.
  intros f0 w0.
  apply (WriteTo_emits_unread f0 w0 [Byte.x01; Byte.x02; Byte.x03] [Byte.x09]).
  - unfold backing. cbn. eexists _, _. repeat split; vm_compute; reflexivity.
  - reflexivity.
  - unfold len. simpl. lia.
  - unfold len, MaxInt. simpl. lia.
Defined.

(** ** Ingesting with [ReadFrom] *)

(** [io.Copy] from a reader over [rest] into a file whose offset is at its
    end: everything is appended and counted. *)
Lemma io_Copy_into_file h d lk chunk fuel : forall rest w data written,
  (0 < chunk)%nat ->
  handles w !! h = Some d -> files w !! d = Some (mkFile data (length data) lk) ->
  script w = [] -> 0 <= written -> written + len rest <= MaxInt ->
  (length rest < fuel)%nat ->
  exists w',
    io.Copy reader_Read (fun w q => os.Write (Some h) q w) fuel
      (mkReader (list byte) rest (r_step (chunk_reader [] chunk))) w written
    = Done ((written + len rest, None),
            mkReader (list byte) [] (r_step (chunk_reader [] chunk)), w') /\
    handles w' = handles w /\ heap w' = heap w /\ script w' = [] /\
    files w' = <[d := mkFile (data ++ rest) (length (data ++ rest)) lk]> (files w).
Proof.
  induction fuel as [|fuel IH]; intros rest w data written Hc Hh Hd Hs Hw Hmax Hfuel;
    [lia|].
  cbn [io.Copy]. unfold reader_Read at 1. cbn [r_step r_cur r_state chunk_reader].
  pose proof copy_buffer_size_pos as HN.
  generalize dependent io.copy_buffer_size. intros N HN.
  destruct rest as [|b rest'].
  - rewrite take_nil. change (len []) with 0. cbn.
    exists w. rewrite Z.add_0_r, app_nil_r. repeat split; try done.
    by rewrite insert_id.
  - set (rest := b :: rest') in *.
    set (m := (N `min` chunk)%nat).
    assert (take N (take m rest) = take m rest) as ->.
    { apply take_ge. rewrite length_take. lia. }
    set (q := take m rest).
    assert (0 < length q)%nat as Hq.
    { subst q. rewrite length_take. subst rest. simpl. lia. }
    assert (length q <= length rest)%nat as Hqr.
    { subst q. rewrite length_take. lia. }
    unfold len in *. ztest.
    rewrite (os_Write_quiet h d _ q w Hh Hd Hs). cbn [f_data f_pos f_linked].
    unfold len. ztest. cbn [orb].
    rewrite add64_small by (unfold MaxInt in *; lia). ztest. cbn [negb].
    rewrite splice_end.
    destruct (IH (drop m rest)
                (set_files (<[d := mkFile (data ++ q) (length data + length q) lk]> (files w)) w)
                (data ++ q) (written + Z.of_nat (length q)))
      as (w' & Hrun & Hha & Hhe & Hsc & Hfl).
    + done.
    + done.
    + cbn. rewrite lookup_insert_eq, length_app. done.
    + done.
    + lia.
    + rewrite length_drop. subst q. rewrite length_take in *. lia.
    + rewrite length_drop. subst q. rewrite length_take in *. lia.
    + exists w'. split.
      * assert (Z.of_nat (length rest)
                = Z.of_nat (length q) + Z.of_nat (length (drop m rest))) as ->.
        { rewrite length_drop. subst q. rewrite length_take in *. lia. }
        rewrite Z.add_assoc. exact Hrun.
      * repeat split; try done. rewrite Hfl. cbn. rewrite insert_insert_eq.
        subst q. rewrite <- app_assoc, take_drop. done.
Qed.

Lemma reader_Read_length r n q err r' :
  reader_Read r n = ((q, err), r') -> (length q <= n)%nat.
Proof.
  unfold reader_Read. destruct (r_step r (r_cur r) n) as [[q0 e0] st].
  intros [= <- _ _]. rewrite length_take. lia.
Qed.

Lemma chunk_reader_Read data chunk n :
  data <> [] ->
  reader_Read (mkReader (list byte) data (r_step (chunk_reader [] chunk))) n =
  ((take (n `min` chunk) data, None),
   mkReader (list byte) (drop (n `min` chunk) data) (r_step (chunk_reader [] chunk))).
Proof.
  intros Hne. destruct data as [|b data]; [done|].
  unfold reader_Read. cbn [r_step r_cur r_state chunk_reader].
  rewrite take_take. by replace (n `min` (n `min` chunk))%nat with (n `min` chunk)%nat by lia.
Qed.

Lemma chunk_reader_Read_end chunk n :
  reader_Read (mkReader (list byte) [] (r_step (chunk_reader [] chunk))) n =
  (([], Some EOF), mkReader (list byte) [] (r_step (chunk_reader [] chunk))).
Proof.
  unfold reader_Read. cbn [r_step r_cur r_state chunk_reader]. by rewrite take_nil.
Qed.

(** One turn of the loop of [ReadFrom] on an allocated region that is at
    most half full: the window is [T - 2 * len old] bytes wide, what the
    source delivers is appended, and the loop ends on an error, on the end of
    the source or on a full region. *)
Lemma fill_read T fuel r tot f w old n q err r' :
  0 < T <= MaxInt -> in_memory T f w old -> buf f <> None ->
  2 * len old <= T -> n = Z.to_nat (T - 2 * len old) ->
  reader_Read r n = ((q, err), r') ->
  0 <= tot -> tot + len q <= MaxInt ->
  exists f' w',
    in_memory T f' w' (old ++ q) /\ buf f' <> None /\ off f' = off f /\
    files w' = files w /\ handles w' = handles w /\ script w' = script w /\
    next_id w' = next_id w /\
    fill (S fuel) r tot f w =
    match err with
    | Some EOF => Done ((Some (tot + len q, None), r'), f', w')
    | Some e => Done ((Some (tot + len q, Some e), r'), f', w')
    | None => if len old + len q =? T then Done ((None, r'), f', w')
              else fill fuel r' (tot + len q) f' w'
    end.
Proof.
  intros HT Hm Hbuf Hhalf Hn Hread Htot Hmax.
  pose proof (reader_Read_length _ _ _ _ _ Hread) as Hq.
  pose proof (len_nonneg old) as Hold. pose proof (len_nonneg q) as Hq0.
  assert (len q <= T - 2 * len old) as Hq' by (unfold len in *; lia).
  destruct Hm as (Hfile & HT' & Hb).
  destruct (buf f) as [s|] eqn:Hs; [|done].
  destruct Hb as (Hoff & Hlen & Hcap & arr & Harr & Hal & Htake).
  cbn [fill]. mrun. rewrite Hs. cbn [slen scap].
  unfold subslice at 1. cbn [scap].
  rewrite sub64_small by (unfold len, MaxInt in *; lia).
  assert (Z.of_nat (s_len s) = len old) as Hl by (unfold len; lia).
  assert (Z.of_nat (s_cap s) = T) as Hc by lia.
  rewrite Hl, Hc. ztest. cbn [andb]. cbn beta iota. cbn [slen s_len].
  replace (Z.to_nat (Z.of_nat (Z.to_nat (T - len old - len old)))) with n by lia.
  rewrite Hread. mrun. unfold copy_to. cbn [s_len s_arr s_off].
  rewrite Harr. cbn [default].
  assert (take (Z.to_nat (T - len old - len old)) q = q) as ->
    by (apply take_ge; lia).
  cbn beta iota. unfold subslice at 1. cbn [scap].
  rewrite add64_small by (unfold len, MaxInt in *; lia).
  rewrite Hc. ztest. cbn [andb]. cbn beta iota.
  rewrite add64_small by (unfold len, MaxInt in *; lia).
  match goal with
  | |- context [match err with _ => _ end ?f0 ?w0] => exists f0, w0
  end.
  split; [|split; [done|split; [done|split; [done|split; [done|split; [done|split; [done|]]]]]]].
  2: { destruct err as [[]|]; try reflexivity.
       unfold slen, scap, buf, set_buf. cbn [s_len s_cap].
       replace (Z.of_nat (Z.to_nat (len old + len q - 0))) with (len old + len q)
         by (unfold len; lia).
       replace (Z.of_nat (s_cap s - Z.to_nat 0)) with T by lia.
       destruct (len old + len q =? T); reflexivity. }
  - split; [done|]. split; [done|]. cbn [buf set_buf s_off s_len s_cap s_arr heap set_heap].
    split; [lia|]. split; [rewrite length_app; unfold len; lia|].
    split; [lia|].
    exists (splice arr (length old) q).
    replace (s_off s + Z.to_nat (len old))%nat with (length old) by (unfold len; lia).
    rewrite lookup_insert_eq. split; [done|].
    split; [rewrite splice_length; unfold len in *; lia|].
    rewrite length_app, splice_take by (unfold len in *; lia).
    by rewrite Htake.
Qed.

(** [ReadFrom] on a memory-backed buffer with a positive threshold: the
    region is allocated if it was not; a loop that returns makes the method
    return, a loop that breaks hands over to the promotion. *)
Lemma ReadFrom_memory_returns T f w old fuel r :
  0 < T -> in_memory T f w old ->
  exists f0 w0,
    in_memory T f0 w0 old /\ buf f0 <> None /\ off f0 = off f /\
    files w0 = files w /\ handles w0 = handles w /\ script w0 = script w /\
    (forall ne r' f' w',
       fill fuel r 0 f0 w0 = Done ((Some ne, r'), f', w') ->
       ReadFrom fuel r f w = Done ((ne, r'), f', w')) /\
    (forall r' f' w',
       fill fuel r 0 f0 w0 = Done ((None, r'), f', w') ->
       ReadFrom fuel r f w =
       match moveToFile f' w' with
       | Done (Some e, f2, w2) => Done (((0, Some e), r'), f2, w2)
       | Done (None, f2, w2) =>
           match io.Copy reader_Read (fun w q => os.Write (file f2) q w) fuel r' w2 0 with
           | Done ((n, err), r2, w3) =>
               Done (((add64 n (slen (buf f')), err), r2), set_buf None f2, w3)
           | Panics why => Panics why
           | OutOfFuel => OutOfFuel
           end
       | Panics why => Panics why
       | OutOfFuel => OutOfFuel
       end).
Proof.
  intros HT Hm. pose proof Hm as (Hfile & HT' & Hb).
  unfold ReadFrom. mrun. rewrite Hfile, HT'. ztest.
  destruct (buf f) as [s|] eqn:Hs.
  - exists f, w.
    split; [done|]. split; [by rewrite Hs|]. do 4 (split; [done|]).
    split; [intros ne r' f' w' ->; done|].
    intros r' f' w' ->. cbn beta iota.
    destruct (moveToFile f' w') as [[[[e|] f2] w2]| |]; reflexivity.
  - subst old. unfold make. ztest.
    eexists _, _. split; [|split; [|split; [|split; [|split; [|split; [|split]]]]]];
      [ | | | | | | intros ne r' f' w' ->; reflexivity
      | intros r' f' w' ->; cbn beta iota;
        destruct (moveToFile f' w') as [[[[e|] f2] w2]| |]; reflexivity ].
    + split; [done|]. split; [done|].
      cbn [buf set_buf s_off s_len s_cap s_arr heap set_heap set_next_id].
      repeat split; try done.
      eexists. rewrite lookup_insert_eq. split; [done|].
      split; [by rewrite length_replicate | done].
    + done.
    + done.
    + done.
    + done.
    + done.
Qed.

(** A source that ends within half of the room left stays in memory. *)
Lemma ReadFrom_source_in_memory T f w old data chunk fuel :
  0 < T <= MaxInt -> in_memory T f w old ->
  2 * (len old + len data) <= T -> (length data <= chunk)%nat ->
  (1 < fuel)%nat ->
  exists f' w' r',
    ReadFrom fuel (chunk_reader data chunk) f w = Done (((len data, None), r'), f', w') /\
    in_memory T f' w' (old ++ data) /\ off f' = off f /\
    files w' = files w /\ handles w' = handles w /\ script w' = script w.
Proof.
  intros HT Hm Hhalf Hchunk Hfuel.
  pose proof (len_nonneg old) as Hold. pose proof (len_nonneg data) as Hdata.
  destruct fuel as [|[|fuel]]; [lia..|].
  destruct (ReadFrom_memory_returns T f w old (S (S fuel)) (chunk_reader data chunk))
    as (f0 & w0 & Hm0 & Hb0 & Hoff0 & Hfl0 & Hha0 & Hsc0 & Hret & _); [lia|done|].
  destruct (decide (data = [])) as [->|Hne].
  - change (len []) with 0 in *.
    destruct (fill_read T (S fuel) (chunk_reader [] chunk) 0 f0 w0 old
                (Z.to_nat (T - 2 * len old)) [] (Some EOF)
                (mkReader (list byte) [] (r_step (chunk_reader [] chunk))))
      as (f1 & w1 & Hm1 & Hb1 & Hoff1 & Hfl1 & Hha1 & Hsc1 & _ & Hfill).
    { done. } { done. } { done. } { lia. } { done. }
    { apply chunk_reader_Read_end. }
    { lia. } { change (len []) with 0. unfold MaxInt. lia. }
    change (len []) with 0 in Hfill. rewrite app_nil_r in Hm1.
    exists f1, w1, (mkReader (list byte) [] (r_step (chunk_reader [] chunk))).
    rewrite (Hret _ _ _ _ Hfill). rewrite app_nil_r.
    split; [done|]. split; [done|]. repeat split; congruence.
  - assert (0 < len data) as Hpos.
    { destruct (decide (len data = 0)) as [E|]; [|lia]. by apply len_nil_iff in E. }
    destruct (fill_read T (S fuel) (chunk_reader data chunk) 0 f0 w0 old
                (Z.to_nat (T - 2 * len old)) data None
                (mkReader (list byte) [] (r_step (chunk_reader [] chunk))))
      as (f1 & w1 & Hm1 & Hb1 & Hoff1 & Hfl1 & Hha1 & Hsc1 & _ & Hfill).
    { done. } { done. } { done. } { lia. } { done. }
    { assert (length data <= Z.to_nat (T - 2 * len old) `min` chunk)%nat
        by (unfold len in *; lia).
      change (chunk_reader data chunk)
        with (mkReader (list byte) data (r_step (chunk_reader [] chunk))).
      rewrite chunk_reader_Read by done.
      rewrite drop_ge, take_ge by lia. done. }
    { lia. } { unfold MaxInt in *. lia. }
    revert Hfill. ztest. intros Hfill.
    destruct (fill_read T fuel (mkReader (list byte) [] (r_step (chunk_reader [] chunk)))
                (0 + len data) f1 w1 (old ++ data)
                (Z.to_nat (T - 2 * len (old ++ data))) [] (Some EOF)
                (mkReader (list byte) [] (r_step (chunk_reader [] chunk))))
      as (f2 & w2 & Hm2 & Hb2 & Hoff2 & Hfl2 & Hha2 & Hsc2 & _ & Hfill2).
    { done. } { done. } { done. } { rewrite len_app. lia. } { done. }
    { apply chunk_reader_Read_end. }
    { lia. } { change (len []) with 0. unfold MaxInt in *. lia. }
    rewrite Hfill2 in Hfill. change (len []) with 0 in Hfill.
    rewrite Z.add_0_l, Z.add_0_r in Hfill. rewrite app_nil_r in Hm2.
    exists f2, w2, (mkReader (list byte) [] (r_step (chunk_reader [] chunk))).
    rewrite (Hret _ _ _ _ Hfill).
    split; [done|]. split; [done|]. repeat split; congruence.
Qed.

(** A source at least as long as the threshold, whose reads fill the window
    they are offered: the region is full after the first read and is
    promoted; the rest of the source is streamed into the file. *)
Lemma ReadFrom_source_to_file T data chunk fuel w :
  0 < T <= MaxInt -> script w = [] -> T <= len data <= MaxInt ->
  (Z.to_nat T <= chunk)%nat -> (length data < fuel)%nat ->
  exists f' w' r',
    ReadFrom fuel (chunk_reader data chunk) (New T) w
    = Done (((len data, None), r'), f', w') /\
    on_file f' w' data /\ off f' = 0 /\ MaxBufSize f' = T /\ script w' = [].
Proof.
  intros HT Hs Hlen Hchunk Hfuel.
  destruct fuel as [|fuel]; [lia|].
  assert (data <> []) as Hne.
  { intros ->. change (len []) with 0 in Hlen. lia. }
  assert (length (take (Z.to_nat T) data) = Z.to_nat T) as Hlt.
  { rewrite length_take. unfold len in *. lia. }
  destruct (ReadFrom_full_window T fuel (chunk_reader data chunk) w
              (take (Z.to_nat T) data)
              (mkReader (list byte) (drop (Z.to_nat T) data)
                        (r_step (chunk_reader [] chunk))) HT Hs)
    as (f1 & w1 & Hof & Hs1 & Hoff & HT1 & Hrun).
  { change (chunk_reader data chunk)
      with (mkReader (list byte) data (r_step (chunk_reader [] chunk))).
    rewrite chunk_reader_Read by done.
    by replace (Z.to_nat T `min` chunk)%nat with (Z.to_nat T) by lia. }
  { unfold len. lia. }
  destruct Hof as (Hbuf & h & d & fl & Hf & Hh & Hd & Hdata & Hpos).
  destruct fl as [fd fp lk]. cbn in Hdata, Hpos. subst fd fp.
  destruct (io_Copy_into_file h d lk chunk (S fuel) (drop (Z.to_nat T) data) w1
              (take (Z.to_nat T) data) 0)
    as (w2 & Hcopy & Hha & Hhe & Hsc & Hfl).
  { lia. } { done. } { done. } { done. } { lia. }
  { unfold len in *. rewrite length_drop. lia. }
  { rewrite length_drop. lia. }
  rewrite Hf, Hcopy in Hrun. rewrite take_drop in Hfl.
  eexists f1, w2, _. rewrite Hrun. split.
  - rewrite Z.add_0_l, add64_small
      by (unfold len, MaxInt in *; rewrite length_drop; lia).
    replace (len (drop (Z.to_nat T) data) + T) with (len data); [reflexivity|].
    unfold len in *. rewrite length_drop. lia.
  - split; [|done]. split; [done|]. exists h, d. eexists.
    rewrite Hha, Hfl, lookup_insert_eq. done.
Qed.

(** [ReadFrom] on a file-backed buffer streams the source to the end of the
    file: the file holds the old contents followed by the source, the call
    returns the length of the source, and the buffer itself (cursor,
    settings, handle) is as before. *)
Theorem ReadFrom_file_backed_appends f w old data chunk fuel :
  on_file f w old -> script w = [] -> (0 < chunk)%nat ->
  len data <= MaxInt -> (length data < fuel)%nat ->
  exists w' r',
    ReadFrom fuel (chunk_reader data chunk) f w
    = Done (((len data, None), r'), f, w') /\
    on_file f w' (old ++ data) /\ script w' = [].
Proof.
  intros (Hbuf & h & d & fl & Hf & Hh & Hd & Hdata & Hpos) Hs Hc Hlen Hfuel.
  destruct fl as [fd fp lk]. cbn in Hdata, Hpos. subst fd fp.
  destruct (io_Copy_into_file h d lk chunk fuel data w old 0)
    as (w2 & Hcopy & Hha & Hhe & Hsc & Hfl); try done; try lia.
  unfold ReadFrom. mrun. rewrite Hf.
  change (chunk_reader data chunk)
    with (mkReader (list byte) data (r_step (chunk_reader [] chunk))).
  rewrite Hcopy, Z.add_0_l.
  eexists w2, _. split; [reflexivity|]. split; [|done].
  split; [done|]. exists h, d. eexists. rewrite Hha, Hfl, lookup_insert_eq. done.
Qed.

Lemma ReadFrom_file_backed_appends_witness :
  let f0 := mkFilebuf 2 false EmptyString EmptyString None (Some 1%nat) 0 in
  let w0 := mkWorld ∅ {[ 0%nat := mkFile [Byte.x01; Byte.x02; Byte.x03] 3 false ]}
                    {[ 1%nat := 0%nat ]} 2 [] in
  exists w' r',
    ReadFrom 3 (chunk_reader [Byte.x04; Byte.x05] 1) f0 w0
    = Done (((2, None), r'), f0, w') /\
    on_file f0 w' ([Byte.x01; Byte.x02; Byte.x03] ++ [Byte.x04; Byte.x05]) /\
    script w' = [].
Proof.
  intros f0 w0.
  apply (ReadFrom_file_backed_appends f0 w0 [Byte.x01; Byte.x02; Byte.x03]
           [Byte.x04; Byte.x05] 1 3).
  - split; [reflexivity|]. exists 1%nat, 0%nat. eexists.
    repeat split; vm_compute; reflexivity.
  - reflexivity.
  - lia.
  - unfold len, MaxInt. simpl. lia.
  - simpl. lia.
Defined.

(** [ReadFrom] on a new buffer with a positive threshold [T], from a reader
    over a fixed byte string in the manner of [bytes.Reader]: a read hands
    out the bytes that fit the window, at least [T] of them while the string
    has as many left, and a read after the last byte returns [io.EOF] with no
    bytes.  When the string is shorter than half the threshold or at least
    the threshold long, the whole string is taken in and counted; it stays in
    memory in the first case and is on a file in the second.  In both cases
    every window that [ReadFrom] offers the source is non-empty.  (At exactly
    half the threshold the loop offers an empty window, and what happens
    depends on the answer of the source to it; above half and below the
    threshold lies the window fault of C10.) *)
Theorem ReadFrom_whole_source T data chunk fuel w :
  0 < T <= MaxInt -> script w = [] -> len data <= MaxInt ->
  (Z.to_nat T <= chunk)%nat -> (S (length data) < fuel)%nat ->
  2 * len data < T \/ T <= len data ->
  exists f' w' r',
    ReadFrom fuel (chunk_reader data chunk) (New T) w
    = Done (((len data, None), r'), f', w') /\
    (if len data <? T then in_memory T f' w' data else on_file f' w' data) /\
    off f' = 0 /\ script w' = [].
Proof.
  intros HT Hs Hlen Hchunk Hfuel [Hsmall|Hbig].
  - pose proof (len_nonneg data) as Hd.
    destruct (ReadFrom_source_in_memory T (New T) w [] data chunk fuel)
      as (f' & w' & r' & Hrun & Hm & Hoff & _ & _ & Hsc).
    { done. } { done. } { change (len []) with 0. lia. }
    { unfold len in *. lia. } { lia. }
    exists f', w', r'. ztest. rewrite Hsc. done.
  - destruct (ReadFrom_source_to_file T data chunk fuel w)
      as (f' & w' & r' & Hrun & Hof & Hoff & _ & Hsc); try done; [lia|].
    exists f', w', r'. ztest. done.
Qed.

Lemma ReadFrom_whole_source_witness :
  (exists f' w' r',
     ReadFrom 5 (chunk_reader [Byte.x01; Byte.x02; Byte.x03] 8) (New 2) empty_world
     = Done (((len [Byte.x01; Byte.x02; Byte.x03], None), r'), f', w') /\
     (if len [Byte.x01; Byte.x02; Byte.x03] <? 2
      then in_memory 2 f' w' [Byte.x01; Byte.x02; Byte.x03]
      else on_file f' w' [Byte.x01; Byte.x02; Byte.x03]) /\
     off f' = 0 /\ script w' = []) /\
  (exists f' w' r',
     ReadFrom 5 (chunk_reader [Byte.x01; Byte.x02; Byte.x03] 8) (New 8) empty_world
     = Done (((len [Byte.x01; Byte.x02; Byte.x03], None), r'), f', w') /\
     (if len [Byte.x01; Byte.x02; Byte.x03] <? 8
      then in_memory 8 f' w' [Byte.x01; Byte.x02; Byte.x03]
      else on_file f' w' [Byte.x01; Byte.x02; Byte.x03]) /\
     off f' = 0 /\ script w' = []).
Proof.
  split.
  - apply (ReadFrom_whole_source 2 [Byte.x01; Byte.x02; Byte.x03] 8 5 empty_world).
    + unfold MaxInt. lia.
    + reflexivity.
    + unfold len, MaxInt. simpl. lia.
    + simpl. lia.
    + simpl. lia.
    + right. unfold len. simpl. lia.
  - apply (ReadFrom_whole_source 8 [Byte.x01; Byte.x02; Byte.x03] 8 5 empty_world).
    + unfold MaxInt. lia.
    + reflexivity.
    + unfold len, MaxInt. simpl. lia.
    + simpl. lia.
    + simpl. lia.
    + left. unfold len. simpl. lia.
Defined.

(** What [ReadFrom] took in comes back, through [WriteTo] into a collecting
    writer and then through [Rewind] and [Read] until the end of the stream.
    The source is a reader over a fixed byte string in the manner of
    [bytes.Reader], handing out at least [T] bytes per read while it has
    them; the string is shorter than half the threshold [T], and then stays
    in memory, or at least [T] bytes long, and then goes to a file. *)
Theorem bulk_roundtrip T data chunk fuel size w :
  0 < T <= MaxInt -> script w = [] ->
  (0 < size)%nat -> len data + Z.of_nat size <= MaxInt ->
  (Z.to_nat T <= chunk)%nat -> (S (length data) < fuel)%nat ->
  2 * len data < T \/ T <= len data ->
  value ((let* (ne, _) := ReadFrom fuel (chunk_reader data chunk) in
          let* (me, out) := WriteTo collector in
          let* back := read_from_start fuel size in
          ret (ne, me, out, back)) (New T) w)
  = Done ((len data, None), (len data, None), sink data, (data, None)).
Proof.
  intros HT Hs Hsize Hfit Hchunk Hfuel Hcases.
  pose proof (len_nonneg data) as Hd.
  assert (exists f' w' r',
            ReadFrom fuel (chunk_reader data chunk) (New T) w
            = Done (((len data, None), r'), f', w') /\
            backing f' w' data /\ off f' = 0 /\ script w' = [])
    as (f1 & w1 & r1 & Hrun & Hb1 & Hoff1 & Hs1).
  { destruct Hcases as [Hsmall|Hbig].
    - destruct (ReadFrom_source_in_memory T (New T) w [] data chunk fuel)
        as (f' & w' & r' & Hrun & Hm & Hoff & _ & _ & Hsc).
      { done. } { done. } { change (len []) with 0. lia. }
      { unfold len in *. lia. } { lia. }
      exists f', w', r'. split; [done|]. split; [|split; [done | by rewrite Hsc]].
      apply (in_memory_backing T); [lia | done].
    - destruct (ReadFrom_source_to_file T data chunk fuel w)
        as (f' & w' & r' & Hrun & Hof & Hoff & _ & Hsc); try done; try lia.
      exists f', w', r'. split; [done|]. split; [|done].
      by apply on_file_backing. }
  destruct (WriteTo_backing f1 w1 data [] Hb1 Hs1) as (w2 & Hwt & Hb2 & Hs2);
    [lia | lia |].
  rewrite Hoff1 in Hwt. change (Z.to_nat 0) with 0%nat in Hwt.
  rewrite drop_0, app_nil_l in Hwt.
  destruct (Rewind_quiet f1 w2 data Hb2 Hs2) as (w3 & Hrew & Hb3 & Hs3).
  destruct (read_all_drains size data Hsize Hfit fuel (set_off 0 f1) w3 [] Hb3 Hs3)
    as (f4 & Hrd); [cbn; lia | cbn; lia |].
  cbn [off set_off] in Hrd. change (Z.to_nat 0) with 0%nat in Hrd.
  rewrite drop_0, app_nil_l in Hrd.
  unfold bind at 1. rewrite Hrun. cbn beta iota.
  unfold bind at 1. change collector with (sink []). rewrite Hwt. cbn beta iota.
  unfold bind at 1. unfold read_from_start. unfold bind at 1. rewrite Hrew.
  cbn beta iota. rewrite Hrd. done.
Qed.

Lemma bulk_roundtrip_witness :
  value ((let* (ne, _) := ReadFrom 5 (chunk_reader [Byte.x01; Byte.x02; Byte.x03] 8) in
          let* (me, out) := WriteTo collector in
          let* back := read_from_start 5 2 in
          ret (ne, me, out, back)) (New 2) empty_world)
  = Done ((len [Byte.x01; Byte.x02; Byte.x03], None),
          (len [Byte.x01; Byte.x02; Byte.x03], None),
          sink [Byte.x01; Byte.x02; Byte.x03],
          ([Byte.x01; Byte.x02; Byte.x03], None)) /\
  value ((let* (ne, _) := ReadFrom 5 (chunk_reader [Byte.x01; Byte.x02; Byte.x03] 8) in
          let* (me, out) := WriteTo collector in
          let* back := read_from_start 5 2 in
          ret (ne, me, out, back)) (New 8) empty_world)
  = Done ((len [Byte.x01; Byte.x02; Byte.x03], None),
          (len [Byte.x01; Byte.x02; Byte.x03], None),
          sink [Byte.x01; Byte.x02; Byte.x03],
          ([Byte.x01; Byte.x02; Byte.x03], None)).
Proof.
  split.
  - apply (bulk_roundtrip 2 [Byte.x01; Byte.x02; Byte.x03] 8 5 2 empty_world).
    + unfold MaxInt. lia.
    + reflexivity.
    + lia.
    + unfold len, MaxInt. simpl. lia.
    + simpl. lia.
    + simpl. lia.
    + right. unfold len. simpl. lia.
  - apply (bulk_roundtrip 8 [Byte.x01; Byte.x02; Byte.x03] 8 5 2 empty_world).
    + unfold MaxInt. lia.
    + reflexivity.
    + lia.
    + unfold len, MaxInt. simpl. lia.
    + simpl. lia.
    + simpl. lia.
    + left. unfold len. simpl. lia.
Defined.

(** ** [ReadFrom] with a zero threshold *)

Lemma MinRead_pos : (0 < bytes.MinRead)%nat.
Proof. apply Nat.ltb_lt. vm_compute. reflexivity. Qed.

(** [bytes.Buffer.ReadFrom] collects a source of fixed data in full. *)
Lemma Buffer_ReadFrom_collects chunk fuel : forall rest acc,
  (0 < chunk)%nat -> (length rest < fuel)%nat ->
  bytes.Buffer_ReadFrom fuel
    (mkReader (list byte) rest (r_step (chunk_reader [] chunk))) acc
  = Done ((len (acc ++ rest), None), acc ++ rest,
          mkReader (list byte) [] (r_step (chunk_reader [] chunk))).
Proof.
  induction fuel as [|fuel IH]; intros rest acc Hc Hfuel; [lia|].
  cbn [bytes.Buffer_ReadFrom].
  pose proof MinRead_pos as HN. generalize dependent bytes.MinRead. intros N HN.
  destruct (decide (rest = [])) as [->|Hne].
  - rewrite chunk_reader_Read_end. done.
  - rewrite chunk_reader_Read by done.
    assert (0 < length rest)%nat by (destruct rest; [done | simpl; lia]).
    rewrite IH; [|done|rewrite length_drop; lia].
    by rewrite <- app_assoc, take_drop.
Qed.

Lemma splice_window (arr : list byte) (o a : nat) (q : list byte) :
  (o + a + length q <= length arr)%nat ->
  take (a + length q) (drop o (splice arr (o + a) q)) = take a (drop o arr) ++ q.
Proof.
  intros H. unfold splice.
  replace (o + a - length arr)%nat with 0%nat by lia. simpl.
  rewrite drop_app_le by (rewrite length_take; lia).
  rewrite skipn_firstn_comm. replace (o + a - o)%nat with a by lia.
  rewrite take_app_ge by (rewrite length_take, length_drop; lia).
  rewrite length_take, length_drop.
  replace (a + length q - a `min` (length arr - o))%nat with (length q) by lia.
  by rewrite take_app_length.
Qed.

(** [append] on a valid slice gives a valid slice that shows the old bytes
    followed by the new ones, in place or in a new array. *)
Lemma append_contents s data f w :
  valid_slice w s ->
  exists s' w',
    append s data f w = Done (s', f, w') /\
    valid_slice w' s' /\ contents w' s' = contents w s ++ data /\
    files w' = files w /\ handles w' = handles w /\ script w' = script w.
Proof.
  intros Hv. unfold append.
  pose proof (len_nonneg data) as Hd.
  destruct (Z.leb_spec (slen s + len data) (scap s)) as [Hfit|Hover].
  - destruct s as [s|].
    + destruct Hv as (arr & Harr & Hin & Hle).
      unfold subslice at 1. cbn [slen scap] in *. ztest. cbn [andb]. cbn beta iota.
      unfold subslice at 1. cbn [slen scap s_len s_cap]. ztest. cbn [andb].
      cbn beta iota. unfold copy_to. cbn [s_len s_arr s_off]. rewrite Harr.
      cbn [default]. unfold id.
      assert (take (Z.to_nat (Z.of_nat (Z.to_nat (Z.of_nat (s_len s) + len data - 0))
                              - Z.of_nat (s_len s))) data = data) as ->.
      { apply take_ge. unfold len. lia. }
      eexists _, _. split; [reflexivity|].
      replace (s_off s + Z.to_nat 0 + Z.to_nat (Z.of_nat (s_len s)))%nat
        with (s_off s + s_len s)%nat by lia.
      split; [|split; [|done]].
      * unfold valid_slice. cbn [s_arr s_off s_cap s_len heap set_heap].
        rewrite lookup_insert_eq. eexists. split; [done|].
        rewrite splice_length by (unfold len in *; lia). unfold len in *. lia.
      * unfold contents. cbn [s_arr s_off s_len heap set_heap].
        rewrite lookup_insert_eq, Harr. cbn [default]. unfold id.
        replace (s_off s + Z.to_nat 0)%nat with (s_off s) by lia.
        replace (Z.to_nat (Z.of_nat (s_len s) + len data - 0))
          with (s_len s + length data)%nat by (unfold len; lia).
        apply splice_window. unfold len in *. lia.
    + cbn [slen scap] in *. assert (data = []) as ->.
      { apply len_nil_iff. lia. }
      cbn. exists None, w. done.
  - eexists _, _. split; [reflexivity|].
    split; [|split; [|done]].
    + unfold valid_slice. cbn [s_arr s_off s_cap s_len heap set_heap set_next_id].
      rewrite lookup_insert_eq. eexists. split; [done|]. lia.
    + unfold contents at 1. cbn [s_arr s_off s_len heap set_heap set_next_id].
      rewrite lookup_insert_eq. cbn [default]. by rewrite drop_0, firstn_all.
Qed.

(** With a zero threshold, which stands for a buffer that is never promoted,
    [ReadFrom] takes the whole source into memory and returns its length,
    whatever the buffer already holds and however the source is cut into
    reads. *)
Theorem ReadFrom_zero_threshold f w old data chunk fuel :
  file f = None -> MaxBufSize f = 0 -> backing f w old ->
  (0 < chunk)%nat -> (length data < fuel)%nat ->
  exists f' w' r',
    ReadFrom fuel (chunk_reader data chunk) f w
    = Done (((len data, None), r'), f', w') /\
    file f' = None /\ backing f' w' (old ++ data) /\ off f' = off f /\
    files w' = files w /\ script w' = script w.
Proof.
  intros Hf HT Hb Hc Hfuel. unfold backing in Hb. rewrite Hf in Hb.
  destruct Hb as (Hv & Hold).
  destruct (append_contents (buf f) data f w Hv)
    as (s' & w' & Happ & Hv' & Hc' & Hfl & Hha & Hsc).
  unfold ReadFrom. mrun. rewrite Hf, HT. cbn [Z.eqb].
  change (chunk_reader data chunk)
    with (mkReader (list byte) data (r_step (chunk_reader [] chunk))).
  rewrite Buffer_ReadFrom_collects by done. cbn [app]. rewrite Happ.
  eexists _, w', _. split; [reflexivity|].
  cbn [file set_buf off]. split; [done|]. split; [|done].
  unfold backing. cbn [file set_buf buf]. rewrite Hf, Hc', Hold. done.
Qed.

Lemma ReadFrom_zero_threshold_witness :
  exists f' w' r',
    ReadFrom 4 (chunk_reader [Byte.x01; Byte.x02; Byte.x03] 2) (New 0) empty_world
    = Done (((len [Byte.x01; Byte.x02; Byte.x03], None), r'), f', w') /\
    file f' = None /\ backing f' w' ([] ++ [Byte.x01; Byte.x02; Byte.x03]) /\
    off f' = off (New 0) /\
    files w' = files empty_world /\ script w' = script empty_world.
Proof.
  apply (ReadFrom_zero_threshold (New 0) empty_world []
           [Byte.x01; Byte.x02; Byte.x03] 2 4).
  - reflexivity.
  - reflexivity.
  - unfold backing. cbn. done.
  - lia.
  - simpl. lia.
Defined.

(** ** Writing after a rewind *)

(** [Rewind] also moves the offset of the backing file, and [Write] on a
    file-backed buffer writes at that offset.  So of two buffers that hold
    the same data, a memory-backed one still appends after [Rewind], while a
    file-backed one overwrites its contents from the start. *)
Theorem Write_after_Rewind T f g w data p :
  0 < T <= MaxInt -> script w = [] ->
  on_file f w data -> in_memory T g w data -> len data + len p <= T ->
  (exists w1 w2,
     Rewind f w = Done (None, set_off 0 f, w1) /\
     Write p (set_off 0 f) w1 = Done ((len p, None), set_off 0 f, w2) /\
     backing (set_off 0 f) w2 (p ++ drop (length p) data)) /\
  (exists g2 w2,
     Rewind g w = Done (None, set_off 0 g, w) /\
     Write p (set_off 0 g) w = Done ((len p, None), g2, w2) /\
     backing g2 w2 (data ++ p)).
Proof.
  intros HT Hs (Hbuf & h & d & fl & Hf & Hh & Hd & Hdata & Hpos) Hm Hfit. split.
  - eexists _, _. split; [|split].
    + unfold Rewind. mrun. cbn [file set_off]. rewrite Hf. mrun.
      unfold os.Seek. rewrite (lookup_file_Some _ _ _ _ Hh Hd). ztest.
      rewrite (next_outcome_quiet _ Hs). cbn [outcome_error]. reflexivity.
    + unfold Write. mrun. cbn [file set_off]. rewrite Hf. mrun.
      erewrite os_Write_quiet; [reflexivity | exact Hh | apply lookup_insert_eq | exact Hs].
    + unfold backing. cbn [file set_off]. rewrite Hf. exists d. eexists.
      split; [exact Hh|]. split; [apply lookup_insert_eq|].
      cbn [f_data f_pos]. rewrite Hdata. unfold splice. cbn.
      done.
  - assert (in_memory T (set_off 0 g) w data) as Hm' by exact Hm.
    destruct (Write_in_memory T (set_off 0 g) w data p HT Hm' Hfit)
      as (g2 & w2 & Hwr & Hm2 & _).
    exists g2, w2. split; [|split; [done|]].
    + destruct Hm as (Hg & _). unfold Rewind. mrun. cbn [file set_off].
      by rewrite Hg.
    + apply (in_memory_backing T); [lia | done].
Qed.

Lemma Write_after_Rewind_witness :
  let f0 := mkFilebuf 1 false EmptyString EmptyString None (Some 1%nat) 0 in
  let g0 := mkFilebuf 4 false EmptyString EmptyString
                      (Some (mkSlice 5 0 2 4)) None 0 in
  let w0 := mkWorld {[ 5%nat := [Byte.x01; Byte.x02; Byte.x00; Byte.x00] ]}
                    {[ 0%nat := mkFile [Byte.x01; Byte.x02] 2 false ]}
                    {[ 1%nat := 0%nat ]} 6 [] in
  (exists w1 w2,
     Rewind f0 w0 = Done (None, set_off 0 f0, w1) /\
     Write [Byte.x09] (set_off 0 f0) w1 = Done ((len [Byte.x09], None), set_off 0 f0, w2) /\
     backing (set_off 0 f0) w2 ([Byte.x09] ++ drop (length [Byte.x09]) [Byte.x01; Byte.x02])) /\
  (exists g2 w2,
     Rewind g0 w0 = Done (None, set_off 0 g0, w0) /\
     Write [Byte.x09] (set_off 0 g0) w0 = Done ((len [Byte.x09], None), g2, w2) /\
     backing g2 w2 ([Byte.x01; Byte.x02] ++ [Byte.x09])).
Proof.
  intros f0 g0 w0.
  apply (Write_after_Rewind 4 f0 g0 w0 [Byte.x01; Byte.x02] [Byte.x09]).
  - unfold MaxInt. lia.
  - reflexivity.
  - split; [reflexivity|]. exists 1%nat, 0%nat. eexists.
    repeat split; vm_compute; reflexivity.
  - split; [reflexivity|]. split; [reflexivity|]. cbn.
    repeat split; try reflexivity. eexists. repeat split; vm_compute; reflexivity.
  - unfold len. simpl. lia.
Defined.

(** ** Writing after [Clone] *)

Lemma splice_take_before (arr : list byte) (i : nat) (q : list byte) :
  (i <= length arr)%nat -> take i (splice arr i q) = take i arr.
Proof.
  intros H. unfold splice. rewrite take_app_le by (rewrite length_take; lia).
  rewrite take_take. by replace (i `min` i)%nat with i by lia.
Qed.

(** A [Write] that fits the region, in full: the bytes go into the array of
    the region, right after those it shows. *)
Lemma Write_in_place T f w data p s :
  0 < T <= MaxInt -> in_memory T f w data -> buf f = Some s ->
  len data + len p <= T ->
  exists arr,
    heap w !! s_arr s = Some arr /\ length arr = Z.to_nat T /\
    take (length data) arr = data /\
    Write p f w =
    Done ((len p, None),
          set_buf (Some (mkSlice (s_arr s) 0 (length (data ++ p)) (Z.to_nat T))) f,
          set_heap (<[s_arr s := splice arr (length data) p]> (heap w)) w).
Proof.
  intros HT (Hfile & HT' & Hb) Hs Hfit.
  pose proof (len_nonneg data) as Hd. pose proof (len_nonneg p) as Hp.
  rewrite Hs in Hb. destruct Hb as (Hoff & Hlen & Hcap & arr & Harr & Hal & Htake).
  exists arr. do 3 (split; [done|]).
  assert (Z.of_nat (s_len s) = len data) as Hl by (unfold len; lia).
  assert (Z.of_nat (s_cap s) = T) as Hc by lia.
  unfold Write. mrun. rewrite Hfile, HT', Hs. cbn [slen]. rewrite Hl.
  rewrite add64_small by (unfold MaxInt in *; lia). ztest. cbn [andb].
  unfold appendBuffer. mrun. rewrite Hs. mrun. rewrite Hs. cbn [slen]. rewrite Hl.
  rewrite add64_small by (unfold MaxInt in *; lia).
  unfold subslice at 1. cbn [scap]. rewrite Hc. ztest. cbn [andb]. cbn beta iota.
  unfold subslice at 1. cbn [slen scap s_len s_cap].
  replace (Z.of_nat (Z.to_nat (len data + len p - 0))) with (len data + len p) by lia.
  replace (Z.of_nat (s_cap s - Z.to_nat 0)) with T by lia.
  ztest. cbn [andb]. cbn beta iota.
  unfold copy_to. cbn [s_len s_arr s_off]. rewrite Harr. cbn [default]. unfold id.
  assert (take (Z.to_nat (len data + len p - len data)) p = p) as ->
    by (apply take_ge; unfold len; lia).
  rewrite Hoff.
  replace (0 + Z.to_nat 0 + Z.to_nat (len data))%nat with (length data)
    by (unfold len; lia).
  replace (Z.to_nat (len data + len p - 0)) with (length (data ++ p))
    by (rewrite length_app; unfold len; lia).
  replace (s_cap s - Z.to_nat 0)%nat with (Z.to_nat T) by lia.
  reflexivity.
Qed.

(** A clone of a memory-backed buffer is a copy of the slice header over the
    same array.  What the original writes after the cloning the clone does
    not show; but the clone's own write goes to the same place in the array,
    and the original then shows the clone's bytes in place of its own. *)
Theorem Clone_memory_aliasing T f w data p q :
  0 < T <= MaxInt -> in_memory T f w data -> buf f <> None ->
  len data + len p <= T -> length q = length p ->
  exists f1 w1 c2 w2,
    Clone f w = Done ((Some f, None), f, w) /\
    Write p f w = Done ((len p, None), f1, w1) /\
    backing f1 w1 (data ++ p) /\ backing f w1 data /\
    Write q f w1 = Done ((len q, None), c2, w2) /\
    backing c2 w2 (data ++ q) /\ backing f1 w2 (data ++ q).
Proof.
  intros HT Hm Hbuf Hfit Hq.
  destruct (buf f) as [s|] eqn:Hs; [|done].
  destruct (Write_in_place T f w data p s HT Hm Hs Hfit)
    as (arr & Harr & Hal & Htake & Hw1).
  pose proof Hm as (Hfile & HT' & Hb). rewrite Hs in Hb.
  destruct Hb as (Hoff & Hlen & Hcap & _).
  set (w1 := set_heap (<[s_arr s := splice arr (length data) p]> (heap w)) w) in *.
  assert (length data + length p <= length arr)%nat as Hroom by (unfold len in *; lia).
  assert (in_memory T f w1 data) as Hm1.
  { split; [done|]. split; [done|]. rewrite Hs. do 3 (split; [done|]).
    exists (splice arr (length data) p). subst w1. cbn [heap set_heap].
    rewrite lookup_insert_eq. split; [done|].
    split; [by rewrite splice_length by lia|].
    rewrite splice_take_before by lia. done. }
  destruct (Write_in_place T f w1 data q s HT Hm1 Hs)
    as (arr1 & Harr1 & Hal1 & Htake1 & Hw2); [unfold len in *; lia|].
  assert (arr1 = splice arr (length data) p) as ->.
  { subst w1. cbn [heap set_heap] in Harr1. rewrite lookup_insert_eq in Harr1.
    congruence. }
  eexists _, w1, _, _.
  split; [unfold Clone; mrun; by rewrite Hfile|].
  split; [exact Hw1|].
  split; [|split; [apply (in_memory_backing T); [lia | done]|]].
  { unfold backing. cbn [file set_buf buf]. rewrite Hfile. split.
    - unfold valid_slice. subst w1. cbn [s_arr s_off s_cap s_len heap set_heap].
      rewrite lookup_insert_eq. eexists. split; [done|].
      rewrite splice_length, length_app by lia. unfold len in *. lia.
    - unfold contents. subst w1. cbn [s_arr s_off s_len heap set_heap].
      rewrite lookup_insert_eq. cbn [default]. unfold id. rewrite drop_0, length_app.
      rewrite splice_take by lia. by rewrite Htake. }
  split; [exact Hw2|].
  assert (forall n, n = length (data ++ q) ->
            backing (set_buf (Some (mkSlice (s_arr s) 0 n (Z.to_nat T))) f)
              (set_heap (<[s_arr s := splice (splice arr (length data) p) (length data) q]>
                           (heap w1)) w1)
              (data ++ q)) as Hshow.
  { intros n ->. unfold backing. cbn [file set_buf buf]. rewrite Hfile. split.
    - unfold valid_slice. cbn [s_arr s_off s_cap s_len heap set_heap].
      rewrite lookup_insert_eq. eexists. split; [done|].
      rewrite !splice_length, length_app by (rewrite ?splice_length; lia).
      unfold len in *. lia.
    - unfold contents. cbn [s_arr s_off s_len heap set_heap].
      rewrite lookup_insert_eq. cbn [default]. unfold id. rewrite drop_0, length_app.
      rewrite splice_take by (rewrite splice_length; lia).
      by rewrite Htake1. }
  split; apply Hshow; [done | rewrite !length_app; lia].
Qed.

Lemma Clone_memory_aliasing_witness :
  let f0 := mkFilebuf 4 false EmptyString EmptyString
                      (Some (mkSlice 5 0 2 4)) None 0 in
  let w0 := mkWorld {[ 5%nat := [Byte.x01; Byte.x02; Byte.x00; Byte.x00] ]}
                    ∅ ∅ 6 [] in
  exists f1 w1 c2 w2,
    Clone f0 w0 = Done ((Some f0, None), f0, w0) /\
    Write [Byte.x07] f0 w0 = Done ((len [Byte.x07], None), f1, w1) /\
    backing f1 w1 ([Byte.x01; Byte.x02] ++ [Byte.x07]) /\
    backing f0 w1 [Byte.x01; Byte.x02] /\
    Write [Byte.x09] f0 w1 = Done ((len [Byte.x09], None), c2, w2) /\
    backing c2 w2 ([Byte.x01; Byte.x02] ++ [Byte.x09]) /\
    backing f1 w2 ([Byte.x01; Byte.x02] ++ [Byte.x09]).
Proof.
  intros f0 w0.
  apply (Clone_memory_aliasing 4 f0 w0 [Byte.x01; Byte.x02] [Byte.x07] [Byte.x09]).
  - unfold MaxInt. lia.
  - split; [reflexivity|]. split; [reflexivity|]. cbn.
    repeat split; try reflexivity. eexists. repeat split; vm_compute; reflexivity.
  - discriminate.
  - unfold len. simpl. lia.
  - reflexivity.
Defined.

(** A clone of a file-backed buffer has a handle of its own on the same open
    file, offset included.  What either of the two writes is appended to the
    one file, and both show it. *)
Theorem Clone_file_sharing f w data p q :
  on_file f w data -> script w = [] ->
  (forall h, file f = Some h -> (h < next_id w)%nat) ->
  exists c w0 w1 w2,
    Clone f w = Done ((Some c, None), f, w0) /\ file c <> file f /\
    Write p f w0 = Done ((len p, None), f, w1) /\
    backing c w1 (data ++ p) /\
    Write q c w1 = Done ((len q, None), c, w2) /\
    backing f w2 (data ++ p ++ q) /\ backing c w2 (data ++ p ++ q).
Proof.
  intros (Hbuf & h & d & fl & Hf & Hh & Hd & Hdata & Hpos) Hs Hfresh.
  specialize (Hfresh h Hf).
  destruct fl as [fd fp lk]. cbn in Hdata, Hpos. subst fd fp.
  set (h' := next_id w).
  set (w0 := set_next_id (S h') (set_handles (<[h' := d]> (handles w)) w)).
  assert (handles w0 !! h = Some d) as Hh0.
  { subst w0. cbn. rewrite lookup_insert_ne by (subst h'; lia). done. }
  assert (handles w0 !! h' = Some d) as Hh0'.
  { subst w0. cbn. by rewrite lookup_insert_eq. }
  set (w1 := set_files (<[d := mkFile (data ++ p) (length data + length p) lk]> (files w0)) w0).
  set (w2 := set_files (<[d := mkFile ((data ++ p) ++ q)
                                 (length data + length p + length q) lk]> (files w1)) w1).
  exists (set_file (Some h') f), w0, w1, w2.
  split; [|split; [|split; [|split; [|split; [|split]]]]].
  - unfold Clone. mrun. rewrite Hf. mrun. unfold os.Dup. rewrite Hh.
    rewrite (next_outcome_quiet _ Hs). reflexivity.
  - cbn [file set_file]. rewrite Hf. intros [= E]. subst h'. lia.
  - unfold Write. mrun. rewrite Hf. mrun.
    rewrite (os_Write_quiet h d (mkFile data (length data) lk) p w0 Hh0 Hd Hs).
    cbn [f_data f_pos f_linked]. by rewrite splice_end.
  - unfold backing. cbn [file set_file]. exists d. eexists.
    split; [exact Hh0'|]. split; [apply lookup_insert_eq | done].
  - unfold Write. mrun. cbn [file set_file]. mrun.
    rewrite (os_Write_quiet h' d (mkFile (data ++ p) (length data + length p) lk) q w1
               Hh0' (lookup_insert_eq _ _ _) Hs).
    cbn [f_data f_pos f_linked]. rewrite <- length_app, splice_end, length_app.
    reflexivity.
  - unfold backing. rewrite Hf. exists d. eexists.
    split; [exact Hh0|]. split; [apply lookup_insert_eq|]. cbn. by rewrite <- app_assoc.
  - unfold backing. cbn [file set_file]. exists d. eexists.
    split; [exact Hh0'|]. split; [apply lookup_insert_eq|]. cbn. by rewrite <- app_assoc.
Qed.

Lemma Clone_file_sharing_witness :
  let f0 := mkFilebuf 1 false EmptyString EmptyString None (Some 1%nat) 0 in
  let w0 := mkWorld ∅ {[ 0%nat := mkFile [Byte.x01; Byte.x02] 2 false ]}
                    {[ 1%nat := 0%nat ]} 2 [] in
  exists c w0' w1 w2,
    Clone f0 w0 = Done ((Some c, None), f0, w0') /\ file c <> file f0 /\
    Write [Byte.x07] f0 w0' = Done ((len [Byte.x07], None), f0, w1) /\
    backing c w1 ([Byte.x01; Byte.x02] ++ [Byte.x07]) /\
    Write [Byte.x09] c w1 = Done ((len [Byte.x09], None), c, w2) /\
    backing f0 w2 ([Byte.x01; Byte.x02] ++ [Byte.x07] ++ [Byte.x09]) /\
    backing c w2 ([Byte.x01; Byte.x02] ++ [Byte.x07] ++ [Byte.x09]).
Proof.
  intros f0 w0.
  apply (Clone_file_sharing f0 w0 [Byte.x01; Byte.x02] [Byte.x07] [Byte.x09]).
  - split; [reflexivity|]. exists 1%nat, 0%nat. eexists.
    repeat split; vm_compute; reflexivity.
  - reflexivity.
  - intros h [= <-]. simpl. lia.
Defined.

(** ** Errors during [ReadFrom] *)

(** A read of the source that ends it or fails ends [ReadFrom]: the bytes
    that came with it are kept in memory and counted, the end of the source
    is not reported as an error, any other error is passed on as it is. *)
Theorem ReadFrom_source_error T f w old r q e r' fuel :
  0 < T <= MaxInt -> in_memory T f w old -> 2 * len old <= T ->
  reader_Read r (Z.to_nat (T - 2 * len old)) = ((q, Some e), r') ->
  exists f' w',
    ReadFrom (S fuel) r f w
    = Done (((len q, match e with EOF => None | _ => Some e end), r'), f', w') /\
    in_memory T f' w' (old ++ q) /\ off f' = off f /\
    files w' = files w /\ script w' = script w.
Proof.
  intros HT Hm Hhalf Hread.
  pose proof (len_nonneg old) as Hold.
  pose proof (reader_Read_length _ _ _ _ _ Hread) as Hq.
  destruct (ReadFrom_memory_returns T f w old (S fuel) r)
    as (f0 & w0 & Hm0 & Hb0 & Hoff0 & Hfl0 & Hha0 & Hsc0 & Hret & _); [lia|done|].
  destruct (fill_read T fuel r 0 f0 w0 old (Z.to_nat (T - 2 * len old)) q (Some e) r')
    as (f1 & w1 & Hm1 & Hb1 & Hoff1 & Hfl1 & Hha1 & Hsc1 & _ & Hfill).
  { done. } { done. } { done. } { done. } { done. } { done. } { lia. }
  { unfold len, MaxInt in *. lia. }
  rewrite Z.add_0_l in Hfill.
  exists f1, w1. split; [|split; [done|split; [congruence|split; congruence]]].
  destruct e; apply Hret; exact Hfill.
Qed.

Lemma ReadFrom_source_error_witness :
  let r0 := mkReader unit tt (fun _ _ => ([Byte.x01; Byte.x02], Some (ErrExt 7), tt)) in
  exists f' w',
    ReadFrom 1 r0 (New 8) empty_world
    = Done (((len [Byte.x01; Byte.x02], Some (ErrExt 7)), r0), f', w') /\
    in_memory 8 f' w' ([] ++ [Byte.x01; Byte.x02]) /\ off f' = off (New 8) /\
    files w' = files empty_world /\ script w' = script empty_world.
Proof.
  intros r0.
  apply (ReadFrom_source_error 8 (New 8) empty_world [] r0
           [Byte.x01; Byte.x02] (ErrExt 7) r0 0).
  - unfold MaxInt. lia.
  - split; [reflexivity|]. split; reflexivity.
  - unfold len. simpl. lia.
  - reflexivity.
Defined.

(** When the temporary file cannot be created, [ReadFrom] returns a count
    of 0 with the error of [moveToFile], although it has taken a full
    threshold of bytes from the source: they stay in the memory region,
    which is full, and the buffer stays memory-backed. *)
Theorem ReadFrom_failed_promotion T f w r q r1 e rest fuel :
  0 < T <= MaxInt -> in_memory T f w [] -> script w = Fails e :: rest ->
  reader_Read r (Z.to_nat T) = ((q, None), r1) -> len q = T ->
  exists f' w',
    ReadFrom (S fuel) r f w
    = Done (((0, Some (ErrWrap msg_open (ErrOS e))), r1), f', w') /\
    in_memory T f' w' q /\ off f' = off f /\
    files w' = files w /\ handles w' = handles w /\ script w' = rest.
Proof.
  intros HT Hm Hs Hread Hq.
  destruct (ReadFrom_memory_returns T f w [] (S fuel) r)
    as (f0 & w0 & Hm0 & Hb0 & Hoff0 & Hfl0 & Hha0 & Hsc0 & _ & Hprom); [lia|done|].
  destruct (fill_read T fuel r 0 f0 w0 [] (Z.to_nat T) q None r1)
    as (f1 & w1 & Hm1 & Hb1 & Hoff1 & Hfl1 & Hha1 & Hsc1 & _ & Hfill).
  { done. } { done. } { done. } { change (len []) with 0. lia. }
  { change (len []) with 0. f_equal. lia. } { done. } { lia. }
  { unfold MaxInt in *. lia. }
  change (len []) with 0 in Hfill. revert Hfill. ztest. intros Hfill.
  rewrite (Hprom _ _ _ Hfill).
  unfold moveToFile. mrun. unfold os.TempFile.
  rewrite (next_outcome_cons w1 (Fails e) rest) by congruence.
  cbn beta iota.
  eexists _, _. split; [reflexivity|].
  destruct Hm1 as (_ & H2 & H3).
  split; [split; [done|]; split; [exact H2 | exact H3]|].
  cbn. repeat split; congruence.
Qed.

Lemma ReadFrom_failed_promotion_witness :
  let w0 := mkWorld ∅ ∅ ∅ 0%nat [Fails 28] in
  exists f' w',
    ReadFrom 1 (chunk_reader [Byte.x01; Byte.x02; Byte.x03] 8) (New 2) w0
    = Done (((0, Some (ErrWrap msg_open (ErrOS 28))),
             mkReader (list byte) [Byte.x03] (r_step (chunk_reader [] 8))), f', w') /\
    in_memory 2 f' w' [Byte.x01; Byte.x02] /\ off f' = off (New 2) /\
    files w' = files w0 /\ handles w' = handles w0 /\ script w' = [].
Proof.
  intros w0.
  apply (ReadFrom_failed_promotion 2 (New 2) w0
           (chunk_reader [Byte.x01; Byte.x02; Byte.x03] 8)
           [Byte.x01; Byte.x02]
           (mkReader (list byte) [Byte.x03] (r_step (chunk_reader [] 8))) 28 [] 0).
  - unfold MaxInt. lia.
  - split; [reflexivity|]. split; reflexivity.
  - reflexivity.
  - reflexivity.
  - reflexivity.
Defined.

(** ** [ReadFrom] into a region in use *)

(** The window of the loop is computed as [f.buf[len : cap-len]], so
    [ReadFrom] only works on a region that is less than half full.  On a
    memory-backed buffer that holds more than half the threshold it panics
    before it reads anything, whatever the source; on one that holds exactly
    half of it, it offers a source that has data an empty window for ever. *)
Theorem ReadFrom_into_filled_region T f w old :
  0 < T <= MaxInt -> in_memory T f w old ->
  (T < 2 * len old ->
   forall fuel r, ReadFrom (S fuel) r f w = Panics "slice bounds out of range") /\
  (T = 2 * len old ->
   forall fuel data chunk, data <> [] ->
     ReadFrom fuel (chunk_reader data chunk) f w = OutOfFuel).
Proof.
  intros HT Hm. pose proof Hm as (Hfile & HT' & Hb).
  assert (T <= 2 * len old -> exists s, buf f = Some s) as Hsome.
  { intros Hle. destruct (buf f) as [s|]; [by exists s|].
    subst old. change (len []) with 0 in Hle. lia. }
  pose proof (in_memory_slen _ _ _ _ Hm) as Hslen.
  split.
  - intros Hhalf fuel r. destruct Hsome as (s & Hs); [lia|].
    unfold ReadFrom. rewrite (bind_Done _ _ f w f f w) by done.
    rewrite Hfile, HT'. ztest. rewrite Hs.
    rewrite (bind_Done _ _ f w tt f w) by done.
    apply bind_Panics. apply fill_window_faults.
    + rewrite Hslen. pose proof (in_memory_bound _ _ _ _ (Z.lt_le_incl _ _ (proj1 HT)) Hm). lia.
    + rewrite Hslen, Hs. rewrite Hs in Hb. cbn [scap]. destruct Hb as (_ & _ & -> & _). lia.
  - intros Hhalf fuel data chunk Hne. destruct Hsome as (s & Hs); [lia|].
    unfold ReadFrom. rewrite (bind_Done _ _ f w f f w) by done.
    rewrite Hfile, HT'. ztest. rewrite Hs.
    rewrite (bind_Done _ _ f w tt f w) by done.
    apply bind_OutOfFuel. rewrite Hs in Hb.
    destruct Hb as (Hoff & Hlen & Hcap & _).
    apply (fill_spins fuel data chunk 0 f w s Hs Hne Hoff); unfold len in *; lia.
Qed.

Lemma ReadFrom_into_filled_region_witness :
  let f0 := mkFilebuf 4 false EmptyString EmptyString
                      (Some (mkSlice 5 0 3 4)) None 0 in
  let w0 := mkWorld {[ 5%nat := [Byte.x01; Byte.x02; Byte.x03; Byte.x00] ]}
                    ∅ ∅ 6 [] in
  let f1 := mkFilebuf 4 false EmptyString EmptyString
                      (Some (mkSlice 5 0 2 4)) None 0 in
  (forall fuel r, ReadFrom (S fuel) r f0 w0 = Panics "slice bounds out of range") /\
  (forall fuel, ReadFrom fuel (chunk_reader [Byte.x09] 1) f1 w0 = OutOfFuel).
Proof.
  intros f0 w0 f1. split.
  - apply (ReadFrom_into_filled_region 4 f0 w0 [Byte.x01; Byte.x02; Byte.x03]).
    + unfold MaxInt. lia.
    + split; [reflexivity|]. split; [reflexivity|]. cbn.
      repeat split; try reflexivity. eexists. repeat split; vm_compute; reflexivity.
    + unfold len. simpl. lia.
  - intros fuel.
    apply (ReadFrom_into_filled_region 4 f1 w0 [Byte.x01; Byte.x02]).
    + unfold MaxInt. lia.
    + split; [reflexivity|]. split; [reflexivity|]. cbn.
      repeat split; try reflexivity. eexists. repeat split; vm_compute; reflexivity.
    + unfold len. simpl. lia.
    + discriminate.
Defined.
